(** * auth0_cleanup: the deletion Lambda of [lambda_src/index.js]

    A shallow embedding of the handler and its helpers, and the properties
    of the ledger writer, the configuration resolver, the search fallback
    and the response envelope that the specification states.

    JavaScript strings are sequences of UTF-16 code units; they are lists of
    [N] here.  The calls that leave the process (Parameter Store, the Auth0
    endpoints, S3, the clock) are the fields of a [Platform] record, and every
    call is recorded in the trace of the [World].  What a search answers with
    is kept as the JSON value [JSON.parse] gives, and the type errors that
    the language raises when the program reads it are part of the model. *)

From Stdlib Require Import String Ascii List ZArith NArith Decimal Lia.
From stdpp Require Import base option list gmap.
Import ListNotations.

Set Warnings "-register-all".

Local Open Scope N_scope.
Local Open Scope list_scope.

(* ===================================================================== *)
(** ** Strings *)
(* ===================================================================== *)

Module Js.

Abbreviation jsstring := (list N).

(** The code units of an ASCII literal. *)
Definition lit (s : string) : jsstring :=
  List.map N_of_ascii (list_ascii_of_string s).

Definition LF : N := 10.
Definition DQUOTE : N := 34.
Definition COMMA : N := 44.
Definition SLASH : N := 47.
Definition BOM : N := 0xFEFF.

Arguments lit : simpl never.

(** Truthiness of a string: only the empty string is falsy. *)
Definition truthy (s : jsstring) : bool :=
  match s with [] => false | _ => true end.

(** [a || b] on strings. *)
Definition or_else (a b : jsstring) : jsstring :=
  if truthy a then a else b.

(** [o || b] where [o] may be [undefined]. *)
Definition opt_or (o : option jsstring) (b : jsstring) : jsstring :=
  match o with Some a => or_else a b | None => b end.

Fixpoint startsWith (s p : jsstring) {struct p} : bool :=
  match p, s with
  | [], _ => true
  | _ :: _, [] => false
  | c :: p', d :: s' => N.eqb c d && startsWith s' p'
  end.

Definition endsWith (s p : jsstring) : bool :=
  startsWith (rev s) (rev p).

(** [String.prototype.includes]. *)
Fixpoint includes (s p : jsstring) : bool :=
  startsWith s p ||
  match s with
  | [] => false
  | _ :: s' => includes s' p
  end.

(** WhiteSpace and LineTerminator code points of ECMAScript, the ones
    [trim], [trimStart] and [trimEnd] remove. *)
Definition isWhiteSpace (c : N) : bool :=
  ((9 <=? c) && (c <=? 13)) || (c =? 32) || (c =? 0xA0) || (c =? 0x1680)
  || ((0x2000 <=? c) && (c <=? 0x200A))
  || (c =? 0x2028) || (c =? 0x2029) || (c =? 0x202F) || (c =? 0x205F)
  || (c =? 0x3000) || (c =? 0xFEFF).

Fixpoint trimStart (s : jsstring) : jsstring :=
  match s with
  | [] => []
  | c :: s' => if isWhiteSpace c then trimStart s' else s
  end.

Definition trimEnd (s : jsstring) : jsstring := rev (trimStart (rev s)).

Definition trim (s : jsstring) : jsstring := trimEnd (trimStart s).

(** Lower-casing of one code unit.  Latin capitals map to their small
    letters; U+0130 and U+212A are the two other code points whose
    lower-case form contains an ASCII letter.  Every remaining code unit is
    kept: its lower-case form has no ASCII letter in it, and the program
    only compares lower-cased text with an ASCII header. *)
Definition lowerUnit (c : N) : jsstring :=
  if (65 <=? c) && (c <=? 90) then [c + 32]
  else if c =? 0x130 then [105; 0x307]
  else if c =? 0x212A then [107]
  else [c].

Definition toLowerCase (s : jsstring) : jsstring := flat_map lowerUnit s.

(** Letter case as a regular expression with the [i] flag ignores it: only
    the Latin letters of ASCII are folded. *)
Definition asciiLower (s : jsstring) : jsstring :=
  List.map (fun c => if (65 <=? c) && (c <=? 90) then c + 32 else c) s.

(** [s.replace(pat, repl)] with a string pattern: the first occurrence only. *)
Fixpoint replaceFirst (pat repl s : jsstring) : jsstring :=
  if startsWith s pat then repl ++ skipn (length pat) s
  else match s with
       | [] => []
       | c :: s' => c :: replaceFirst pat repl s'
       end.

(** [s.substring(s.lastIndexOf("/") + 1)]: what follows the last slash, the
    whole string when there is none. *)
Definition afterLastSlash (s : jsstring) : jsstring :=
  fold_left (fun acc c => if c =? SLASH then [] else acc ++ [c]) s [].

(** [Array.prototype.join]. *)
Fixpoint join (sep : jsstring) (l : list jsstring) : jsstring :=
  match l with
  | [] => []
  | [x] => x
  | x :: rest => x ++ sep ++ join sep rest
  end.

(** [s.replace(/^\ufeff?/, empty)]: one leading byte-order mark is dropped. *)
Definition stripBom (s : jsstring) : jsstring :=
  match s with
  | c :: s' => if c =? BOM then s' else s
  | [] => []
  end.

(** [s.replace(/\/+$/, empty)]: the trailing slashes are dropped. *)
Fixpoint dropLeadingSlashes (s : jsstring) : jsstring :=
  match s with
  | c :: s' => if c =? SLASH then dropLeadingSlashes s' else s
  | [] => []
  end.

Definition dropTrailingSlashes (s : jsstring) : jsstring :=
  rev (dropLeadingSlashes (rev s)).

(** Decimal numerals. *)
Fixpoint digits (u : Decimal.uint) : jsstring :=
  match u with
  | Decimal.Nil => []
  | Decimal.D0 u => 48 :: digits u
  | Decimal.D1 u => 49 :: digits u
  | Decimal.D2 u => 50 :: digits u
  | Decimal.D3 u => 51 :: digits u
  | Decimal.D4 u => 52 :: digits u
  | Decimal.D5 u => 53 :: digits u
  | Decimal.D6 u => 54 :: digits u
  | Decimal.D7 u => 55 :: digits u
  | Decimal.D8 u => 56 :: digits u
  | Decimal.D9 u => 57 :: digits u
  end.

Definition natural (n : N) : jsstring := digits (N.to_uint n).

(** A run of the digit zero. *)
Definition zeros (n : nat) : jsstring := repeat 48 n.

Fixpoint dropLeadingZeros (s : jsstring) : jsstring :=
  match s with
  | c :: s' => if c =? 48 then dropLeadingZeros s' else s
  | [] => []
  end.

End Js.
Import Js.

(** [stripProtocol]: a leading [http://] or [https://] (any letter case) and
    the trailing slashes are removed. *)
Definition stripProtocol (domain : jsstring) : jsstring :=
  let d :=
    if startsWith (asciiLower (firstn 8 domain)) (lit "https://") then skipn 8 domain
    else if startsWith (asciiLower (firstn 7 domain)) (lit "http://") then skipn 7 domain
    else domain in
  dropTrailingSlashes d.

(* ===================================================================== *)
(** ** Values, errors and JSON *)
(* ===================================================================== *)

(** A thrown value: an [Error] object with the attributes the program reads
    ([name], [message], [$metadata.httpStatusCode] and [Code]). *)
Record JsError := mkError {
  err_name : jsstring;
  err_message : jsstring;
  err_httpStatusCode : option N;
  err_Code : option jsstring
}.

(** [new Error(msg)]. *)
Definition Error (msg : jsstring) : JsError :=
  mkError (lit "Error") msg None None.

Definition TypeError (msg : jsstring) : JsError :=
  mkError (lit "TypeError") msg None None.

(** [err?.message || String(err)]: [String] of an error whose message is
    empty is its name. *)
Definition errorText (e : JsError) : jsstring :=
  or_else (err_message e) (err_name e).

Inductive Outcome (A : Type) : Type :=
| Returned (a : A)
| Thrown (e : JsError).
Arguments Returned {A} a.
Arguments Thrown {A} e.

(** The type errors the language itself raises in this program: a property
    read of [null], a call of a property that is not a function, and the
    conversion to a string of an object that has no usable [toString]. *)
Inductive Fault :=
| ReadOfNull (property : jsstring)
| NotCallable
| NotPrimitive.

(** The result of an evaluation that has no effect but may raise one of
    these errors. *)
Inductive Checked (A : Type) : Type :=
| Fine (a : A)
| Faulty (f : Fault).
Arguments Fine {A} a.
Arguments Faulty {A} f.

Definition andThen {A B} (c : Checked A) (k : A -> Checked B) : Checked B :=
  match c with
  | Fine a => k a
  | Faulty f => Faulty f
  end.

(** The elements of a list are evaluated in order, up to the first error. *)
Fixpoint mapChecked {A B} (f : A -> Checked B) (l : list A) : Checked (list B) :=
  match l with
  | [] => Fine []
  | x :: rest =>
      andThen (f x) (fun y =>
      andThen (mapChecked f rest) (fun ys => Fine (y :: ys)))
  end.

(** Numbers.  A finite number other than zero is given by the decimal that
    [Number::toString] picks for it: the integer [s], of [k] digits and not
    divisible by ten, and the position [n] of the decimal point, the number
    being [s * 10^(n - k)], with its sign.  The two zeros print alike and
    are both falsy: they are one value here. *)
Inductive JsNumber :=
| Zero
| Finite (negative : bool) (s : positive) (n : Z)
| Infinite (negative : bool)
| NaN.

(** [Number.isFinite]. *)
Definition isFinite (x : JsNumber) : bool :=
  match x with Zero | Finite _ _ _ => true | _ => false end.

Definition minus (negative : bool) : jsstring :=
  if negative then [45] else [].

(** [Number::toString] in radix ten: positional from 1e-6 up to 1e21, in
    exponent form outside. *)
Definition numberText (x : JsNumber) : jsstring :=
  match x with
  | NaN => lit "NaN"
  | Zero => [48]
  | Infinite negative => minus negative ++ lit "Infinity"
  | Finite negative s n =>
      let ds := natural (Npos s) in
      let k := Z.of_nat (length ds) in
      minus negative ++
      (if (-5 <=? n)%Z && (n <=? 21)%Z then
         if (k <=? n)%Z then ds ++ zeros (Z.to_nat (n - k))
         else if (0 <? n)%Z
              then firstn (Z.to_nat n) ds ++ [46] ++ skipn (Z.to_nat n) ds
              else [48; 46] ++ zeros (Z.to_nat (- n)) ++ ds
       else
         firstn 1 ds ++ (if (1 <? k)%Z then [46] ++ skipn 1 ds else [])
         ++ [101] ++ (if (n <? 0)%Z then [45] else [43])
         ++ natural (Z.to_N (Z.abs (n - 1))))
  end.

(** The number of the decimal numeral [s]. *)
Definition numeralValue (s : jsstring) : N :=
  fold_left (fun acc c => 10 * acc + (c - 48)) s 0.

(** The number that is the length of a list. *)
Definition ofNat (n : nat) : JsNumber :=
  let ds := natural (N.of_nat n) in
  match numeralValue (rev (dropLeadingZeros (rev ds))) with
  | N0 => Zero
  | Npos s => Finite false s (Z.of_nat (length ds))
  end.

(** JSON values: what [JSON.parse] returns and what [JSON.stringify] prints.
    The members of an object are in the order of enumeration, each key once. *)
Inductive Json :=
| JNull
| JBoolean (b : bool)
| JNumber (x : JsNumber)
| JString (s : jsstring)
| JArray (items : list Json)
| JObject (members : list (jsstring * Json)).

(** A value of the language as far as this program meets them: a JSON value,
    or [undefined], which is [None]. *)
Definition JsValue : Type := option Json.

Definition Text (s : jsstring) : JsValue := Some (JString s).

(** [ToBoolean]. *)
Definition truthyValue (v : JsValue) : bool :=
  match v with
  | None | Some JNull => false
  | Some (JBoolean b) => b
  | Some (JNumber Zero) | Some (JNumber NaN) => false
  | Some (JNumber _) => true
  | Some (JString s) => truthy s
  | Some (JArray _) | Some (JObject _) => true
  end.

(** [a || b]. *)
Definition orValue (a b : JsValue) : JsValue :=
  if truthyValue a then a else b.

(** The own property [k] of an object. *)
Definition member (k : jsstring) (members : list (jsstring * Json)) : JsValue :=
  snd <$> List.find (fun kv => bool_decide (fst kv = k)) members.

(** [v.k] for a JSON value [v] and a property name that no prototype
    defines, as are all the names the program reads of an account and of an
    identity: the read of [null] raises a type error, an object gives its own
    property, and any other value gives [undefined]. *)
Definition get (v : Json) (k : jsstring) : Checked JsValue :=
  match v with
  | JNull => Faulty (ReadOfNull k)
  | JObject members => Fine (member k members)
  | _ => Fine None
  end.

(** [String(v)] of a JSON value.  An array prints its elements with commas
    between them, [null] as the empty string.  An object prints as
    [[object Object]], unless it has a property [toString] of its own: that
    one is no function, and neither it nor [valueOf] gives a primitive. *)
Fixpoint toText (v : Json) : Checked jsstring :=
  match v with
  | JNull => Fine (lit "null")
  | JBoolean true => Fine (lit "true")
  | JBoolean false => Fine (lit "false")
  | JNumber x => Fine (numberText x)
  | JString s => Fine s
  | JArray items =>
      andThen
        ((fix texts (l : list Json) : Checked (list jsstring) :=
            match l with
            | [] => Fine []
            | x :: rest =>
                andThen (match x with JNull => Fine [] | _ => toText x end) (fun t =>
                andThen (texts rest) (fun ts => Fine (t :: ts)))
            end) items)
        (fun ts => Fine (join [COMMA] ts))
  | JObject members =>
      match member (lit "toString") members with
      | Some _ => Faulty NotPrimitive
      | None => Fine (lit "[object Object]")
      end
  end.

(** [String(v)], and [${v}] in a template literal. *)
Definition show (v : JsValue) : Checked jsstring :=
  match v with
  | None => Fine (lit "undefined")
  | Some j => toText j
  end.

(** An object literal: a property whose value is [undefined] is left out by
    [JSON.stringify]. *)
Definition object (props : list (jsstring * JsValue)) : Json :=
  JObject (omap (fun kv => match snd kv with
                           | Some v => Some (fst kv, v)
                           | None => None
                           end) props).

Definition hexDigit (n : N) : N :=
  if n <? 10 then 48 + n else 87 + n.

(** The escape [\uXXXX] of a code unit. *)
Definition unicodeEscape (c : N) : jsstring :=
  [92; 117; hexDigit (c / 4096 mod 16); hexDigit (c / 256 mod 16);
   hexDigit (c / 16 mod 16); hexDigit (c mod 16)].

Definition isHighSurrogate (c : N) : bool := (0xD800 <=? c) && (c <=? 0xDBFF).
Definition isLowSurrogate (c : N) : bool := (0xDC00 <=? c) && (c <=? 0xDFFF).

Definition escapeUnit (c : N) : jsstring :=
  if c =? 8 then [92; 98]
  else if c =? 9 then [92; 116]
  else if c =? 10 then [92; 110]
  else if c =? 12 then [92; 102]
  else if c =? 13 then [92; 114]
  else if c =? 34 then [92; 34]
  else if c =? 92 then [92; 92]
  else if c <? 32 then unicodeEscape c
  else [c].

Fixpoint escapeUnits (s : jsstring) : jsstring :=
  match s with
  | [] => []
  | c :: s' =>
      if isHighSurrogate c then
        match s' with
        | d :: s'' =>
            if isLowSurrogate d then c :: d :: escapeUnits s''
            else unicodeEscape c ++ escapeUnits s'
        | [] => unicodeEscape c
        end
      else if isLowSurrogate c then unicodeEscape c ++ escapeUnits s'
      else escapeUnit c ++ escapeUnits s'
  end.

(** [QuoteJSONString]. *)
Definition quoteJSON (s : jsstring) : jsstring :=
  [DQUOTE] ++ escapeUnits s ++ [DQUOTE].

(** [JSON.stringify] without indentation, of a value made of JSON values: a
    number that is not finite prints as [null]. *)
Fixpoint JSON_stringify (j : Json) : jsstring :=
  match j with
  | JNull => lit "null"
  | JString s => quoteJSON s
  | JNumber x => if isFinite x then numberText x else lit "null"
  | JBoolean true => lit "true"
  | JBoolean false => lit "false"
  | JArray items => lit "[" ++ join [COMMA] (List.map JSON_stringify items) ++ lit "]"
  | JObject members =>
      lit "{"
      ++ join [COMMA]
           (List.map (fun kv => quoteJSON (fst kv) ++ lit ":" ++ JSON_stringify (snd kv))
              members)
      ++ lit "}"
  end.

(* ===================================================================== *)
(** ** Accounts and ledger rows *)
(* ===================================================================== *)

(* An account is an element of the array the search answers with: any JSON
   value, for the program reads the array as it is parsed. *)

Definition CSV_HEADER_LINE : jsstring :=
  lit "ssoid,deactivation_flag,last_update_timestamp,user_id,email,name,providers,connections,created_at,last_login,logins_count,deleted_by".

(** [CSV_HEADER]: the header line and its line break. *)
Definition CSV_HEADER : jsstring := CSV_HEADER_LINE ++ [LF].

Arguments CSV_HEADER_LINE : simpl never.
Arguments CSV_HEADER : simpl never.

(** The test of [csvEscape]: the text has a double quote, a comma or a
    line feed in it. *)
Definition needsQuoting (s : jsstring) : bool :=
  existsb (fun c => (c =? DQUOTE) || (c =? COMMA) || (c =? LF)) s.

(** Every double quote of the text is written twice. *)
Definition doubleQuotes (s : jsstring) : jsstring :=
  flat_map (fun c => if c =? DQUOTE then [DQUOTE; DQUOTE] else [c]) s.

(** [String(v ?? empty)]: the text of a field. *)
Definition fieldText (v : JsValue) : Checked jsstring :=
  match v with
  | None | Some JNull => Fine []
  | Some j => toText j
  end.

Definition csvEscape (v : JsValue) : Checked jsstring :=
  andThen (fieldText v) (fun s =>
  Fine (if needsQuoting s then [DQUOTE] ++ doubleQuotes s ++ [DQUOTE] else s)).

(** [safeNum]: the value itself when it is a finite number, the empty string
    otherwise. *)
Definition safeNum (n : JsValue) : JsValue :=
  match n with
  | Some (JNumber x) => if isFinite x then Some (JNumber x) else Text []
  | _ => Text []
  end.

(** [(user.identities || []).map(i => i.k).join(";")].  A truthy value that
    is no array has no [map] to call; the read of a [null] element raises;
    [join] prints an element that is [undefined] or [null] as the empty
    string and converts any other. *)
Definition joinIdentities (k : jsstring) (user : Json) : Checked jsstring :=
  andThen (get user (lit "identities")) (fun ids =>
  match orValue ids (Some (JArray [])) with
  | Some (JArray items) =>
      andThen (mapChecked (fun i => get i k) items) (fun values =>
      andThen (mapChecked fieldText values) (fun texts =>
      Fine (join (lit ";") texts)))
  | _ => Faulty NotCallable
  end).

(** The [fields] array of [buildCsvRow]; [now] is [new Date().toISOString()]. *)
Definition rowFields (now ssoid : jsstring) (user : Json) (deletedBy : jsstring)
  : Checked (list JsValue) :=
  andThen (joinIdentities (lit "provider") user) (fun providers =>
  andThen (joinIdentities (lit "connection") user) (fun connections =>
  andThen (get user (lit "user_id")) (fun user_id =>
  andThen (get user (lit "email")) (fun email =>
  andThen (get user (lit "name")) (fun name =>
  andThen (get user (lit "nickname")) (fun nickname =>
  andThen (get user (lit "username")) (fun username =>
  andThen (get user (lit "created_at")) (fun created_at =>
  andThen (get user (lit "last_login")) (fun last_login =>
  andThen (get user (lit "logins_count")) (fun logins_count =>
  Fine [ Text ssoid;
         Text (lit "Y");
         Text now;
         orValue user_id (Text []);
         orValue email (Text []);
         orValue name (orValue nickname (orValue username (Text [])));
         Text providers;
         Text connections;
         orValue created_at (Text []);
         orValue last_login (Text []);
         safeNum logins_count;
         Text deletedBy ])))))))))).

(** What [buildCsvRow] returns when the clock reads [now]. *)
Definition csvRow (now ssoid : jsstring) (user : Json) (deletedBy : jsstring)
  : Checked jsstring :=
  andThen (rowFields now ssoid user deletedBy) (fun fields =>
  andThen (mapChecked csvEscape fields) (fun texts =>
  Fine (join [COMMA] texts ++ [LF]))).

(** Lines 266-271 of [appendRowsToCsvInS3]: the content written back, from
    the content read ([existing], empty when the object was not found). *)
Definition hasHeader (existing : jsstring) : bool :=
  startsWith (toLowerCase (trimStart existing)) CSV_HEADER_LINE.

Definition nextContent (existing : jsstring) (rows : list jsstring) : jsstring :=
  let withHeader :=
    if negb (truthy existing) || negb (hasHeader existing)
    then CSV_HEADER ++ (if truthy existing && (0 <? length existing)%nat
                        then stripBom existing else [])
    else existing in
  withHeader ++ join [] rows.

(* ===================================================================== *)
(** ** The world outside the process *)
(* ===================================================================== *)

Inductive HttpMethod := GET | POST | DELETE.

(** A [fetch] call: the URL without its query string, the search parameters
    set on it, the request headers and the body. *)
Record FetchRequest := {
  req_method : HttpMethod;
  req_url : jsstring;
  req_searchParams : list (jsstring * jsstring);
  req_headers : list (jsstring * jsstring);
  req_body : option jsstring
}.

(** What the program reads of a [fetch] response; [res_text] is the result of
    [await res.text()]. *)
Record HttpResponse := {
  res_status : N;
  res_statusText : jsstring;
  res_text : Outcome jsstring
}.

(** [res.ok]. *)
Definition res_ok (r : HttpResponse) : bool :=
  (200 <=? res_status r) && (res_status r <=? 299).

(** A [URL] object: its serialisation up to the query, and its search
    parameters in order.  The fragment is left out: it is not sent. *)
Record Url := {
  url_location : jsstring;
  url_searchParams : list (jsstring * jsstring)
}.

(** [URLSearchParams.prototype.set]: the first pair of that name takes the
    value and the other pairs of that name go; without such a pair, one is
    added at the end. *)
Fixpoint setParam (k v : jsstring) (l : list (jsstring * jsstring))
  : list (jsstring * jsstring) :=
  match l with
  | [] => [(k, v)]
  | kv :: rest =>
      if bool_decide (fst kv = k)
      then (k, v) :: List.filter (fun kv' => negb (bool_decide (fst kv' = k))) rest
      else kv :: setParam k v rest
  end.

Record SsmParameter := {
  Name : jsstring;
  Value : jsstring
}.

(** The answers of Parameter Store to one paginated listing: a page that
    carries a [NextToken] is followed by the answer to the request sent with
    that token.  The store holds finitely many parameters, so the chain of
    pages is finite. *)
Inductive PathListing :=
| LastPage (params : option (list SsmParameter))
| Page (params : option (list SsmParameter)) (NextToken : jsstring)
       (following : PathListing)
| ListingFailed (e : JsError).

Record GetParametersResult := {
  gp_Parameters : option (list SsmParameter);
  gp_InvalidParameters : option (list jsstring)
}.

Inductive LogLevel := LOG | WARN | ERROR.

Inductive LogArg :=
| LStr (s : jsstring)
| LErr (e : JsError).

(** What the process does that can be observed from outside, in order. *)
Inductive Event :=
| Console (level : LogLevel) (args : list LogArg)
| SsmGetParametersByPath (Path : jsstring) (NextToken : option jsstring)
| SsmGetParameters (Names : list jsstring)
| FetchCall (req : FetchRequest)
| S3GetObject (Bucket Key : jsstring)
| S3PutObject (Bucket Key Body ContentType : jsstring).

(** The services and built-ins the program calls.  A service answers from
    the history of the process so far (its trace), so that the same request
    may be answered differently at different times. *)
Record Platform := {
  ssm_GetParametersByPath : list Event -> jsstring -> PathListing;
  ssm_GetParameters : list Event -> list jsstring -> Outcome GetParametersResult;
  (** [new URL(s)] *)
  URL_new : jsstring -> Outcome Url;
  encodeURIComponent : jsstring -> Outcome jsstring;
  fetch : list Event -> FetchRequest -> Outcome HttpResponse;
  (** [JSON.parse(text).access_token] *)
  JSON_parse_access_token : jsstring -> Outcome (option jsstring);
  (** [JSON.parse(text)] of a search answer *)
  JSON_parse_users : jsstring -> Outcome Json;
  (** the message of a type error that the language raises *)
  TypeError_message : Fault -> jsstring;
  (** [GetObjectCommand] and [streamToString] of its body *)
  s3_GetObject : list Event -> jsstring -> jsstring -> Outcome jsstring;
  s3_PutObject : list Event -> jsstring -> jsstring -> jsstring -> jsstring -> Outcome unit;
  (** [new Date().toISOString()] *)
  Date_toISOString : list Event -> jsstring
}.

(** The state of the process: [process.env], the [paramsLoaded] latch and
    the trace of what it did. *)
Record World := {
  env : gmap jsstring jsstring;
  paramsLoaded : bool;
  trace : list Event
}.

Definition record (e : Event) (w : World) : World :=
  {| env := env w; paramsLoaded := paramsLoaded w; trace := trace w ++ [e] |}.

(* ===================================================================== *)
(** ** A monad for state and exceptions *)
(* ===================================================================== *)

Definition M (A : Type) : Type := World -> Outcome A * World.

Definition ret {A} (a : A) : M A := fun w => (Returned a, w).

Definition throw {A} (e : JsError) : M A := fun w => (Thrown e, w).

Definition bind {A B} (m : M A) (k : A -> M B) : M B :=
  fun w => match m w with
           | (Returned a, w') => k a w'
           | (Thrown e, w') => (Thrown e, w')
           end.

(** [try { m } catch (e) { h e }]. *)
Definition tryCatch {A} (m : M A) (h : JsError -> M A) : M A :=
  fun w => match m w with
           | (Returned a, w') => (Returned a, w')
           | (Thrown e, w') => h e w'
           end.

Definition lift {A} (o : Outcome A) : M A := fun w => (o, w).

Declare Scope js_scope.
Delimit Scope js_scope with js.
Notation "x <- m ;; k" := (bind m (fun x => k))
  (at level 20, m at level 99, k at level 200, only parsing) : js_scope.
Notation "' p <- m ;; k" := (bind m (fun x => match x with p => k end))
  (at level 20, p pattern, m at level 99, k at level 200, only parsing) : js_scope.
Notation "m ;; k" := (bind m (fun _ => k))
  (at level 100, k at level 200, right associativity, only parsing) : js_scope.
Local Open Scope js_scope.

Definition emit (e : Event) : M unit := fun w => (Returned tt, record e w).

(** [err?.message || err] as a console argument. *)
Definition logArg (e : JsError) : LogArg :=
  if truthy (err_message e) then LStr (err_message e) else LErr e.

Definition console (level : LogLevel) (args : list LogArg) : M unit :=
  emit (Console level args).

(** [process.env[k]]. *)
Definition getenv (k : jsstring) : M (option jsstring) :=
  fun w => (Returned (env w !! k), w).

(** [process.env[k] = v]. *)
Definition setenv (k v : jsstring) : M unit :=
  fun w => (Returned tt,
            {| env := <[k := v]> (env w); paramsLoaded := paramsLoaded w;
               trace := trace w |}).

(** [!!o] of a string that may be [undefined]. *)
Definition present (o : option jsstring) : bool :=
  match o with Some s => truthy s | None => false end.

Definition history : M (list Event) := fun w => (Returned (trace w), w).

Fixpoint forEach {A} (l : list A) (f : A -> M unit) : M unit :=
  match l with
  | [] => ret tt
  | x :: rest => f x ;; forEach rest f
  end.

(* ===================================================================== *)
(** ** The program *)
(* ===================================================================== *)

Definition EXPECTED_KEYS : list jsstring :=
  [ lit "S3_BUCKET"; lit "S3_KEY"; lit "AUTH0_DOMAIN"; lit "AUTH0_AUDIENCE";
    lit "AUTH0_CLIENT_ID"; lit "AUTH0_CLIENT_SECRET"; lit "SSOID" ].

Definition DEFAULT_PARAM_PREFIX : jsstring := lit "/auth0-cleanup/".

Definition FLAT_PREFIX : jsstring := lit "auth0_cleanup_".

(** The inbound event and the execution context, as far as they are read. *)
Record LambdaEvent := {
  pathParameters_ssoid : option jsstring;
  queryStringParameters_ssoid : option jsstring
}.

Record LambdaContext := {
  functionName : option jsstring
}.

Record Response := {
  statusCode : N;
  headers : list (jsstring * jsstring);
  body : jsstring
}.

Definition response (status : N) (b : Json) : Response :=
  {| statusCode := status;
     headers := [(lit "content-type", lit "application/json")];
     body := JSON_stringify b |}.

(** An element of [results]: [user_id] is the value read of the account,
    whatever it is. *)
Record ResultEntry := {
  entry_user_id : JsValue;
  entry_deleted : bool;
  entry_error : option jsstring
}.

Definition entryJson (r : ResultEntry) : Json :=
  object [ (lit "user_id", entry_user_id r);
           (lit "deleted", Some (JBoolean (entry_deleted r)));
           (lit "error", JString <$> entry_error r) ].

(** The constants of one invocation (lines 37-51 of the handler). *)
Record Settings := {
  AUTH0_DOMAIN : jsstring;
  AUTH0_AUDIENCE : jsstring;
  S3_BUCKET : option jsstring;
  S3_KEY : jsstring;
  token : jsstring;
  SSOID : jsstring
}.

Section Program.

Variable P : Platform.

(** An evaluation that may raise a type error of the language: the error
    thrown carries the message the engine gives it. *)
Definition engine {A} (c : Checked A) : M A :=
  match c with
  | Fine a => ret a
  | Faulty f => throw (TypeError (TypeError_message P f))
  end.

(** The guarded assignment of both phases of [loadParamsIntoEnv]:
    [if (EXPECTED_KEYS.includes(key) && !process.env[key]) process.env[key] = value]. *)
Definition fillIfUnset (key value : jsstring) : M unit :=
  v <- getenv key ;;
  if bool_decide (key ∈ EXPECTED_KEYS) && negb (present v)
  then setenv key value
  else ret tt.

(** The [do ... while (nextToken)] loop over the pages of the listing. *)
Fixpoint loadPages (path : jsstring) (nextToken : option jsstring)
    (listing : PathListing) : M unit :=
  emit (SsmGetParametersByPath path nextToken) ;;
  match listing with
  | ListingFailed e => throw e
  | LastPage ps =>
      forEach (default [] ps)
        (fun p => fillIfUnset (afterLastSlash (Name p)) (Value p))
  | Page ps tok following =>
      forEach (default [] ps)
        (fun p => fillIfUnset (afterLastSlash (Name p)) (Value p)) ;;
      if truthy tok then loadPages path (Some tok) following else ret tt
  end.

Definition hierarchicalPhase : M unit :=
  pp <- getenv (lit "PARAM_PREFIX") ;;
  let prefix := trim (opt_or pp DEFAULT_PARAM_PREFIX) in
  let wantPath := startsWith prefix [SLASH] in
  if wantPath then
    let path := if endsWith prefix [SLASH] then prefix else prefix ++ [SLASH] in
    h <- history ;;
    loadPages path None (ssm_GetParametersByPath P h path)
  else ret tt.

Definition flatPhase : M unit :=
  fun w =>
    let missing := List.filter (fun k => negb (present (env w !! k))) EXPECTED_KEYS in
    match missing with
    | [] => (Returned tt, w)
    | _ :: _ =>
        let flatNames := List.map (fun k => FLAT_PREFIX ++ k) missing in
        (emit (SsmGetParameters flatNames) ;;
         resp <- lift (ssm_GetParameters P (trace w) flatNames) ;;
         forEach (default [] (gp_Parameters resp))
           (fun p => fillIfUnset (replaceFirst FLAT_PREFIX [] (Name p)) (Value p)) ;;
         match gp_InvalidParameters resp with
         | Some (i :: invalid) =>
             console WARN [LStr (lit "Missing SSM params:");
                           LStr (join (lit ", ") (i :: invalid))]
         | _ => ret tt
         end) w
    end.

Definition setParamsLoaded : M unit :=
  fun w => (Returned tt, {| env := env w; paramsLoaded := true; trace := trace w |}).

Definition loadParamsIntoEnv : M unit :=
  fun w =>
    if paramsLoaded w then (Returned tt, w)
    else (hierarchicalPhase ;; flatPhase ;; setParamsLoaded) w.

Definition mustEnv (key : jsstring) : M jsstring :=
  v <- getenv key ;;
  match v with
  | Some s => if truthy s then ret s else throw (Error (lit "Missing " ++ key))
  | None => throw (Error (lit "Missing " ++ key))
  end.

(** [await fetch(...)].  A request aborted by the timer of [getMgmtToken] is
    a [fetch] that throws. *)
Definition callFetch (req : FetchRequest) : M HttpResponse :=
  h <- history ;;
  emit (FetchCall req) ;;
  lift (fetch P h req).

Definition bearer (tok : jsstring) : list (jsstring * jsstring) :=
  [(lit "authorization", lit "Bearer " ++ tok)].

Definition getMgmtToken (domain clientId clientSecret audience : jsstring)
  : M jsstring :=
  if negb (truthy domain) then throw (Error (lit "Missing AUTH0_DOMAIN"))
  else if negb (truthy clientId) then throw (Error (lit "Missing AUTH0_CLIENT_ID"))
  else if negb (truthy clientSecret) then throw (Error (lit "Missing AUTH0_CLIENT_SECRET"))
  else if negb (truthy audience) then throw (Error (lit "Missing AUTH0_AUDIENCE"))
  else
    let url := lit "https://" ++ stripProtocol domain ++ lit "/oauth/token" in
    let payload :=
      JObject [ (lit "grant_type", JString (lit "client_credentials"));
                (lit "client_id", JString clientId);
                (lit "client_secret", JString clientSecret);
                (lit "audience", JString audience) ] in
    res <- callFetch {| req_method := POST; req_url := url;
                        req_searchParams := [];
                        req_headers := [(lit "content-type", lit "application/json")];
                        req_body := Some (JSON_stringify payload) |} ;;
    text <- lift (res_text res) ;;
    if negb (res_ok res) then
      if includes text (lit "access_denied") && includes text (lit "client-grant")
      then throw (Error
        (lit "Access denied to Management API: create a client grant for your M2M app with scopes like read:users, delete:users. Raw: "
         ++ text))
      else throw (Error (lit "Token HTTP " ++ natural (res_status res) ++ lit " "
                         ++ res_statusText res ++ lit ": " ++ text))
    else
      access_token <- lift (JSON_parse_access_token P text) ;;
      if present access_token then ret (default [] access_token)
      else throw (Error (lit "Token response missing access_token")).

(** The request [searchUsersByQuery] sends for the query [q]: [url] is the
    [URL] object made of the domain, on which the three parameters are set. *)
Definition searchRequest (url : Url) (tok q : jsstring) : FetchRequest :=
  {| req_method := GET;
     req_url := url_location url;
     req_searchParams :=
       setParam (lit "per_page") (lit "50")
         (setParam (lit "search_engine") (lit "v3")
            (setParam (lit "q") q (url_searchParams url)));
     req_headers := bearer tok;
     req_body := None |}.

Definition searchUsersByQuery (domain tok q : jsstring) : M (list Json) :=
  tryCatch
    (url <- lift (URL_new P (lit "https://" ++ stripProtocol domain
                             ++ lit "/api/v2/users")) ;;
     res <- callFetch (searchRequest url tok q) ;;
     text <- lift (res_text res) ;;
     if negb (res_ok res) then
       throw (Error (lit "User search failed HTTP " ++ natural (res_status res)
                     ++ lit ": " ++ text))
     else
       match JSON_parse_users P text with
       | Thrown _ =>
           console ERROR [LStr (lit "User search response not JSON:"); LStr text] ;;
           ret []
       | Returned (JArray (u :: users)) => ret (u :: users)
       | Returned _ =>
           console LOG [LStr (lit "Cannot find user with query: " ++ q)] ;;
           ret []
       end)
    (fun err =>
       console ERROR [LStr (lit "Error during searchUsersByQuery for query=" ++ q ++ lit ":");
                      logArg err] ;;
       ret []).

(** The request [deleteUser] sends, from the encoded account id. *)
Definition deleteRequest (domain tok encodedId : jsstring) : FetchRequest :=
  {| req_method := DELETE;
     req_url := lit "https://" ++ stripProtocol domain ++ lit "/api/v2/users/" ++ encodedId;
     req_searchParams := [];
     req_headers := bearer tok;
     req_body := None |}.

Definition deleteUser (domain tok : jsstring) (userId : JsValue) : M unit :=
  label <- engine (show userId) ;;
  encodedId <- lift (encodeURIComponent P label) ;;
  res <- callFetch (deleteRequest domain tok encodedId) ;;
  if negb (res_ok res) then
    text <- lift (res_text res) ;;
    throw (Error (lit "Delete failed HTTP " ++ natural (res_status res)
                  ++ lit ": " ++ text))
  else ret tt.

(** The not-found test of [appendRowsToCsvInS3]. *)
Definition isNotFound (e : JsError) : bool :=
  bool_decide (err_httpStatusCode e = Some 404)
  || bool_decide (err_name e = lit "NoSuchKey")
  || bool_decide (err_Code e = Some (lit "NoSuchKey")).

Definition getObject (bucket key : jsstring) : M jsstring :=
  h <- history ;;
  emit (S3GetObject bucket key) ;;
  lift (s3_GetObject P h bucket key).

Definition putObject (bucket key content contentType : jsstring) : M unit :=
  h <- history ;;
  emit (S3PutObject bucket key content contentType) ;;
  lift (s3_PutObject P h bucket key content contentType).

Definition appendRowsToCsvInS3 (bucket key : jsstring) (rows : list jsstring)
  : M unit :=
  existing <- tryCatch (getObject bucket key)
                (fun e => if isNotFound e then ret [] else throw e) ;;
  putObject bucket key (nextContent existing rows) (lit "text/csv").

Definition buildCsvRow (ssoid : jsstring) (user : Json) (deletedBy : jsstring)
  : M jsstring :=
  h <- history ;;
  engine (csvRow (Date_toISOString P h) ssoid user deletedBy).

Definition getSsoid (event : LambdaEvent) : M jsstring :=
  e <- getenv (lit "SSOID") ;;
  ret (opt_or (pathParameters_ssoid event)
         (opt_or (queryStringParameters_ssoid event)
            (opt_or e (lit "REPLACE_WITH_SSOID")))).

Definition getDeletedBy (context : LambdaContext) : M jsstring :=
  a <- getenv (lit "AWS_LAMBDA_FUNCTION_NAME") ;;
  d <- getenv (lit "DELETED_BY") ;;
  ret (opt_or (functionName context) (opt_or a (opt_or d (lit "local")))).

(** The value [getDeletedBy] returns in a process whose environment is [e]. *)
Definition actor (context : LambdaContext) (e : gmap jsstring jsstring) : jsstring :=
  opt_or (functionName context)
    (opt_or (e !! lit "AWS_LAMBDA_FUNCTION_NAME")
       (opt_or (e !! lit "DELETED_BY") (lit "local"))).

(** Steps 2-4 of the handler (lines 37-51): the required settings are read,
    the token is fetched and the target id chosen. *)
Definition configure (event : LambdaEvent) : M Settings :=
  domain <- mustEnv (lit "AUTH0_DOMAIN") ;;
  a <- getenv (lit "AUTH0_AUDIENCE") ;;
  let audience := opt_or a (lit "https://" ++ stripProtocol domain ++ lit "/api/v2/") in
  bucket <- getenv (lit "S3_BUCKET") ;;
  k <- getenv (lit "S3_KEY") ;;
  let key := opt_or k (lit "output/deleted_users.csv") in
  clientId <- mustEnv (lit "AUTH0_CLIENT_ID") ;;
  clientSecret <- mustEnv (lit "AUTH0_CLIENT_SECRET") ;;
  tok <- getMgmtToken domain clientId clientSecret audience ;;
  ssoid <- getSsoid event ;;
  ret {| AUTH0_DOMAIN := domain; AUTH0_AUDIENCE := audience; S3_BUCKET := bucket;
         S3_KEY := key; token := tok; SSOID := ssoid |}.

(** Steps 1-4 (lines 33-51): the settings are loaded once, then read. *)
Definition resolve (event : LambdaEvent) : M Settings :=
  loadParamsIntoEnv ;;
  configure event.

Definition identityQuery (ssoid : jsstring) : jsstring :=
  lit "identities.user_id:" ++ [DQUOTE] ++ ssoid ++ [DQUOTE].

Definition metadataQuery (ssoid : jsstring) : jsstring :=
  lit "app_metadata.ssoid:" ++ [DQUOTE] ++ ssoid ++ [DQUOTE].

(** Step 5 (lines 54-57): the two searches. *)
Definition findUsers (s : Settings) : M (list Json) :=
  users <- searchUsersByQuery (AUTH0_DOMAIN s) (token s) (identityQuery (SSOID s)) ;;
  match users with
  | [] => searchUsersByQuery (AUTH0_DOMAIN s) (token s) (metadataQuery (SSOID s))
  | _ :: _ => ret users
  end.

Definition succeeded (userId : JsValue) : ResultEntry :=
  {| entry_user_id := userId; entry_deleted := true; entry_error := None |}.

Definition failed (userId : JsValue) (err : JsError) : ResultEntry :=
  {| entry_user_id := userId; entry_deleted := false;
     entry_error := Some (errorText err) |}.

(** The [catch] block of the loop (lines 79-80), entered with the arrays as
    the [try] block left them. *)
Definition recordFailure (userId : JsValue) (results : list ResultEntry)
    (csvRows : list jsstring) (err : JsError)
  : M (list ResultEntry * list jsstring) :=
  label <- engine (show userId) ;;
  console ERROR [LStr (lit "Failed to delete user_id=" ++ label ++ lit ":");
                 logArg err] ;;
  ret (results ++ [failed userId err], csvRows).

(** Lines 73-74: the deletion and its message. *)
Definition deleteAndLog (s : Settings) (userId : JsValue) : M unit :=
  deleteUser (AUTH0_DOMAIN s) (token s) userId ;;
  label <- engine (show userId) ;;
  console LOG [LStr (lit "Deleted Auth0 user_id=" ++ label)].

(** Step 6 (lines 70-82): the loop over the matched accounts.  [results] and
    [csvRows] are the two arrays the loop pushes to.  The id is read before
    the [try] block, so that a type error of that read ends the loop.  In
    the [try] block the success entry is pushed before the row is built: when
    [buildCsvRow] throws, the [catch] block finds the entry in [results] and
    adds the failure entry after it.  An error of the [catch] block itself
    ends the loop. *)
Fixpoint deleteEach (s : Settings) (deletedBy : jsstring) (users : list Json)
    (results : list ResultEntry) (csvRows : list jsstring)
  : M (list ResultEntry * list jsstring) :=
  match users with
  | [] => ret (results, csvRows)
  | u :: rest =>
      userId <- engine (get u (lit "user_id")) ;;
      pushed <-
        (fun w =>
           match deleteAndLog s userId w with
           | (Thrown err, w1) => recordFailure userId results csvRows err w1
           | (Returned _, w1) =>
               let results1 := results ++ [succeeded userId] in
               tryCatch
                 (row <- buildCsvRow (SSOID s) u deletedBy ;;
                  ret (results1, csvRows ++ [row]))
                 (recordFailure userId results1 csvRows) w1
           end) ;;
      deleteEach s deletedBy rest (fst pushed) (snd pushed)
  end.

(** Step 7 (lines 85-93): the ledger write, whose failure is logged. *)
Definition writeLedger (s : Settings) (csvRows : list jsstring) : M unit :=
  if (0 <? length csvRows)%nat && present (S3_BUCKET s) then
    tryCatch
      (appendRowsToCsvInS3 (default [] (S3_BUCKET s)) (S3_KEY s) csvRows)
      (fun e =>
         console ERROR [LStr (lit "Failed to write deleted_users.csv:"); logArg e])
  else if negb (present (S3_BUCKET s)) then
    console WARN [LStr (lit "S3_BUCKET not set; skipping CSV write.")]
  else ret tt.

Definition notFoundBody (ssoid : jsstring) : Json :=
  JObject [ (lit "message", JString (lit "Cannot find user"));
            (lit "ssoid", JString ssoid);
            (lit "results", JArray []) ].

Definition completeBody (ssoid : jsstring) (results : list ResultEntry) : Json :=
  JObject [ (lit "message", JString (lit "Delete attempt complete"));
            (lit "ssoid", JString ssoid);
            (lit "count", JNumber (ofNat (length results)));
            (lit "results", JArray (List.map entryJson results)) ].

Definition errorBody (err : JsError) : Json :=
  JObject [ (lit "error", JString (errorText err)) ].

(** Step 6 from its start (lines 66-82): both arrays start empty. *)
Definition deleteMatched (s : Settings) (context : LambdaContext)
    (users : list Json) : M (list ResultEntry * list jsstring) :=
  deletedBy <- getDeletedBy context ;;
  deleteEach s deletedBy users [] [].

(** Steps 6-8 (lines 66-100), for the accounts the search found. *)
Definition proceed (s : Settings) (context : LambdaContext)
    (users : list Json) : M Response :=
  pushed <- deleteMatched s context users ;;
  writeLedger s (snd pushed) ;;
  ret (response 200 (completeBody (SSOID s) (fst pushed))).

(** Steps 5-8 once the settings are known. *)
Definition process (s : Settings) (context : LambdaContext) : M Response :=
  users <- findUsers s ;;
  match users with
  | [] =>
      console LOG [LStr (lit "Cannot find user" ++ lit " for SSOID=" ++ SSOID s)] ;;
      ret (response 200 (notFoundBody (SSOID s)))
  | _ :: _ => proceed s context users
  end.

(** The body of the handler's [try] block. *)
Definition attempt (event : LambdaEvent) (context : LambdaContext) : M Response :=
  s <- resolve event ;;
  process s context.

(** [module.exports.handler]: what the [try] block returns, or the
    server-error response of the [catch] block. *)
Definition settle (r : Outcome Response * World) : Response * World :=
  match r with
  | (Returned r, w') => (r, w')
  | (Thrown err, w') =>
      (response 500 (errorBody err),
       record (Console ERROR [LStr (lit "Unhandled error:"); logArg err]) w')
  end.

Definition handler (event : LambdaEvent) (context : LambdaContext) (w : World)
  : Response * World :=
  settle (attempt event context w).

End Program.
(* ===================================================================== *)
(** ** The specification's reading of the ledger header test *)
(* ===================================================================== *)

(** The first line of a text: what precedes its first line feed. *)
Fixpoint firstLine (s : jsstring) : jsstring :=
  match s with
  | [] => []
  | c :: s' => if c =? LF then [] else c :: firstLine s'
  end.

(** As the specification words it: the content begins with the canonical
    header line, comparing the first line only, without regard to letter case
    and to a leading byte-order mark. *)
Definition spec_beginsWithHeader (existing : jsstring) : bool :=
  bool_decide (toLowerCase (firstLine (stripBom existing)) = CSV_HEADER_LINE).

(* ===================================================================== *)
(** ** Observations on a trace *)
(* ===================================================================== *)

(** The requests sent with [fetch], in order. *)
Definition fetchCalls (t : list Event) : list FetchRequest :=
  omap (fun e => match e with FetchCall r => Some r | _ => None end) t.

(** The contents written to the object store, in order. *)
Definition s3Writes (t : list Event) : list jsstring :=
  omap (fun e => match e with S3PutObject _ _ content _ => Some content | _ => None end) t.

(** The request a search sends: none when the URL is refused. *)
Definition searchSent (P : Platform) (domain tok q : jsstring) : list FetchRequest :=
  match URL_new P (lit "https://" ++ stripProtocol domain ++ lit "/api/v2/users") with
  | Returned url => [searchRequest url tok q]
  | Thrown _ => []
  end.

(** The number of entries of [results] that record a deletion. *)
Definition deletedCount (results : list ResultEntry) : nat :=
  length (List.filter entry_deleted results).

(** A computation keeps the settings that are set: a key that has a
    non-empty value before has the same value after, whatever the outcome. *)
Definition keeps {A} (m : M A) : Prop :=
  forall (w : World) (k v : jsstring),
    env w !! k = Some v -> v <> [] -> env (snd (m w)) !! k = Some v.

(** Two worlds are alike at the key [k] when they differ at most in that [k]
    is absent in one and empty in the other. *)
Definition alike (k : jsstring) (w w' : World) : Prop :=
  trace w = trace w'
  /\ paramsLoaded w = paramsLoaded w'
  /\ (forall key, key <> k -> env w !! key = env w' !! key)
  /\ (env w !! k = env w' !! k
      \/ (present (env w !! k) = false /\ present (env w' !! k) = false)).

(** A computation does not tell worlds that are alike apart. *)
Definition sim (k : jsstring) {A} (m : M A) : Prop :=
  forall w w', alike k w w' ->
    fst (m w) = fst (m w') /\ alike k (snd (m w)) (snd (m w')).

(** The world [w] with the key [k] removed from its environment. *)
Definition without (k : jsstring) (w : World) : World :=
  {| env := delete k (env w); paramsLoaded := paramsLoaded w; trace := trace w |}.

(** The required settings, in the order the handler reads them. *)
Definition REQUIRED_KEYS : list jsstring :=
  [ lit "AUTH0_DOMAIN"; lit "AUTH0_CLIENT_ID"; lit "AUTH0_CLIENT_SECRET" ].

(** The first required setting that is absent or empty. *)
Definition firstMissing (e : gmap jsstring jsstring) : option jsstring :=
  List.find (fun k => negb (present (e !! k))) REQUIRED_KEYS.

(* ===================================================================== *)
(** ** A concrete deployment, for examples *)
(* ===================================================================== *)

Module Scenario.

Definition alice : Json :=
  JObject
    [ (lit "user_id", JString (lit "auth0|a1"));
      (lit "email", JString (lit "alice@example.com"));
      (lit "name", JString (lit "Alice, A."));
      (lit "identities",
       JArray [ JObject [ (lit "provider", JString (lit "auth0"));
                          (lit "connection",
                           JString (lit "Username-Password-Authentication")) ];
                JObject [ (lit "provider", JString (lit "google-oauth2")) ] ]);
      (lit "created_at", JString (lit "2023-01-05T08:00:00.000Z"));
      (lit "logins_count", JNumber (Finite false 7 1)) ].

Definition bob : Json :=
  JObject [ (lit "user_id", JString (lit "auth0|b2"));
            (lit "nickname", JString (lit "bob")) ].


(** The messages of V8 for the type errors. *)
Definition v8 (f : Fault) : jsstring :=
  match f with
  | ReadOfNull k => lit "Cannot read properties of null (reading '" ++ k ++ lit "')"
  | NotCallable => lit "(user.identities || []).map is not a function"
  | NotPrimitive => lit "Cannot convert object to primitive value"
  end.

Definition storeParameters : list SsmParameter :=
  [ {| Name := lit "/auth0-cleanup/AUTH0_DOMAIN"; Value := lit "https://tenant.auth0.com/" |};
    {| Name := lit "/auth0-cleanup/AUTH0_CLIENT_ID"; Value := lit "client" |};
    {| Name := lit "/auth0-cleanup/AUTH0_CLIENT_SECRET"; Value := lit "secret" |};
    {| Name := lit "/auth0-cleanup/S3_BUCKET"; Value := lit "auth0-deleted-users" |} ].

Definition noSuchKey : JsError :=
  mkError (lit "NoSuchKey") (lit "The specified key does not exist.") (Some 404)
    (Some (lit "NoSuchKey")).


(** A deployment whose store holds [parameters], whose two searches find
    [byIdentity] and [byMetadata], that refuses to delete the accounts whose
    id is in [undeletable], and whose ledger object reads as [object] and is
    written with the outcome [put]. *)
Definition platform (parameters : list SsmParameter)
    (byIdentity byMetadata : list Json) (undeletable : list jsstring)
    (object : Outcome jsstring) (put : Outcome unit) : Platform :=
  {| ssm_GetParametersByPath := fun _ _ => LastPage (Some parameters);
     ssm_GetParameters := fun _ names =>
       Returned {| gp_Parameters := None; gp_InvalidParameters := Some names |};
     URL_new := fun s => Returned {| url_location := s; url_searchParams := [] |};
     encodeURIComponent := fun s => Returned s;
     fetch := fun _ req =>
       match req_method req with
       | POST => Returned {| res_status := 200; res_statusText := lit "OK";
                             res_text := Returned (lit "token") |}
       | GET => Returned {| res_status := 200; res_statusText := lit "OK";
                            res_text := Returned (default [] (snd <$> head (req_searchParams req))) |}
       | DELETE =>
           if existsb (fun id => endsWith (req_url req) id) undeletable
           then Returned {| res_status := 500; res_statusText := lit "Internal Server Error";
                            res_text := Returned (lit "try later") |}
           else Returned {| res_status := 204; res_statusText := lit "No Content";
                            res_text := Returned [] |}
       end;
     JSON_parse_access_token := fun text => Returned (Some text);
     JSON_parse_users := fun text =>
       if startsWith text (lit "identities.") then Returned (JArray byIdentity)
       else Returned (JArray byMetadata);
     TypeError_message := v8;
     s3_GetObject := fun _ _ _ => object;
     s3_PutObject := fun _ _ _ _ _ => put;
     Date_toISOString := fun _ => lit "2024-05-01T12:00:00.000Z" |}.

(** A process that has not loaded its settings. *)
Definition cold : World :=
  {| env := ∅; paramsLoaded := false; trace := [] |}.

Definition request (id : string) : LambdaEvent :=
  {| pathParameters_ssoid := Some (lit id); queryStringParameters_ssoid := None |}.

Definition invoker : LambdaContext :=
  {| functionName := Some (lit "local-auth0-cleanup") |}.

(** A process started with an empty [S3_BUCKET] in its environment. *)
Definition blankBucket : World :=
  {| env := {[ lit "S3_BUCKET" := [] ]}; paramsLoaded := false; trace := [] |}.

(** The settings an invocation for [abc123] resolves to when the store holds
    [storeParameters]. *)
Definition settings : Settings :=
  {| AUTH0_DOMAIN := lit "https://tenant.auth0.com/";
     AUTH0_AUDIENCE := lit "https://tenant.auth0.com/api/v2/";
     S3_BUCKET := Some (lit "auth0-deleted-users");
     S3_KEY := lit "output/deleted_users.csv";
     token := lit "token";
     SSOID := lit "abc123" |}.




(** Only the metadata query finds an account. *)
Definition foundByMetadata : Platform :=
  platform storeParameters [] [bob] [] (Thrown noSuchKey) (Returned tt).

(** No account matches either query. *)
Definition nobody : Platform :=
  platform storeParameters [] [] [] (Thrown noSuchKey) (Returned tt).

(** The store has no client id, and the environment has an empty one. *)
Definition noClientId : Platform :=
  platform
    [ {| Name := lit "/auth0-cleanup/AUTH0_DOMAIN"; Value := lit "tenant.auth0.com" |};
      {| Name := lit "/auth0-cleanup/AUTH0_CLIENT_SECRET"; Value := lit "secret" |} ]
    [] [] [] (Thrown noSuchKey) (Returned tt).

Definition blankClientId : World :=
  {| env := {[ lit "AUTH0_CLIENT_ID" := [] ]}; paramsLoaded := false; trace := [] |}.

(** The store configures no bucket. *)
Definition noBucket : Platform :=
  platform
    [ {| Name := lit "/auth0-cleanup/AUTH0_DOMAIN"; Value := lit "tenant.auth0.com" |};
      {| Name := lit "/auth0-cleanup/AUTH0_CLIENT_ID"; Value := lit "client" |};
      {| Name := lit "/auth0-cleanup/AUTH0_CLIENT_SECRET"; Value := lit "secret" |} ]
    [bob] [] [] (Thrown noSuchKey) (Returned tt).

(** The row written for [bob]. *)
Definition bobRow : jsstring :=
  lit "abc123,Y,2024-05-01T12:00:00.000Z,auth0|b2,,bob,,,,,,local-auth0-cleanup" ++ [LF].

(** A ledger whose first line has one more column than the canonical header. *)
Definition widerLedger : jsstring :=
  CSV_HEADER_LINE ++ lit ",reason" ++ [LF] ++ lit "s1,Y,t,u,e,n,p,c,a,l,1,d,left" ++ [LF].

End Scenario.

(* ===================================================================== *)
(** ** What a computation may touch *)
(* ===================================================================== *)

(** The kinds of observable events. *)
Inductive EventKind := KConsole | KSsm | KFetch | KS3Get | KS3Put.

Definition kindOf (e : Event) : EventKind :=
  match e with
  | Console _ _ => KConsole
  | SsmGetParametersByPath _ _ => KSsm
  | SsmGetParameters _ => KSsm
  | FetchCall _ => KFetch
  | S3GetObject _ _ => KS3Get
  | S3PutObject _ _ _ _ => KS3Put
  end.

Definition sameKind (a b : EventKind) : bool :=
  match a, b with
  | KConsole, KConsole | KSsm, KSsm | KFetch, KFetch
  | KS3Get, KS3Get | KS3Put, KS3Put => true
  | _, _ => false
  end.

(** The events of one kind in a trace, in order. *)
Definition eventsOf (k : EventKind) (t : list Event) : list Event :=
  List.filter (fun e => sameKind (kindOf e) k) t.

(** The world [w'] comes from [w] by events of the kinds [ok] allows, by
    assignments to the keys [okKey] allows only, and by setting the latch only
    if [okLatch] allows it. *)
Definition within (ok : EventKind -> bool) (okKey : jsstring -> bool)
    (okLatch : bool) (w w' : World) : Prop :=
  (exists delta,
      trace w' = trace w ++ delta
      /\ forallb (fun e => ok (kindOf e)) delta = true)
  /\ (forall k, okKey k = false -> env w' !! k = env w !! k)
  /\ (okLatch = false -> paramsLoaded w' = paramsLoaded w).

(** A computation stays within these bounds, whatever its outcome. *)
Definition confined (ok : EventKind -> bool) (okKey : jsstring -> bool)
    (okLatch : bool) {A} (m : M A) : Prop :=
  forall w, within ok okKey okLatch w (snd (m w)).

(** Every kind of event but [k]. *)
Definition allBut (k : EventKind) (k' : EventKind) : bool := negb (sameKind k' k).

Definition recognized (k : jsstring) : bool := bool_decide (k ∈ EXPECTED_KEYS).

Definition noKey (k : jsstring) : bool := false.

(** The request [getMgmtToken] sends. *)
Definition tokenRequest (domain clientId clientSecret audience : jsstring)
  : FetchRequest :=
  {| req_method := POST;
     req_url := lit "https://" ++ stripProtocol domain ++ lit "/oauth/token";
     req_searchParams := [];
     req_headers := [(lit "content-type", lit "application/json")];
     req_body :=
       Some (JSON_stringify
               (JObject [ (lit "grant_type", JString (lit "client_credentials"));
                          (lit "client_id", JString clientId);
                          (lit "client_secret", JString clientSecret);
                          (lit "audience", JString audience) ])) |}.

(** The requests the deletion loop sends for a list of accounts, in order:
    one per account whose id [encodeURIComponent] accepts, up to the first
    element that is [null] or whose id has no text, where the loop ends. *)
Fixpoint deleteRequests (P : Platform) (domain tok : jsstring)
    (users : list Json) : list FetchRequest :=
  match users with
  | [] => []
  | u :: rest =>
      match andThen (get u (lit "user_id")) show with
      | Faulty _ => []
      | Fine label =>
          match encodeURIComponent P label with
          | Returned encodedId =>
              deleteRequest domain tok encodedId :: deleteRequests P domain tok rest
          | Thrown _ => deleteRequests P domain tok rest
          end
      end
  end.

(** The loop goes through an account: it is not [null] and its id has a
    text. *)
Definition processable (u : Json) : bool :=
  match andThen (get u (lit "user_id")) show with
  | Fine _ => true
  | Faulty _ => false
  end.

(** The number of entries of [results] that record a failure. *)
Definition failedCount (results : list ResultEntry) : nat :=
  length (List.filter (fun r => negb (entry_deleted r)) results).

(** The [Path] of the hierarchical listing in a process whose environment is
    [e]: none when the prefix does not begin with a slash. *)
Definition listingPath (e : gmap jsstring jsstring) : option jsstring :=
  let prefix := trim (opt_or (e !! lit "PARAM_PREFIX") DEFAULT_PARAM_PREFIX) in
  if startsWith prefix [SLASH]
  then Some (if endsWith prefix [SLASH] then prefix else prefix ++ [SLASH])
  else None.

(** The parameter the store returns for the flat name of the key [k]. *)
Definition flatParameter (value : jsstring -> jsstring) (k : jsstring) : SsmParameter :=
  {| Name := FLAT_PREFIX ++ k; Value := value k |}.

(** An entry of [results] is well formed: it carries an error text exactly
    when the deletion failed. *)
Definition wellFormed (r : ResultEntry) : bool :=
  match entry_error r with
  | Some _ => negb (entry_deleted r)
  | None => entry_deleted r
  end.

(** What the loop adds to the two arrays from a state of the loop. *)
Definition grows (users : list Json) (results results' : list ResultEntry)
    (csvRows csvRows' : list jsstring) : Prop :=
  exists new newRows,
    results' = results ++ new /\ csvRows' = csvRows ++ newRows
    /\ forallb wellFormed new = true
    /\ (length newRows + failedCount new = length users)%nat
    /\ (length newRows <= deletedCount new)%nat
    /\ forallb processable users = true
    /\ (forall r, In r new ->
        exists u, In u users /\ get u (lit "user_id") = Fine (entry_user_id r)).

(** The value [getSsoid] returns in a process whose environment is [e]. *)
Definition target (event : LambdaEvent) (e : gmap jsstring jsstring) : jsstring :=
  opt_or (pathParameters_ssoid event)
    (opt_or (queryStringParameters_ssoid event)
       (opt_or (e !! lit "SSOID") (lit "REPLACE_WITH_SSOID"))).

(** What [getMgmtToken] does with the answer to its request (lines 187-199). *)
Definition readToken (P : Platform) (res : HttpResponse) : M jsstring :=
  bind (lift (res_text res)) (fun text =>
    if negb (res_ok res) then
      if includes text (lit "access_denied") && includes text (lit "client-grant")
      then throw (Error
        (lit "Access denied to Management API: create a client grant for your M2M app with scopes like read:users, delete:users. Raw: "
         ++ text))
      else throw (Error (lit "Token HTTP " ++ natural (res_status res) ++ lit " "
                         ++ res_statusText res ++ lit ": " ++ text))
    else
      bind (lift (JSON_parse_access_token P text)) (fun access_token =>
        if present access_token then ret (default [] access_token)
        else throw (Error (lit "Token response missing access_token")))).

(** The parameters of the first page of a listing. *)
Definition firstPage (listing : PathListing) : list SsmParameter :=
  match listing with
  | LastPage ps => default [] ps
  | Page ps _ _ => default [] ps
  | ListingFailed _ => []
  end.

(* ===================================================================== *)
(** ** The local harness ([local-test.js]) *)
(* ===================================================================== *)

(** [process.env[k] = process.env[k] || d]. *)
Definition setDefault (k d : jsstring) : M unit :=
  bind (getenv k) (fun v => setenv k (opt_or v d)).

Definition LOCAL_SSOID : jsstring := lit "68a78b7bfa1806316506bd29".

(** The event and the context of a local run: an event without parameters
    and the name of the local function. *)
Definition localEvent : LambdaEvent :=
  {| pathParameters_ssoid := None; queryStringParameters_ssoid := None |}.

Definition localContext : LambdaContext :=
  {| functionName := Some (lit "local-auth0-cleanup") |}.

(** Lines 9-13: the defaults of the environment. *)
Definition localSetup : M unit :=
  bind (setDefault (lit "PARAM_PREFIX") (lit "/auth0-cleanup/")) (fun _ =>
  bind (setDefault (lit "AWS_REGION") (lit "us-east-1")) (fun _ =>
  setDefault (lit "SSOID") LOCAL_SSOID)).

(** The body of the [try] block of the script.  [pretty] is
    [JSON.stringify(JSON.parse(body), null, 2)]. *)
Definition localRun (P : Platform) (pretty : jsstring -> Outcome jsstring) : M unit :=
  bind localSetup (fun _ =>
  bind (fun w => let r := handler P localEvent localContext w in
                 (Returned (fst r), snd r)) (fun res =>
  bind (console LOG [LStr (lit "Status:"); LStr (natural (statusCode res))]) (fun _ =>
  tryCatch
    (bind (lift (pretty (body res))) (fun text =>
       console LOG [LStr (lit "Body:"); LStr text]))
    (fun _ => console LOG [LStr (lit "Body:"); LStr (body res)])))).

(** The script: the exit code it sets, if any, and the world it leaves. *)
Definition localTest (P : Platform) (pretty : jsstring -> Outcome jsstring)
    (w : World) : option N * World :=
  match localRun P pretty w with
  | (Returned _, w') => (None, w')
  | (Thrown err, w') =>
      (Some 1, record (Console ERROR [LStr (lit "Test error:"); LErr err]) w')
  end.

(* ===================================================================== *)
(** ** More deployments, for examples *)
(* ===================================================================== *)

Module Deployments.

(** A store that holds every parameter under its flat name only. *)
Definition flatValue (k : jsstring) : jsstring := lit "flat-" ++ k.

Definition flatStore : Platform :=
  {| ssm_GetParametersByPath := fun _ _ => LastPage None;
     ssm_GetParameters := fun _ names =>
       Returned {| gp_Parameters :=
                     Some (List.map (fun n => {| Name := n;
                                                 Value := flatValue (skipn 14 n) |})
                             names);
                   gp_InvalidParameters := None |};
     URL_new := fun s => Returned {| url_location := s; url_searchParams := [] |};
     encodeURIComponent := fun s => Returned s;
     fetch := fun _ _ => Thrown (TypeError (lit "fetch failed"));
     JSON_parse_access_token := fun _ => Returned None;
     JSON_parse_users := fun _ => Returned JNull;
     TypeError_message := Scenario.v8;
     s3_GetObject := fun _ _ _ => Thrown Scenario.noSuchKey;
     s3_PutObject := fun _ _ _ _ _ => Returned tt;
     Date_toISOString := fun _ => lit "2024-05-01T12:00:00.000Z" |}.

(** A store that lists the same short name under two sub-paths. *)
Definition nestedParameters : list SsmParameter :=
  [ {| Name := lit "/auth0-cleanup/eu/AUTH0_DOMAIN"; Value := lit "eu.auth0.com" |};
    {| Name := lit "/auth0-cleanup/draft/SSOID"; Value := [] |};
    {| Name := lit "/auth0-cleanup/eu/SSOID"; Value := lit "eu-id" |};
    {| Name := lit "/auth0-cleanup/us/SSOID"; Value := lit "us-id" |} ].

Definition nestedStore : Platform :=
  Scenario.platform nestedParameters [] [] [] (Thrown Scenario.noSuchKey) (Returned tt).

(** The one matched account cannot be deleted. *)
Definition allRefused : Platform :=
  Scenario.platform Scenario.storeParameters [Scenario.alice] [] [lit "a1"]
    (Thrown Scenario.noSuchKey) (Returned tt).

(** The world a first invocation leaves. *)
Definition warm : World :=
  snd (handler Scenario.nobody (Scenario.request "abc123") Scenario.invoker
         Scenario.cold).

End Deployments.

(* ===================================================================== *)
(** ** Facts about strings *)
(* ===================================================================== *)

(** Literals stay folded in the proofs. *)
Opaque lit CSV_HEADER_LINE CSV_HEADER.

Lemma join_empty_concat (rows : list jsstring) : join [] rows = concat rows.
Proof.
  induction rows as [|r rows IH]; [reflexivity|].
  destruct rows as [|r' rows]; simpl in *.
  - now rewrite app_nil_r.
  - now rewrite IH.
Qed.

Lemma startsWith_app (p rest : jsstring) : startsWith (p ++ rest) p = true.
Proof.
  induction p as [|c p IH]; simpl; [reflexivity|].
  now rewrite N.eqb_refl, IH.
Qed.

Lemma toLowerCase_app (a b : jsstring) :
  toLowerCase (a ++ b) = toLowerCase a ++ toLowerCase b.
Proof. unfold toLowerCase. apply flat_map_app. Qed.

Lemma firstLine_split (s : jsstring) : exists rest, s = firstLine s ++ rest.
Proof.
  induction s as [|c s [rest IH]]; simpl.
  - now exists [].
  - destruct (c =? LF).
    + now exists (c :: s).
    + exists rest. simpl. now rewrite <- IH.
Qed.

Lemma trimStart_keeps (c : N) (s : jsstring) :
  isWhiteSpace c = false -> trimStart (c :: s) = c :: s.
Proof. intros H. simpl. now rewrite H. Qed.

(** A code unit whose lower-case form begins with the letter s is the
    letter s in one of its cases. *)
Lemma lowerUnit_s (c : N) :
  hd 0 (lowerUnit c) = 115 -> c = 83 \/ c = 115.
Proof.
  unfold lowerUnit.
  destruct ((65 <=? c) && (c <=? 90)) eqn:E; simpl.
  - intros H. left. lia.
  - destruct (c =? 0x130); simpl; [intros; discriminate|].
    destruct (c =? 0x212A); simpl; [intros; discriminate|].
    intros ->. now right.
Qed.

Lemma lowerUnit_nonempty (c : N) : lowerUnit c <> [].
Proof.
  unfold lowerUnit.
  destruct ((65 <=? c) && (c <=? 90)); [discriminate|].
  destruct (c =? 0x130); [discriminate|].
  destruct (c =? 0x212A); discriminate.
Qed.

Lemma needsQuoting_true (s : jsstring) :
  needsQuoting s = true <->
  exists c, In c s /\ (c = DQUOTE \/ c = COMMA \/ c = LF).
Proof.
  unfold needsQuoting. rewrite existsb_exists.
  split; intros (c & Hin & H); exists c; split; try assumption.
  - apply orb_true_iff in H as [H|H]; [apply orb_true_iff in H as [H|H]|];
      apply N.eqb_eq in H; auto.
  - destruct H as [->| [->| ->]]; reflexivity.
Qed.

Lemma needsQuoting_false (s : jsstring) :
  needsQuoting s = false <->
  ~ exists c, In c s /\ (c = DQUOTE \/ c = COMMA \/ c = LF).
Proof.
  rewrite <- needsQuoting_true. destruct (needsQuoting s); split; intros H; congruence.
Qed.


Lemma needsQuoting_app (a b : jsstring) :
  needsQuoting (a ++ b) = needsQuoting a || needsQuoting b.
Proof. apply existsb_app. Qed.

Lemma digits_plain (u : Decimal.uint) : needsQuoting (digits u) = false.
Proof. induction u; simpl; auto. Qed.

Lemma zeros_plain (n : nat) : needsQuoting (zeros n) = false.
Proof. induction n; simpl; auto. Qed.

Lemma firstn_plain (n : nat) (s : jsstring) :
  needsQuoting s = false -> needsQuoting (firstn n s) = false.
Proof.
  revert n. induction s as [|c s IH]; intros [|n] H; simpl in *; try reflexivity.
  apply orb_false_iff in H as [-> H]. simpl. now apply IH.
Qed.

Lemma skipn_plain (n : nat) (s : jsstring) :
  needsQuoting s = false -> needsQuoting (skipn n s) = false.
Proof.
  revert n. induction s as [|c s IH]; intros [|n] H; simpl in *; try assumption.
  apply orb_false_iff in H as [_ H]. now apply IH.
Qed.

Lemma needsQuoting_cons (c : N) (s : jsstring) :
  needsQuoting (c :: s)
  = ((c =? DQUOTE) || (c =? COMMA) || (c =? LF)) || needsQuoting s.
Proof. reflexivity. Qed.

(** The text of a number has no comma, no double quote and no line feed. *)
Lemma numberText_plain (x : JsNumber) : needsQuoting (numberText x) = false.
Proof.
  assert (Hd : forall p, needsQuoting (natural p) = false)
    by (intros p; apply digits_plain).
  destruct x as [|neg s n|neg|]; try (vm_compute; reflexivity).
  - unfold numberText. cbv zeta. rewrite needsQuoting_app.
    replace (needsQuoting (minus neg)) with false by now destruct neg.
    destruct ((-5 <=? n)%Z && (n <=? 21)%Z);
      [destruct (_ <=? n)%Z; [|destruct (0 <? n)%Z]
      |destruct (1 <? _)%Z; destruct (n <? 0)%Z];
      rewrite ?needsQuoting_app, ?needsQuoting_cons, ?firstn_plain, ?skipn_plain,
        ?zeros_plain, ?Hd by apply Hd; reflexivity.
  - now destruct neg.
Qed.

Lemma fieldText_safeNum (v : JsValue) :
  fieldText (safeNum v) =
  Fine (match v with
        | Some (JNumber x) => if isFinite x then numberText x else []
        | _ => []
        end).
Proof.
  destruct v as [[| |x| | |]|]; try reflexivity.
  unfold safeNum. now destruct (isFinite x).
Qed.

Lemma csvEscape_safeNum (v : JsValue) :
  csvEscape (safeNum v) =
  Fine (match v with
        | Some (JNumber x) => if isFinite x then numberText x else []
        | _ => []
        end).
Proof.
  unfold csvEscape. rewrite fieldText_safeNum. simpl.
  destruct v as [[| |x| | |]|]; try reflexivity.
  destruct (isFinite x); [|reflexivity]. now rewrite numberText_plain.
Qed.

(** A value that is not truthy has the empty text as a field, unless it is
    the number zero or [false]. *)
Lemma csvEscape_empty : csvEscape (Text []) = Fine [].
Proof. reflexivity. Qed.

Lemma orValue_falsy (v d : JsValue) : truthyValue v = false -> orValue v d = d.
Proof. unfold orValue. now intros ->. Qed.

Lemma lookup_map {A B} (f : A -> B) (l : list A) (i : nat) :
  List.map f l !! i = f <$> (l !! i).
Proof.
  revert i; induction l as [|x l IH]; intros [|i]; simpl; auto.
Qed.

Lemma header_line_head : exists tl, CSV_HEADER_LINE = 115 :: tl.
Proof. exists (List.tl CSV_HEADER_LINE). vm_compute; reflexivity. Qed.

(** The header test of the specification implies the one of the code. *)
Lemma spec_header_detected (existing : jsstring) :
  spec_beginsWithHeader existing = true -> hasHeader existing = true.
Proof.
  unfold spec_beginsWithHeader, hasHeader. intros H.
  apply bool_decide_eq_true in H.
  destruct header_line_head as [htl Hh].
  destruct (firstLine_split (stripBom existing)) as [rest Hs].
  assert (Hlow : toLowerCase (stripBom existing)
                 = CSV_HEADER_LINE ++ toLowerCase rest).
  { rewrite Hs at 1. now rewrite toLowerCase_app, H. }
  assert (Hfirst : exists c tl, stripBom existing = c :: tl /\ isWhiteSpace c = false).
  { destruct (stripBom existing) as [|c tl] eqn:E.
    - simpl in H. rewrite Hh in H. discriminate.
    - exists c, tl. split; [reflexivity|].
      simpl in H. destruct (c =? LF); simpl in H; [rewrite Hh in H; discriminate|].
      assert (Hc : hd 0 (lowerUnit c) = 115).
      { destruct (lowerUnit c) as [|d ds] eqn:El; [now destruct (lowerUnit_nonempty c)|].
        rewrite Hh in H. simpl in H. now injection H. }
      destruct (lowerUnit_s c Hc) as [-> | ->]; reflexivity. }
  destruct Hfirst as (c & tl & Hc & Hws).
  assert (Htrim : trimStart existing = stripBom existing).
  { destruct existing as [|c0 r]; [reflexivity|].
    unfold stripBom in *. destruct (c0 =? BOM) eqn:E.
    - apply N.eqb_eq in E; subst c0. simpl. rewrite Hc. now apply trimStart_keeps.
    - rewrite Hc. apply trimStart_keeps. congruence. }
  rewrite Htrim, Hlow. apply startsWith_app.
Qed.

Lemma nextContent_header_present (existing : jsstring) (rows : list jsstring) :
  hasHeader existing = true ->
  nextContent existing rows = existing ++ concat rows.
Proof.
  intros H. unfold nextContent. rewrite H, join_empty_concat.
  destruct existing; [discriminate H|]. reflexivity.
Qed.

Lemma nextContent_header_missing (existing : jsstring) (rows : list jsstring) :
  hasHeader existing = false ->
  nextContent existing rows = CSV_HEADER ++ stripBom existing ++ concat rows.
Proof.
  intros H. unfold nextContent. rewrite H, join_empty_concat.
  destruct existing as [|c r]; simpl.
  - reflexivity.
  - now rewrite <- app_assoc.
Qed.

Lemma isNotFound_true (e : JsError) :
  isNotFound e = true <->
  (err_httpStatusCode e = Some 404 \/ err_name e = lit "NoSuchKey"
   \/ err_Code e = Some (lit "NoSuchKey")).
Proof.
  unfold isNotFound. rewrite !orb_true_iff, !bool_decide_eq_true. tauto.
Qed.

(** What [appendRowsToCsvInS3] does once the read has returned [existing]. *)
Lemma appendRows_after_read (P : Platform) (bucket key : jsstring)
    (rows : list jsstring) (w : World) (existing : jsstring) :
  s3_GetObject P (trace w) bucket key = Returned existing ->
  appendRowsToCsvInS3 P bucket key rows w =
  putObject P bucket key (nextContent existing rows) (lit "text/csv")
    (record (S3GetObject bucket key) w).
Proof.
  intros H. unfold appendRowsToCsvInS3, bind, tryCatch, getObject, bind, history,
    emit, lift. simpl. now rewrite H.
Qed.

Lemma appendRows_after_failed_read (P : Platform) (bucket key : jsstring)
    (rows : list jsstring) (w : World) (e : JsError) :
  s3_GetObject P (trace w) bucket key = Thrown e ->
  appendRowsToCsvInS3 P bucket key rows w =
  if isNotFound e
  then putObject P bucket key (nextContent [] rows) (lit "text/csv")
         (record (S3GetObject bucket key) w)
  else (Thrown e, record (S3GetObject bucket key) w).
Proof.
  intros H. unfold appendRowsToCsvInS3, bind, tryCatch, getObject, bind, history,
    emit, lift. simpl. rewrite H. now destruct (isNotFound e).
Qed.

Lemma putObject_eq (P : Platform) (bucket key content ctype : jsstring) (w : World) :
  putObject P bucket key content ctype w =
  (s3_PutObject P (trace w) bucket key content ctype,
   record (S3PutObject bucket key content ctype) w).
Proof. reflexivity. Qed.

(* ===================================================================== *)
(** ** The ledger writer *)
(* ===================================================================== *)

(** C1: when the read of the ledger object fails with the not-found
    condition (status code 404, or the identifier NoSuchKey as the name or
    the code of the error), the writer sends one write whose content is the
    canonical header followed by the rows in their order; when the read fails
    in any other way, that error is thrown to the caller and nothing is
    written. *)
Theorem ledger_written_to_new_object (P : Platform) (bucket key : jsstring)
    (rows : list jsstring) (w : World) (e : JsError) :
  s3_GetObject P (trace w) bucket key = Thrown e ->
  let w1 := record (S3GetObject bucket key) w in
  let content := CSV_HEADER ++ concat rows in
  ((err_httpStatusCode e = Some 404 \/ err_name e = lit "NoSuchKey"
    \/ err_Code e = Some (lit "NoSuchKey")) ->
   appendRowsToCsvInS3 P bucket key rows w =
   (s3_PutObject P (trace w1) bucket key content (lit "text/csv"),
    record (S3PutObject bucket key content (lit "text/csv")) w1))
  /\ (~ (err_httpStatusCode e = Some 404 \/ err_name e = lit "NoSuchKey"
         \/ err_Code e = Some (lit "NoSuchKey")) ->
      appendRowsToCsvInS3 P bucket key rows w = (Thrown e, w1)).
Proof.
  intros Hread w1 content. rewrite (appendRows_after_failed_read _ _ _ _ _ _ Hread).
  split; intros H.
  - apply isNotFound_true in H. rewrite H, putObject_eq.
    unfold nextContent. simpl. now rewrite join_empty_concat.
  - rewrite <- isNotFound_true in H. now destruct (isNotFound e).
Qed.

(** C2, as the code has it: the writer keeps the content as it is and adds
    the rows when the content, without its leading white space (a byte-order
    mark included) and in lower case, starts with the text of the canonical
    header line; that is the case whenever the first line is the header line
    in any letter case, with or without a leading byte-order mark.  In every
    other case the writer puts the canonical header first, then the content
    without one leading byte-order mark, then the rows. *)
Theorem ledger_written_to_existing_object (P : Platform) (bucket key : jsstring)
    (rows : list jsstring) (w : World) (existing : jsstring) :
  s3_GetObject P (trace w) bucket key = Returned existing ->
  let w1 := record (S3GetObject bucket key) w in
  let content := nextContent existing rows in
  appendRowsToCsvInS3 P bucket key rows w =
  (s3_PutObject P (trace w1) bucket key content (lit "text/csv"),
   record (S3PutObject bucket key content (lit "text/csv")) w1)
  /\ (spec_beginsWithHeader existing = true -> content = existing ++ concat rows)
  /\ (hasHeader existing = true -> content = existing ++ concat rows)
  /\ (hasHeader existing = false ->
      content = CSV_HEADER ++ stripBom existing ++ concat rows).
Proof.
  intros Hread w1 content. split; [|split; [|split]].
  - now rewrite (appendRows_after_read _ _ _ _ _ _ Hread), putObject_eq.
  - intros H. now apply nextContent_header_present, spec_header_detected.
  - apply nextContent_header_present.
  - apply nextContent_header_missing.
Qed.

(** The writer on a ledger whose first line is the header with a further
    column: the first line is not the canonical header line, and the content
    is written back with the rows added and no header put first. *)
Lemma wider_first_line_gets_no_header :
  spec_beginsWithHeader Scenario.widerLedger = false
  /\ s3Writes (trace (snd (appendRowsToCsvInS3
        (Scenario.platform [] [] [] [] (Returned Scenario.widerLedger) (Returned tt))
        (lit "auth0-deleted-users") (lit "output/deleted_users.csv")
        [lit "s2,Y,t,u,e,n,p,c,a,l,2,d" ++ [LF]] Scenario.cold)))
     = [Scenario.widerLedger ++ concat [lit "s2,Y,t,u,e,n,p,c,a,l,2,d" ++ [LF]]]
  /\ Scenario.widerLedger ++ concat [lit "s2,Y,t,u,e,n,p,c,a,l,2,d" ++ [LF]]
     <> CSV_HEADER ++ Scenario.widerLedger
        ++ concat [lit "s2,Y,t,u,e,n,p,c,a,l,2,d" ++ [LF]].
Proof.
  split; [vm_compute; reflexivity|]. split; [vm_compute; reflexivity|].
  intros H. apply (f_equal (@length N)) in H. vm_compute in H. discriminate.
Qed.

Lemma ledger_written_to_new_object_witness :
  s3_GetObject (Scenario.platform [] [] [] [] (Thrown Scenario.noSuchKey) (Returned tt))
    (trace Scenario.cold) (lit "auth0-deleted-users") (lit "output/deleted_users.csv")
  = Thrown Scenario.noSuchKey
  /\ s3Writes (trace (snd (appendRowsToCsvInS3
        (Scenario.platform [] [] [] [] (Thrown Scenario.noSuchKey) (Returned tt))
        (lit "auth0-deleted-users") (lit "output/deleted_users.csv")
        [lit "r1" ++ [LF]; lit "r2" ++ [LF]] Scenario.cold)))
     = [CSV_HEADER ++ lit "r1" ++ [LF] ++ lit "r2" ++ [LF]].
Proof.
  split; [reflexivity|].
  destruct (ledger_written_to_new_object
              (Scenario.platform [] [] [] [] (Thrown Scenario.noSuchKey) (Returned tt))
              (lit "auth0-deleted-users") (lit "output/deleted_users.csv")
              [lit "r1" ++ [LF]; lit "r2" ++ [LF]] Scenario.cold Scenario.noSuchKey
              eq_refl) as [H _].
  rewrite H; [vm_compute; reflexivity | left; reflexivity].
Defined.

Lemma ledger_written_to_existing_object_witness :
  s3_GetObject (Scenario.platform [] [] [] []
                  (Returned ([BOM] ++ lit "SSOID,Deactivation_Flag,last_update_timestamp,user_id,email,name,providers,connections,created_at,last_login,logins_count,deleted_by" ++ [LF]))
                  (Returned tt))
    (trace Scenario.cold) (lit "auth0-deleted-users") (lit "output/deleted_users.csv")
  = Returned ([BOM] ++ lit "SSOID,Deactivation_Flag,last_update_timestamp,user_id,email,name,providers,connections,created_at,last_login,logins_count,deleted_by" ++ [LF])
  /\ s3Writes (trace (snd (appendRowsToCsvInS3
        (Scenario.platform [] [] [] []
           (Returned ([BOM] ++ lit "SSOID,Deactivation_Flag,last_update_timestamp,user_id,email,name,providers,connections,created_at,last_login,logins_count,deleted_by" ++ [LF]))
           (Returned tt))
        (lit "auth0-deleted-users") (lit "output/deleted_users.csv")
        [lit "r1" ++ [LF]] Scenario.cold)))
     = [[BOM] ++ lit "SSOID,Deactivation_Flag,last_update_timestamp,user_id,email,name,providers,connections,created_at,last_login,logins_count,deleted_by" ++ [LF]
        ++ lit "r1" ++ [LF]].
Proof.
  split; [reflexivity|].
  destruct (ledger_written_to_existing_object
              (Scenario.platform [] [] [] []
                 (Returned ([BOM] ++ lit "SSOID,Deactivation_Flag,last_update_timestamp,user_id,email,name,providers,connections,created_at,last_login,logins_count,deleted_by" ++ [LF]))
                 (Returned tt))
              (lit "auth0-deleted-users") (lit "output/deleted_users.csv")
              [lit "r1" ++ [LF]] Scenario.cold _ eq_refl) as (H & Hspec & _).
  rewrite H, Hspec; vm_compute; reflexivity.
Defined.

(* ===================================================================== *)
(** ** Ledger rows *)
(* ===================================================================== *)

Lemma andThen_fine {A B} (c : Checked A) (k : A -> Checked B) (b : B) :
  andThen c k = Fine b -> exists a, c = Fine a /\ k a = Fine b.
Proof. destruct c as [a|f]; simpl; [eauto|discriminate]. Qed.

Lemma mapChecked_fine {A B} (f : A -> Checked B) (l : list A) (ys : list B) :
  mapChecked f l = Fine ys <-> List.map f l = List.map Fine ys.
Proof.
  revert ys. induction l as [|x l IH]; intros ys; simpl.
  - split; [intros [= <-]; reflexivity|]. destruct ys; [reflexivity|discriminate].
  - split.
    + intros H. apply andThen_fine in H as (y & Hy & H).
      apply andThen_fine in H as (ys' & Hys & [= <-]).
      simpl. rewrite Hy. f_equal. now apply IH.
    + destruct ys as [|y ys]; [discriminate|]. simpl. intros [= Hy Hys].
      rewrite Hy. simpl. apply IH in Hys. now rewrite Hys.
Qed.

(** The parts of which [rowFields] makes the fields of a row. *)
Lemma rowFields_inv (now ssoid : jsstring) (user : Json) (deletedBy : jsstring)
    (fields : list JsValue) :
  rowFields now ssoid user deletedBy = Fine fields ->
  exists providers connections user_id email name nickname username created_at
         last_login logins_count,
    joinIdentities (lit "provider") user = Fine providers
    /\ joinIdentities (lit "connection") user = Fine connections
    /\ get user (lit "user_id") = Fine user_id
    /\ get user (lit "email") = Fine email
    /\ get user (lit "name") = Fine name
    /\ get user (lit "nickname") = Fine nickname
    /\ get user (lit "username") = Fine username
    /\ get user (lit "created_at") = Fine created_at
    /\ get user (lit "last_login") = Fine last_login
    /\ get user (lit "logins_count") = Fine logins_count
    /\ fields =
       [ Text ssoid; Text (lit "Y"); Text now;
         orValue user_id (Text []);
         orValue email (Text []);
         orValue name (orValue nickname (orValue username (Text [])));
         Text providers; Text connections;
         orValue created_at (Text []);
         orValue last_login (Text []);
         safeNum logins_count;
         Text deletedBy ].
Proof.
  unfold rowFields. intros H.
  repeat (apply andThen_fine in H as (? & ? & H)).
  injection H as <-. repeat eexists; eassumption.
Qed.

Lemma joinIdentities_unset (k : jsstring) (user : Json) (v : JsValue) :
  get user (lit "identities") = Fine v -> truthyValue v = false ->
  joinIdentities k user = Fine [].
Proof.
  intros Hget Hv. unfold joinIdentities. rewrite Hget. simpl.
  now rewrite (orValue_falsy _ _ Hv).
Qed.

Lemma get_functional (user : Json) (k : jsstring) (a b : JsValue) :
  get user k = Fine a -> get user k = Fine b -> a = b.
Proof. congruence. Qed.

(** C7, as the code has it: a built row is its twelve fields, each rendered
    with [csvEscape], with commas between them and a line feed after.  A
    field whose source attribute is absent (or is falsy otherwise) is empty;
    the login count is printed, the way the language prints numbers, when it
    is a finite number and is empty otherwise; a field whose text has a
    comma, a double quote or a line feed in it is put between double quotes
    with each of its double quotes written twice, and any other field is
    written as it is, a carriage return included. *)
Theorem ledger_row_rendering (now ssoid : jsstring) (user : Json)
    (deletedBy : jsstring) (fields : list JsValue) :
  rowFields now ssoid user deletedBy = Fine fields ->
  let rendered := List.map csvEscape fields in
  let quoted (t : jsstring) :=
    [DQUOTE]
    ++ flat_map (fun c => if c =? DQUOTE then [DQUOTE; DQUOTE] else [c]) t
    ++ [DQUOTE] in
  let special (c : N) := c = DQUOTE \/ c = COMMA \/ c = LF in
  let unset (k : jsstring) :=
    exists v, get user k = Fine v /\ truthyValue v = false in
  length fields = 12%nat
  /\ (forall texts, rendered = List.map Fine texts ->
      csvRow now ssoid user deletedBy = Fine (join [COMMA] texts ++ [LF]))
  /\ (unset (lit "user_id") -> rendered !! 3%nat = Some (Fine []))
  /\ (unset (lit "email") -> rendered !! 4%nat = Some (Fine []))
  /\ (unset (lit "name") -> unset (lit "nickname") -> unset (lit "username") ->
      rendered !! 5%nat = Some (Fine []))
  /\ (unset (lit "identities") ->
      rendered !! 6%nat = Some (Fine []) /\ rendered !! 7%nat = Some (Fine []))
  /\ (unset (lit "created_at") -> rendered !! 8%nat = Some (Fine []))
  /\ (unset (lit "last_login") -> rendered !! 9%nat = Some (Fine []))
  /\ (forall x, get user (lit "logins_count") = Fine (Some (JNumber x)) ->
      isFinite x = true -> rendered !! 10%nat = Some (Fine (numberText x)))
  /\ ((forall x, get user (lit "logins_count") = Fine (Some (JNumber x)) ->
       isFinite x = false) ->
      rendered !! 10%nat = Some (Fine []))
  /\ (forall i t, fields !! i = Some (Text t) -> fieldText (Text t) = Fine t)
  /\ (forall i v t, fields !! i = Some v -> fieldText v = Fine t ->
      ((exists c, In c t /\ special c) -> rendered !! i = Some (Fine (quoted t)))
      /\ (~ (exists c, In c t /\ special c) -> rendered !! i = Some (Fine t))).
Proof.
  intros Hfields rendered quoted special unset.
  pose proof (rowFields_inv _ _ _ _ _ Hfields)
    as (providers & connections & uid & em & nm & nk & un & ca & ll & lc
        & Hp & Hc & Huid & Hem & Hnm & Hnk & Hun & Hca & Hll & Hlc & ->).
  assert (Hunset : forall k v, get user k = Fine v -> unset k -> truthyValue v = false).
  { intros k v Hv (v' & Hv' & Hf). now rewrite (get_functional _ _ _ _ Hv Hv'). }
  split; [reflexivity|].
  split.
  { intros texts Ht. unfold csvRow. rewrite Hfields. cbn [andThen].
    apply mapChecked_fine in Ht. now rewrite Ht. }
  split; [intros H; subst rendered; simpl;
          now rewrite (orValue_falsy _ _ (Hunset _ _ Huid H))|].
  split; [intros H; subst rendered; simpl;
          now rewrite (orValue_falsy _ _ (Hunset _ _ Hem H))|].
  split.
  { intros H1 H2 H3. subst rendered. simpl.
    now rewrite (orValue_falsy _ _ (Hunset _ _ Hnm H1)),
      (orValue_falsy _ _ (Hunset _ _ Hnk H2)),
      (orValue_falsy _ _ (Hunset _ _ Hun H3)). }
  split.
  { intros (v & Hv & Hf).
    rewrite (joinIdentities_unset (lit "provider") _ _ Hv Hf) in Hp.
    rewrite (joinIdentities_unset (lit "connection") _ _ Hv Hf) in Hc.
    injection Hp as <-. injection Hc as <-. split; reflexivity. }
  split; [intros H; subst rendered; simpl;
          now rewrite (orValue_falsy _ _ (Hunset _ _ Hca H))|].
  split; [intros H; subst rendered; simpl;
          now rewrite (orValue_falsy _ _ (Hunset _ _ Hll H))|].
  split.
  { intros x Hx Hfin. subst rendered. simpl. rewrite csvEscape_safeNum.
    rewrite Hx in Hlc. injection Hlc as <-. now rewrite Hfin. }
  split.
  { intros H. subst rendered. simpl. rewrite csvEscape_safeNum.
    destruct lc as [[| |x| | |]|]; try reflexivity.
    now rewrite (H x Hlc). }
  split; [reflexivity|].
  intros i v t Hv Ht. subst rendered. rewrite lookup_map, Hv. simpl.
  unfold csvEscape. rewrite Ht. simpl. split; intros H.
  - apply needsQuoting_true in H. now rewrite H.
  - apply needsQuoting_false in H. now rewrite H.
Qed.

(** A name with a carriage return in it: the text is written as it is, in
    the field and in the row, with no double quotes around it. *)
Lemma carriage_return_is_not_quoted :
  In 13 [65; 13; 66]
  /\ csvEscape (Text [65; 13; 66]) = Fine [65; 13; 66]
  /\ csvRow (lit "2024-05-01T12:00:00.000Z") (lit "abc123")
       (JObject [ (lit "user_id", JString (lit "auth0|d4"));
                  (lit "name", JString [65; 13; 66]) ])
       (lit "local")
     = Fine (lit "abc123,Y,2024-05-01T12:00:00.000Z,auth0|d4,,A" ++ [13]
             ++ lit "B,,,,,,local" ++ [LF]).
Proof.
  split; [right; left; reflexivity|].
  split; vm_compute; reflexivity.
Qed.

Lemma ledger_row_rendering_witness :
  csvRow (lit "2024-05-01T12:00:00.000Z") (lit "abc123") Scenario.alice
    (lit "local")
  = Fine (lit "abc123,Y,2024-05-01T12:00:00.000Z,auth0|a1,alice@example.com,"
          ++ [DQUOTE] ++ lit "Alice, A." ++ [DQUOTE]
          ++ lit ",auth0;google-oauth2,Username-Password-Authentication;,2023-01-05T08:00:00.000Z,,7,local"
          ++ [LF]).
Proof.
  pose (fields := match rowFields (lit "2024-05-01T12:00:00.000Z") (lit "abc123")
                          Scenario.alice (lit "local") with
                  | Fine l => l
                  | Faulty _ => []
                  end).
  assert (H : rowFields (lit "2024-05-01T12:00:00.000Z") (lit "abc123")
                Scenario.alice (lit "local") = Fine fields)
    by (vm_compute; reflexivity).
  destruct (ledger_row_rendering _ _ _ _ fields H) as (_ & Hrow & _).
  rewrite (Hrow (match mapChecked csvEscape fields with
                 | Fine l => l
                 | Faulty _ => []
                 end)); vm_compute; reflexivity.
Defined.

(* ===================================================================== *)
(** ** Running the monad *)
(* ===================================================================== *)

Ltac run :=
  unfold bind, ret, throw, tryCatch, lift, emit, console, history, getenv,
    callFetch in *; simpl in *.

Lemma fetchCalls_app (t u : list Event) :
  fetchCalls (t ++ u) = fetchCalls t ++ fetchCalls u.
Proof. unfold fetchCalls. apply omap_app. Qed.

Lemma s3Writes_app (t u : list Event) :
  s3Writes (t ++ u) = s3Writes t ++ s3Writes u.
Proof. unfold s3Writes. apply omap_app. Qed.

(* ===================================================================== *)
(** ** The account search *)
(* ===================================================================== *)

(** C5: [searchUsersByQuery] returns in every world, whatever the domain,
    the credential and the query are.  It returns the empty sequence when
    the URL is refused, when the request fails in transport, when the answer
    has a status outside the successful ones or a body that cannot be read,
    when the body is not JSON or not an array, and when the array is empty;
    it returns the elements of the array in the remaining case. *)
Theorem searchUsersByQuery_never_throws (P : Platform) (domain tok q : jsstring)
    (w : World) :
  let address := lit "https://" ++ stripProtocol domain ++ lit "/api/v2/users" in
  exists users w',
    searchUsersByQuery P domain tok q w = (Returned users, w')
    /\ (forall e, URL_new P address = Thrown e -> users = [])
    /\ (forall url, URL_new P address = Returned url ->
        let req := searchRequest url tok q in
        (forall e, fetch P (trace w) req = Thrown e -> users = [])
        /\ (forall res, fetch P (trace w) req = Returned res ->
            (res_ok res = false -> users = [])
            /\ (forall e, res_text res = Thrown e -> users = [])
            /\ (forall text, res_text res = Returned text ->
                (forall e, JSON_parse_users P text = Thrown e -> users = [])
                /\ (forall j, JSON_parse_users P text = Returned j ->
                    (forall items, j <> JArray items) -> users = [])
                /\ (JSON_parse_users P text = Returned (JArray []) -> users = [])
                /\ (forall found,
                    res_ok res = true ->
                    JSON_parse_users P text = Returned (JArray found) ->
                    users = found)))).
Proof.
  intros address. subst address. unfold searchUsersByQuery. run.
  destruct (URL_new P _) as [url|e0] eqn:Hurl; simpl.
  2:{ eexists _, _. split; [reflexivity|]. split; [reflexivity|].
      intros; discriminate. }
  destruct (fetch P (trace w) _) as [res|e] eqn:Hfetch; simpl.
  2:{ eexists _, _. split; [reflexivity|]. split; [intros; discriminate|].
      intros url' [= <-]. split; [reflexivity|]. intros; congruence. }
  destruct (res_text res) as [text|e] eqn:Htext; simpl.
  2:{ eexists _, _. split; [reflexivity|]. split; [intros; discriminate|].
      intros url' [= <-]. split; [intros; congruence|].
      intros res' Hres. rewrite Hfetch in Hres. injection Hres as <-.
      split; [reflexivity|]. split; [reflexivity|]. intros; congruence. }
  destruct (res_ok res) eqn:Hok; simpl.
  2:{ eexists _, _. split; [reflexivity|]. split; [intros; discriminate|].
      intros url' [= <-]. split; [intros; congruence|].
      intros res' Hres. rewrite Hfetch in Hres. injection Hres as <-.
      split; [reflexivity|]. split; [reflexivity|].
      intros text' _. repeat split; try reflexivity. intros; congruence. }
  destruct (JSON_parse_users P text) as [j|e] eqn:Hparse; simpl.
  2:{ eexists _, _. split; [reflexivity|]. split; [intros; discriminate|].
      intros url' [= <-]. split; [intros; congruence|].
      intros res' Hres. rewrite Hfetch in Hres. injection Hres as <-.
      split; [intros; congruence|]. split; [intros; congruence|].
      intros text' Ht. rewrite Htext in Ht. injection Ht as <-.
      repeat split; intros; congruence. }
  assert (Hshape : (exists u us, j = JArray (u :: us))
                   \/ (forall u us, j <> JArray (u :: us))).
  { destruct j as [| | | |[|u us]|]; try (right; discriminate).
    left. eauto. }
  destruct Hshape as [(u & us & ->)|Hshape].
  - eexists _, _. split; [reflexivity|]. split; [intros; discriminate|].
    intros url' [= <-]. split; [intros; congruence|].
    intros res' Hres. rewrite Hfetch in Hres. injection Hres as <-.
    split; [intros; congruence|]. split; [intros; congruence|].
    intros text' Ht. rewrite Htext in Ht. injection Ht as <-.
    split; [intros; congruence|]. split.
    { intros j Hj Hno. rewrite Hparse in Hj. injection Hj as <-.
      now destruct (Hno (u :: us)). }
    split; [intros; congruence|].
    intros found _ Hf. rewrite Hparse in Hf. now injection Hf.
  - exists [], (record (Console LOG [LStr (lit "Cannot find user with query: " ++ q)])
                 (record (FetchCall (searchRequest url tok q)) w)).
    split.
    { destruct j as [| | | |[|u us]|]; try reflexivity.
      now destruct (Hshape u us). }
    split; [intros; discriminate|].
    intros url' [= <-]. split; [intros; congruence|].
    intros res' Hres. rewrite Hfetch in Hres. injection Hres as <-.
    split; [intros; congruence|]. split; [intros; congruence|].
    intros text' Ht. rewrite Htext in Ht. injection Ht as <-.
    repeat split; try reflexivity.
    intros found _ Hf. rewrite Hparse in Hf. injection Hf as ->.
    destruct found as [|u us]; [reflexivity|]. now destruct (Hshape u us).
Qed.

(** [searchUsersByQuery] returns, and sends its one request unless the URL
    is refused. *)
Lemma searchUsersByQuery_calls (P : Platform) (domain tok q : jsstring) (w : World) :
  exists users w',
    searchUsersByQuery P domain tok q w = (Returned users, w')
    /\ env w' = env w /\ paramsLoaded w' = paramsLoaded w
    /\ fetchCalls (trace w') = fetchCalls (trace w) ++ searchSent P domain tok q
    /\ s3Writes (trace w') = s3Writes (trace w).
Proof.
  unfold searchUsersByQuery, searchSent. run.
  destruct (URL_new P _) as [url|e0] eqn:Hurl; simpl.
  2:{ eexists _, _. split; [reflexivity|]. simpl.
      now rewrite fetchCalls_app, s3Writes_app, !app_nil_r. }
  destruct (fetch P (trace w) _) as [res|e]; simpl.
  2:{ eexists _, _. split; [reflexivity|]. simpl.
      now rewrite !fetchCalls_app, !s3Writes_app, !app_nil_r. }
  destruct (res_text res) as [text|e]; simpl.
  2:{ eexists _, _. split; [reflexivity|]. simpl.
      now rewrite !fetchCalls_app, !s3Writes_app, !app_nil_r. }
  destruct (res_ok res); simpl.
  2:{ eexists _, _. split; [reflexivity|]. simpl.
      now rewrite !fetchCalls_app, !s3Writes_app, !app_nil_r. }
  destruct (JSON_parse_users P text) as [[| | | |[|u us]|]|e]; simpl;
    (eexists _, _; split; [reflexivity|]; simpl;
     now rewrite ?fetchCalls_app, ?s3Writes_app, ?app_nil_r).
Qed.

(* ===================================================================== *)
(** ** The steps of the handler *)
(* ===================================================================== *)

Arguments deleteUser : simpl never.
Arguments searchUsersByQuery : simpl never.
Arguments appendRowsToCsvInS3 : simpl never.
Arguments loadParamsIntoEnv : simpl never.
Arguments getMgmtToken : simpl never.
Arguments writeLedger : simpl never.
Arguments response : simpl never.

Section Steps.

Variable P : Platform.
Variable s : Settings.

Lemma engine_fine {A} (a : A) (w : World) : engine P (Fine a) w = (Returned a, w).
Proof. reflexivity. Qed.

Lemma engine_faulty {A} (f : Fault) (w : World) :
  engine P (@Faulty A f) w = (Thrown (TypeError (TypeError_message P f)), w).
Proof. reflexivity. Qed.

(** An id that has no text: [deleteUser] throws before it sends anything. *)
Lemma deleteUser_unprintable (domain tok : jsstring) (userId : JsValue) (f : Fault)
    (w : World) :
  show userId = Faulty f ->
  deleteUser P domain tok userId w = (Thrown (TypeError (TypeError_message P f)), w).
Proof. intros H. unfold deleteUser, bind. now rewrite H. Qed.

Lemma deleteAndLog_eq (userId : JsValue) (label : jsstring) (w : World) :
  show userId = Fine label ->
  deleteAndLog P s userId w =
  match deleteUser P (AUTH0_DOMAIN s) (token s) userId w with
  | (Returned _, w1) =>
      (Returned tt, record (Console LOG [LStr (lit "Deleted Auth0 user_id=" ++ label)]) w1)
  | (Thrown err, w1) => (Thrown err, w1)
  end.
Proof.
  intros H. unfold deleteAndLog, bind.
  destruct (deleteUser P _ _ userId w) as [[[]|err] w1]; [|reflexivity].
  now rewrite H.
Qed.

Lemma recordFailure_eq (userId : JsValue) (label : jsstring)
    (results : list ResultEntry) (csvRows : list jsstring) (err : JsError)
    (w : World) :
  show userId = Fine label ->
  recordFailure P userId results csvRows err w =
  (Returned (results ++ [failed userId err], csvRows),
   record (Console ERROR [LStr (lit "Failed to delete user_id=" ++ label ++ lit ":");
                          logArg err]) w).
Proof. intros H. unfold recordFailure, bind. now rewrite H. Qed.

(** An element that is [null] ends the loop: the read of its id throws
    outside the [try] block. *)
Lemma deleteEach_null (deletedBy : jsstring) (u : Json) (rest : list Json)
    (results : list ResultEntry) (csvRows : list jsstring) (w : World) (f : Fault) :
  get u (lit "user_id") = Faulty f ->
  deleteEach P s deletedBy (u :: rest) results csvRows w
  = (Thrown (TypeError (TypeError_message P f)), w).
Proof. intros H. cbn [deleteEach]. unfold bind at 1. now rewrite H. Qed.

(** An id that has no text ends the loop too: [deleteUser] throws, and the
    [catch] block throws when it prints the id. *)
Lemma deleteEach_unprintable (deletedBy : jsstring) (u : Json) (rest : list Json)
    (results : list ResultEntry) (csvRows : list jsstring) (w : World)
    (userId : JsValue) (f : Fault) :
  get u (lit "user_id") = Fine userId -> show userId = Faulty f ->
  deleteEach P s deletedBy (u :: rest) results csvRows w
  = (Thrown (TypeError (TypeError_message P f)), w).
Proof.
  intros Hget Hshow. cbn [deleteEach]. unfold bind at 1. rewrite Hget.
  rewrite engine_fine. unfold bind at 1.
  unfold deleteAndLog. unfold bind at 1.
  rewrite (deleteUser_unprintable _ _ _ _ _ Hshow).
  unfold recordFailure, bind. now rewrite Hshow.
Qed.

(** One iteration of the loop whose deletion fails. *)
Lemma deleteEach_failed (deletedBy : jsstring) (u : Json) (rest : list Json)
    (results : list ResultEntry) (csvRows : list jsstring) (w w1 : World)
    (userId : JsValue) (label : jsstring) (err : JsError) :
  get u (lit "user_id") = Fine userId -> show userId = Fine label ->
  deleteUser P (AUTH0_DOMAIN s) (token s) userId w = (Thrown err, w1) ->
  deleteEach P s deletedBy (u :: rest) results csvRows w =
  deleteEach P s deletedBy rest (results ++ [failed userId err]) csvRows
    (record (Console ERROR
               [LStr (lit "Failed to delete user_id=" ++ label ++ lit ":");
                logArg err]) w1).
Proof.
  intros Hget Hshow H. cbn [deleteEach]. unfold bind at 1. rewrite Hget.
  rewrite engine_fine. unfold bind at 1.
  rewrite (deleteAndLog_eq _ _ _ Hshow), H.
  now rewrite (recordFailure_eq _ _ _ _ _ _ Hshow).
Qed.

(** One iteration whose deletion succeeds and whose row is built. *)
Lemma deleteEach_deleted (deletedBy : jsstring) (u : Json) (rest : list Json)
    (results : list ResultEntry) (csvRows : list jsstring) (w w1 : World)
    (userId : JsValue) (label row : jsstring) :
  get u (lit "user_id") = Fine userId -> show userId = Fine label ->
  deleteUser P (AUTH0_DOMAIN s) (token s) userId w = (Returned tt, w1) ->
  let w2 := record (Console LOG [LStr (lit "Deleted Auth0 user_id=" ++ label)]) w1 in
  csvRow (Date_toISOString P (trace w2)) (SSOID s) u deletedBy = Fine row ->
  deleteEach P s deletedBy (u :: rest) results csvRows w =
  deleteEach P s deletedBy rest (results ++ [succeeded userId]) (csvRows ++ [row]) w2.
Proof.
  intros Hget Hshow H w2 Hrow. cbn [deleteEach]. unfold bind at 1. rewrite Hget.
  rewrite engine_fine. unfold bind at 1.
  rewrite (deleteAndLog_eq _ _ _ Hshow), H. fold w2.
  unfold tryCatch, buildCsvRow, bind, history. cbv beta iota. now rewrite Hrow.
Qed.

(** One iteration whose deletion succeeds and whose row cannot be built: the
    success entry is in [results] already, and the failure entry follows. *)
Lemma deleteEach_unrecorded (deletedBy : jsstring) (u : Json) (rest : list Json)
    (results : list ResultEntry) (csvRows : list jsstring) (w w1 : World)
    (userId : JsValue) (label : jsstring) (f : Fault) :
  get u (lit "user_id") = Fine userId -> show userId = Fine label ->
  deleteUser P (AUTH0_DOMAIN s) (token s) userId w = (Returned tt, w1) ->
  let w2 := record (Console LOG [LStr (lit "Deleted Auth0 user_id=" ++ label)]) w1 in
  let err := TypeError (TypeError_message P f) in
  csvRow (Date_toISOString P (trace w2)) (SSOID s) u deletedBy = Faulty f ->
  deleteEach P s deletedBy (u :: rest) results csvRows w =
  deleteEach P s deletedBy rest
    ((results ++ [succeeded userId]) ++ [failed userId err]) csvRows
    (record (Console ERROR
               [LStr (lit "Failed to delete user_id=" ++ label ++ lit ":");
                logArg err]) w2).
Proof.
  intros Hget Hshow H w2 err Hrow. cbn [deleteEach]. unfold bind at 1. rewrite Hget.
  rewrite engine_fine. unfold bind at 1.
  rewrite (deleteAndLog_eq _ _ _ Hshow), H. fold w2.
  unfold tryCatch, buildCsvRow, bind, history. cbv beta iota. rewrite Hrow.
  rewrite engine_faulty. cbv beta iota.
  now rewrite (recordFailure_eq _ _ _ _ _ _ Hshow).
Qed.

Lemma deletedCount_app (a b : list ResultEntry) :
  deletedCount (a ++ b) = (deletedCount a + deletedCount b)%nat.
Proof. unfold deletedCount. now rewrite List.filter_app, length_app. Qed.

Lemma failedCount_app (a b : list ResultEntry) :
  failedCount (a ++ b) = (failedCount a + failedCount b)%nat.
Proof. unfold failedCount. now rewrite List.filter_app, length_app. Qed.

Lemma processable_fine (u : Json) (userId : JsValue) (label : jsstring) :
  get u (lit "user_id") = Fine userId -> show userId = Fine label ->
  processable u = true.
Proof. intros Hg Hs. unfold processable. rewrite Hg. simpl. now rewrite Hs. Qed.

Lemma grows_step (u : Json) (rest : list Json) (userId : JsValue) (label : jsstring)
    (results results' : list ResultEntry) (csvRows csvRows' : list jsstring)
    (entries : list ResultEntry) (rows : list jsstring) :
  get u (lit "user_id") = Fine userId -> show userId = Fine label ->
  forallb wellFormed entries = true ->
  (length rows + failedCount entries = 1)%nat ->
  (length rows <= deletedCount entries)%nat ->
  (forall r, In r entries -> entry_user_id r = userId) ->
  grows rest (results ++ entries) results' (csvRows ++ rows) csvRows' ->
  grows (u :: rest) results results' csvRows csvRows'.
Proof.
  intros Hg Hs Hwf Hone Hle Hid (new & newRows & -> & -> & Hw & Hlen & Hd & Hp & Hin).
  exists (entries ++ new), (rows ++ newRows).
  rewrite <- !app_assoc. split; [reflexivity|]. split; [reflexivity|].
  split; [now rewrite forallb_app, Hwf, Hw|].
  rewrite !length_app, failedCount_app, deletedCount_app.
  split; [simpl; lia|]. split; [lia|].
  split; [simpl; now rewrite (processable_fine _ _ _ Hg Hs)|].
  intros r Hr. apply in_app_or in Hr as [Hr|Hr].
  - exists u. split; [now left|]. now rewrite (Hid r Hr).
  - destruct (Hin r Hr) as (u' & Hu' & Hget). exists u'. split; [now right|exact Hget].
Qed.

(** The outcome of the loop.  When it returns, each account has added one
    entry and one row, or one failure entry, or a success entry followed by
    a failure entry; when it throws, an element is [null] or has an id
    without text. *)
Lemma deleteEach_outcome (deletedBy : jsstring) (users : list Json) :
  forall (results : list ResultEntry) (csvRows : list jsstring) (w : World),
  match deleteEach P s deletedBy users results csvRows w with
  | (Returned (results', csvRows'), _) => grows users results results' csvRows csvRows'
  | (Thrown err, _) =>
      exists u f, In u users
        /\ andThen (get u (lit "user_id")) show = Faulty f
        /\ err = TypeError (TypeError_message P f)
  end.
Proof.
  induction users as [|u rest IH]; intros results csvRows w.
  - simpl. exists [], []. rewrite !app_nil_r. repeat split; auto.
    intros r [].
  - destruct (get u (lit "user_id")) as [userId|f] eqn:Hget.
    2:{ rewrite (deleteEach_null _ _ _ _ _ _ _ Hget).
        exists u, f. split; [now left|]. now rewrite Hget. }
    destruct (show userId) as [label|f] eqn:Hshow.
    2:{ rewrite (deleteEach_unprintable _ _ _ _ _ _ _ _ Hget Hshow).
        exists u, f. split; [now left|]. rewrite Hget. simpl. now rewrite Hshow. }
    assert (Hnext : forall entries rows w',
              forallb wellFormed entries = true ->
              (length rows + failedCount entries = 1)%nat ->
              (length rows <= deletedCount entries)%nat ->
              (forall r, In r entries -> entry_user_id r = userId) ->
              match deleteEach P s deletedBy rest (results ++ entries)
                      (csvRows ++ rows) w' with
              | (Returned (results', csvRows'), _) =>
                  grows (u :: rest) results results' csvRows csvRows'
              | (Thrown err, _) =>
                  exists u0 f, In u0 (u :: rest)
                    /\ andThen (get u0 (lit "user_id")) show = Faulty f
                    /\ err = TypeError (TypeError_message P f)
              end).
    { intros entries rows w' Hwf Hone Hle Hid.
      specialize (IH (results ++ entries) (csvRows ++ rows) w').
      destruct (deleteEach P s deletedBy rest _ _ w') as [[[r' c']|err] w''].
      - now apply (grows_step u rest userId label _ _ _ _ entries rows).
      - destruct IH as (u0 & f & Hin & Hf & ->). exists u0, f.
        split; [now right|]. now split. }
    destruct (deleteUser P (AUTH0_DOMAIN s) (token s) userId w)
      as [[[]|err] w1] eqn:Hdel.
    + destruct (csvRow (Date_toISOString P
                  (trace (record (Console LOG
                     [LStr (lit "Deleted Auth0 user_id=" ++ label)]) w1)))
                  (SSOID s) u deletedBy) as [row|f] eqn:Hrow.
      * rewrite (deleteEach_deleted _ _ _ _ _ _ _ _ _ _ Hget Hshow Hdel Hrow).
        apply (Hnext [succeeded userId] [row]);
          [reflexivity|reflexivity|unfold deletedCount; simpl; lia|].
        intros r [<-|[]]. reflexivity.
      * rewrite (deleteEach_unrecorded _ _ _ _ _ _ _ _ _ _ Hget Hshow Hdel Hrow).
        rewrite <- app_assoc.
        match goal with
        | |- context [deleteEach P s deletedBy rest _ _ ?w'] =>
            pose proof (Hnext [succeeded userId;
                               failed userId (TypeError (TypeError_message P f))]
                          [] w') as Hn
        end.
        rewrite app_nil_r in Hn. apply Hn;
          [reflexivity|reflexivity|unfold deletedCount; simpl; lia|].
        intros r [<-|[<-|[]]]; reflexivity.
    + rewrite (deleteEach_failed _ _ _ _ _ _ _ _ _ _ Hget Hshow Hdel).
      match goal with
      | |- context [deleteEach P s deletedBy rest _ _ ?w'] =>
          pose proof (Hnext [failed userId err] [] w') as Hn
      end.
      rewrite app_nil_r in Hn. apply Hn;
        [reflexivity|reflexivity|unfold deletedCount; simpl; lia|].
      intros r [<-|[]]. reflexivity.
Qed.

Lemma deleteMatched_eq (context : LambdaContext) (users : list Json) (w : World) :
  deleteMatched P s context users w =
  deleteEach P s (actor context (env w)) users [] [] w.
Proof. reflexivity. Qed.

(** The write of the ledger never throws. *)
Lemma writeLedger_returns (csvRows : list jsstring) (w : World) :
  exists w', writeLedger P s csvRows w = (Returned tt, w').
Proof.
  unfold writeLedger.
  destruct ((0 <? length csvRows)%nat && present (S3_BUCKET s)).
  - unfold tryCatch.
    destruct (appendRowsToCsvInS3 P _ _ _ w) as [[[]|e] w1]; eexists; reflexivity.
  - destruct (negb (present (S3_BUCKET s))); eexists; reflexivity.
Qed.




Lemma proceed_eq (context : LambdaContext) (users : list Json)
    (w w1 : World) (results : list ResultEntry) (csvRows : list jsstring) :
  deleteMatched P s context users w = (Returned (results, csvRows), w1) ->
  proceed P s context users w =
  (Returned (response 200 (completeBody (SSOID s) results)),
   snd (writeLedger P s csvRows w1)).
Proof.
  intros H. unfold proceed, bind. rewrite H. simpl.
  destruct (writeLedger_returns csvRows w1) as [w2 ->]. reflexivity.
Qed.

Lemma proceed_thrown (context : LambdaContext) (users : list Json)
    (w w1 : World) (err : JsError) :
  deleteMatched P s context users w = (Thrown err, w1) ->
  proceed P s context users w = (Thrown err, w1).
Proof. intros H. unfold proceed, bind. now rewrite H. Qed.

Lemma process_eq (context : LambdaContext) (w w1 : World) (users : list Json) :
  findUsers P s w = (Returned users, w1) ->
  process P s context w =
  match users with
  | [] => (Returned (response 200 (notFoundBody (SSOID s))),
           record (Console LOG [LStr (lit "Cannot find user" ++ lit " for SSOID=" ++ SSOID s)]) w1)
  | _ :: _ => proceed P s context users w1
  end.
Proof.
  intros H. unfold process, bind. rewrite H. now destruct users.
Qed.

(** The two searches return. *)
Lemma findUsers_returns (w : World) :
  exists users w', findUsers P s w = (Returned users, w').
Proof.
  destruct (searchUsersByQuery_calls P (AUTH0_DOMAIN s) (token s)
              (identityQuery (SSOID s)) w) as (us1 & w1 & H1 & _).
  unfold findUsers, bind. rewrite H1. destruct us1.
  - destruct (searchUsersByQuery_calls P (AUTH0_DOMAIN s) (token s)
                (metadataQuery (SSOID s)) w1) as (us2 & w2 & H2 & _).
    eauto.
  - eexists _, _. reflexivity.
Qed.

(** Steps 5 to 8: what they return, and when they throw. *)
Lemma process_outcome (context : LambdaContext) (w : World) :
  exists users w2,
    findUsers P s w = (Returned users, w2)
    /\ process P s context w =
       match users with
       | [] =>
           (Returned (response 200 (notFoundBody (SSOID s))),
            record (Console LOG
                      [LStr (lit "Cannot find user" ++ lit " for SSOID=" ++ SSOID s)]) w2)
       | _ :: _ =>
           match deleteMatched P s context users w2 with
           | (Returned (results, csvRows), w3) =>
               (Returned (response 200 (completeBody (SSOID s) results)),
                snd (writeLedger P s csvRows w3))
           | (Thrown err, w3) => (Thrown err, w3)
           end
       end.
Proof.
  destruct (findUsers_returns w) as (users & w2 & Hfind).
  exists users, w2. split; [exact Hfind|].
  rewrite (process_eq _ _ _ _ Hfind). destruct users as [|u us]; [reflexivity|].
  destruct (deleteMatched P s context (u :: us) w2) as [[[results rows]|err] w3] eqn:Hdel.
  - now apply proceed_eq.
  - now apply proceed_thrown.
Qed.

End Steps.

Lemma attempt_resolved (P : Platform) (event : LambdaEvent) (context : LambdaContext)
    (w0 w : World) (s : Settings) :
  resolve P event w0 = (Returned s, w) ->
  attempt P event context w0 = process P s context w.
Proof. intros H. unfold attempt, bind. now rewrite H. Qed.

Lemma attempt_loaded (P : Platform) (event : LambdaEvent) (context : LambdaContext)
    (w w1 : World) :
  loadParamsIntoEnv P w = (Returned tt, w1) ->
  attempt P event context w =
  bind (configure P event) (fun s => process P s context) w1.
Proof. intros H. unfold attempt, resolve, bind. now rewrite H. Qed.

Lemma attempt_unresolved (P : Platform) (event : LambdaEvent) (context : LambdaContext)
    (w0 w : World) (err : JsError) :
  resolve P event w0 = (Thrown err, w) ->
  attempt P event context w0 = (Thrown err, w).
Proof. intros H. unfold attempt, bind. now rewrite H. Qed.
(* ===================================================================== *)
(** ** What each step may touch *)
(* ===================================================================== *)

Section Confinement.

Variable ok : EventKind -> bool.
Variable okKey : jsstring -> bool.
Variable okLatch : bool.

Lemma within_refl (w : World) : within ok okKey okLatch w w.
Proof.
  repeat split; auto. exists []. now rewrite app_nil_r.
Qed.

Lemma within_trans (w1 w2 w3 : World) :
  within ok okKey okLatch w1 w2 -> within ok okKey okLatch w2 w3 ->
  within ok okKey okLatch w1 w3.
Proof.
  intros ((d1 & Ht1 & Hok1) & Hk1 & Hl1) ((d2 & Ht2 & Hok2) & Hk2 & Hl2).
  repeat split.
  - exists (d1 ++ d2). split.
    + now rewrite Ht2, Ht1, app_assoc.
    + rewrite forallb_app. now rewrite Hok1, Hok2.
  - intros k Hk. now rewrite (Hk2 k Hk), (Hk1 k Hk).
  - intros Hl. now rewrite (Hl2 Hl), (Hl1 Hl).
Qed.

Lemma confined_ret {A} (a : A) : confined ok okKey okLatch (ret a).
Proof. intros w. apply within_refl. Qed.

Lemma confined_throw {A} (e : JsError) : confined ok okKey okLatch (@throw A e).
Proof. intros w. apply within_refl. Qed.

Lemma confined_lift {A} (o : Outcome A) : confined ok okKey okLatch (lift o).
Proof. intros w. apply within_refl. Qed.

Lemma confined_history : confined ok okKey okLatch history.
Proof. intros w. apply within_refl. Qed.

Lemma confined_getenv (k : jsstring) : confined ok okKey okLatch (getenv k).
Proof. intros w. apply within_refl. Qed.

Lemma confined_emit (e : Event) :
  ok (kindOf e) = true -> confined ok okKey okLatch (emit e).
Proof.
  intros H w. repeat split; auto. exists [e]. split; [reflexivity|].
  simpl. now rewrite H.
Qed.

Lemma confined_setenv (k v : jsstring) :
  okKey k = true -> confined ok okKey okLatch (setenv k v).
Proof.
  intros H w. repeat split; auto.
  - exists []. now rewrite app_nil_r.
  - intros k' Hk'. simpl. apply lookup_insert_ne. congruence.
Qed.

Lemma confined_bind {A B} (m : M A) (f : A -> M B) :
  confined ok okKey okLatch m -> (forall a, confined ok okKey okLatch (f a)) ->
  confined ok okKey okLatch (bind m f).
Proof.
  intros Hm Hf w. unfold bind. specialize (Hm w).
  destruct (m w) as [[a|e] w1]; simpl in *; [|exact Hm].
  eapply within_trans; [exact Hm|apply Hf].
Qed.

Lemma confined_tryCatch {A} (m : M A) (h : JsError -> M A) :
  confined ok okKey okLatch m -> (forall e, confined ok okKey okLatch (h e)) ->
  confined ok okKey okLatch (tryCatch m h).
Proof.
  intros Hm Hh w. unfold tryCatch. specialize (Hm w).
  destruct (m w) as [[a|e] w1]; simpl in *; [exact Hm|].
  eapply within_trans; [exact Hm|apply Hh].
Qed.

Lemma confined_forEach {A} (l : list A) (f : A -> M unit) :
  (forall a, confined ok okKey okLatch (f a)) ->
  confined ok okKey okLatch (forEach l f).
Proof.
  intros Hf. induction l as [|x l IH]; simpl.
  - apply confined_ret.
  - apply confined_bind; auto.
Qed.

Variable P : Platform.

Hypothesis keys_allowed : forall k, k ∈ EXPECTED_KEYS -> okKey k = true.

Lemma confined_fillIfUnset (key value : jsstring) :
  confined ok okKey okLatch (fillIfUnset key value).
Proof.
  intros w. unfold fillIfUnset, bind, getenv. simpl.
  destruct (bool_decide (key ∈ EXPECTED_KEYS)) eqn:E; simpl; [|apply within_refl].
  destruct (negb (present (env w !! key))); [|apply within_refl].
  apply bool_decide_eq_true in E. now apply confined_setenv, keys_allowed.
Qed.

Lemma confined_fills {A} (l : list A) (key value : A -> jsstring) :
  confined ok okKey okLatch (forEach l (fun p => fillIfUnset (key p) (value p))).
Proof. apply confined_forEach. intros p. apply confined_fillIfUnset. Qed.

Hypothesis ssm_allowed : ok KSsm = true.

Lemma confined_loadPages (path : jsstring) (listing : PathListing) :
  forall nextToken, confined ok okKey okLatch (loadPages path nextToken listing).
Proof.
  induction listing as [ps|ps tok following IH|e]; intros nextToken; simpl;
    (apply confined_bind; [now apply confined_emit|intros _]).
  - apply confined_fills.
  - apply confined_bind; [apply confined_fills|intros _].
    destruct (truthy tok); [apply IH|apply confined_ret].
  - apply confined_throw.
Qed.

Lemma confined_hierarchicalPhase : confined ok okKey okLatch (hierarchicalPhase P).
Proof.
  unfold hierarchicalPhase. apply confined_bind; [apply confined_getenv|intros pp].
  destruct (startsWith _ _); [|apply confined_ret].
  apply confined_bind; [apply confined_history|intros h]. apply confined_loadPages.
Qed.

Hypothesis console_allowed : ok KConsole = true.

Lemma confined_console (level : LogLevel) (args : list LogArg) :
  confined ok okKey okLatch (console level args).
Proof. now apply confined_emit. Qed.

Lemma confined_flatPhase : confined ok okKey okLatch (flatPhase P).
Proof.
  intros w. unfold flatPhase.
  destruct (List.filter _ EXPECTED_KEYS) as [|m missing]; [apply within_refl|].
  match goal with
  | |- within _ _ _ w (snd (?m w)) => assert (Hc : confined ok okKey okLatch m)
  end; [|apply Hc].
  apply confined_bind; [now apply confined_emit|intros _].
  apply confined_bind; [apply confined_lift|intros resp].
  apply confined_bind; [apply confined_fills|intros _].
  destruct (gp_InvalidParameters resp) as [[|i invalid]|];
    try apply confined_ret. apply confined_console.
Qed.

End Confinement.

(** The two phases of the resolver never set the latch. *)
Lemma phases_keep_latch (P : Platform) (w : World) :
  paramsLoaded (snd (hierarchicalPhase P w)) = paramsLoaded w
  /\ paramsLoaded (snd (flatPhase P w)) = paramsLoaded w.
Proof.
  split.
  - now apply (confined_hierarchicalPhase (fun _ => true) (fun _ => true) false P).
  - now apply (confined_flatPhase (fun _ => true) (fun _ => true) false P).
Qed.

Lemma loadParamsIntoEnv_cold (P : Platform) (w : World) :
  paramsLoaded w = false ->
  loadParamsIntoEnv P w =
  bind (hierarchicalPhase P) (fun _ => bind (flatPhase P) (fun _ => setParamsLoaded)) w.
Proof. intros H. unfold loadParamsIntoEnv. now rewrite H. Qed.

Lemma loadParamsIntoEnv_warm (P : Platform) (w : World) :
  paramsLoaded w = true -> loadParamsIntoEnv P w = (Returned tt, w).
Proof. intros H. unfold loadParamsIntoEnv. now rewrite H. Qed.

(* ===================================================================== *)
(** ** What the steps of the handler may touch *)
(* ===================================================================== *)

Ltac confine :=
  repeat first
    [ apply confined_ret | apply confined_throw | apply confined_lift
    | apply confined_history | apply confined_getenv
    | apply confined_emit; simpl; assumption
    | apply confined_bind; [|intro]
    | apply confined_tryCatch; [|intro]
    | match goal with
      | |- confined _ _ _ (if ?c then _ else _) => destruct c
      | |- confined _ _ _ (match ?c with _ => _ end) => destruct c
      end ].

Section StepBounds.

Variable ok : EventKind -> bool.
Variable okKey : jsstring -> bool.
Variable okLatch : bool.
Variable P : Platform.

Lemma confined_engine {A} (c : Checked A) : confined ok okKey okLatch (engine P c).
Proof. destruct c; [apply confined_ret|apply confined_throw]. Qed.

Lemma confined_mustEnv (key : jsstring) : confined ok okKey okLatch (mustEnv key).
Proof. unfold mustEnv. confine. Qed.

Lemma confined_getSsoid (event : LambdaEvent) :
  confined ok okKey okLatch (getSsoid event).
Proof. unfold getSsoid. confine. Qed.

Lemma confined_getDeletedBy (context : LambdaContext) :
  confined ok okKey okLatch (getDeletedBy context).
Proof. unfold getDeletedBy. confine. Qed.

Lemma confined_buildCsvRow (ssoid : jsstring) (user : Json) (deletedBy : jsstring) :
  confined ok okKey okLatch (buildCsvRow P ssoid user deletedBy).
Proof.
  unfold buildCsvRow. apply confined_bind; [apply confined_history|intros h].
  apply confined_engine.
Qed.

Hypothesis fetch_allowed : ok KFetch = true.

Lemma confined_callFetch (req : FetchRequest) :
  confined ok okKey okLatch (callFetch P req).
Proof. unfold callFetch. confine. Qed.

Lemma confined_getMgmtToken (domain clientId clientSecret audience : jsstring) :
  confined ok okKey okLatch (getMgmtToken P domain clientId clientSecret audience).
Proof.
  unfold getMgmtToken.
  destruct (negb (truthy domain)); [apply confined_throw|].
  destruct (negb (truthy clientId)); [apply confined_throw|].
  destruct (negb (truthy clientSecret)); [apply confined_throw|].
  destruct (negb (truthy audience)); [apply confined_throw|].
  apply confined_bind; [apply confined_callFetch|intros res]. confine.
Qed.

Lemma confined_configure (event : LambdaEvent) :
  confined ok okKey okLatch (configure P event).
Proof.
  unfold configure.
  apply confined_bind; [apply confined_mustEnv|intros domain].
  apply confined_bind; [apply confined_getenv|intros a].
  apply confined_bind; [apply confined_getenv|intros bucket].
  apply confined_bind; [apply confined_getenv|intros k].
  apply confined_bind; [apply confined_mustEnv|intros clientId].
  apply confined_bind; [apply confined_mustEnv|intros clientSecret].
  apply confined_bind; [apply confined_getMgmtToken|intros tok].
  apply confined_bind; [apply confined_getSsoid|intros ssoid].
  apply confined_ret.
Qed.

Lemma confined_deleteUser (domain tok : jsstring) (userId : JsValue) :
  confined ok okKey okLatch (deleteUser P domain tok userId).
Proof.
  unfold deleteUser.
  apply confined_bind; [apply confined_engine|intros label].
  apply confined_bind; [apply confined_lift|intros encodedId].
  apply confined_bind; [apply confined_callFetch|intros res]. confine.
Qed.

Hypothesis console_allowed : ok KConsole = true.

Lemma confined_searchUsersByQuery (domain tok q : jsstring) :
  confined ok okKey okLatch (searchUsersByQuery P domain tok q).
Proof.
  unfold searchUsersByQuery, console.
  apply confined_tryCatch; [|intros err; confine].
  apply confined_bind; [apply confined_lift|intros url].
  apply confined_bind; [apply confined_callFetch|intros res]. confine.
Qed.

Lemma confined_findUsers (s : Settings) : confined ok okKey okLatch (findUsers P s).
Proof.
  unfold findUsers.
  apply confined_bind; [apply confined_searchUsersByQuery|intros users].
  destruct users; [apply confined_searchUsersByQuery|apply confined_ret].
Qed.

Lemma confined_recordFailure (userId : JsValue) (results : list ResultEntry)
    (csvRows : list jsstring) (err : JsError) :
  confined ok okKey okLatch (recordFailure P userId results csvRows err).
Proof.
  unfold recordFailure, console.
  apply confined_bind; [apply confined_engine|intros label]. confine.
Qed.

Lemma confined_deleteAndLog (s : Settings) (userId : JsValue) :
  confined ok okKey okLatch (deleteAndLog P s userId).
Proof.
  unfold deleteAndLog, console.
  apply confined_bind; [apply confined_deleteUser|intros _].
  apply confined_bind; [apply confined_engine|intros label]. confine.
Qed.

Lemma confined_deleteEach (s : Settings) (deletedBy : jsstring) (users : list Json) :
  forall results csvRows,
    confined ok okKey okLatch (deleteEach P s deletedBy users results csvRows).
Proof.
  induction users as [|u rest IH]; intros results csvRows; cbn [deleteEach].
  - apply confined_ret.
  - apply confined_bind; [apply confined_engine|intros userId].
    apply confined_bind; [|intros pushed; apply IH].
    intros w. pose proof (confined_deleteAndLog s userId w) as H1.
    destruct (deleteAndLog P s userId w) as [[[]|err] w1]; simpl in H1.
    + eapply within_trans; [exact H1|].
      apply confined_tryCatch; [|intros err; apply confined_recordFailure].
      apply confined_bind; [apply confined_buildCsvRow|intros row].
      apply confined_ret.
    + eapply within_trans; [exact H1|]. apply confined_recordFailure.
Qed.

Lemma confined_deleteMatched (s : Settings) (context : LambdaContext)
    (users : list Json) :
  confined ok okKey okLatch (deleteMatched P s context users).
Proof.
  unfold deleteMatched.
  apply confined_bind; [apply confined_getDeletedBy|intros deletedBy].
  apply confined_deleteEach.
Qed.

Hypothesis get_allowed : ok KS3Get = true.
Hypothesis put_allowed : ok KS3Put = true.

Lemma confined_appendRowsToCsvInS3 (bucket key : jsstring) (rows : list jsstring) :
  confined ok okKey okLatch (appendRowsToCsvInS3 P bucket key rows).
Proof.
  unfold appendRowsToCsvInS3, getObject, putObject. confine.
Qed.

Lemma confined_writeLedger (s : Settings) (csvRows : list jsstring) :
  confined ok okKey okLatch (writeLedger P s csvRows).
Proof.
  unfold writeLedger, console.
  destruct ((0 <? length csvRows)%nat && present (S3_BUCKET s)).
  - apply confined_tryCatch; [apply confined_appendRowsToCsvInS3|intros e; confine].
  - confine.
Qed.

Lemma confined_process (s : Settings) (context : LambdaContext) :
  confined ok okKey okLatch (process P s context).
Proof.
  unfold process, proceed, console.
  apply confined_bind; [apply confined_findUsers|intros users].
  destruct users as [|u users]; [confine|].
  apply confined_bind; [apply confined_deleteMatched|intros pushed].
  apply confined_bind; [apply confined_writeLedger|intros _].
  apply confined_ret.
Qed.

End StepBounds.

(** Reading the bounds off. *)
Lemma within_env (ok : EventKind -> bool) (okLatch : bool) (w w' : World) :
  within ok noKey okLatch w w' -> env w' = env w.
Proof.
  intros (_ & Hk & _). apply map_eq. intros k. now apply Hk.
Qed.

Lemma eventsOf_app (k : EventKind) (t u : list Event) :
  eventsOf k (t ++ u) = eventsOf k t ++ eventsOf k u.
Proof. unfold eventsOf. apply List.filter_app. Qed.

Lemma eventsOf_none (ok : EventKind -> bool) (k : EventKind) (delta : list Event) :
  ok k = false -> forallb (fun e => ok (kindOf e)) delta = true ->
  eventsOf k delta = [].
Proof.
  intros Hk. induction delta as [|e delta IH]; simpl; [reflexivity|].
  intros H. apply andb_true_iff in H as [He Hd].
  destruct (sameKind (kindOf e) k) eqn:E; [|now apply IH].
  exfalso. destruct (kindOf e), k; simpl in E; try discriminate; congruence.
Qed.

Lemma within_events (ok : EventKind -> bool) (okKey : jsstring -> bool)
    (okLatch : bool) (k : EventKind) (w w' : World) :
  within ok okKey okLatch w w' -> ok k = false ->
  eventsOf k (trace w') = eventsOf k (trace w).
Proof.
  intros ((delta & -> & Hok) & _) Hk.
  now rewrite eventsOf_app, (eventsOf_none ok k delta Hk Hok), app_nil_r.
Qed.

Lemma s3Writes_none (ok : EventKind -> bool) (delta : list Event) :
  ok KS3Put = false -> forallb (fun e => ok (kindOf e)) delta = true ->
  s3Writes delta = [].
Proof.
  intros Hk. induction delta as [|e delta IH]; simpl; [reflexivity|].
  intros H. apply andb_true_iff in H as [He Hd].
  destruct e; simpl in *; try (now apply IH). congruence.
Qed.

Lemma within_writes (ok : EventKind -> bool) (okKey : jsstring -> bool)
    (okLatch : bool) (w w' : World) :
  within ok okKey okLatch w w' -> ok KS3Put = false ->
  s3Writes (trace w') = s3Writes (trace w).
Proof.
  intros ((delta & -> & Hok) & _) Hk.
  now rewrite s3Writes_app, (s3Writes_none ok delta Hk Hok), app_nil_r.
Qed.

Lemma fetchCalls_none (ok : EventKind -> bool) (delta : list Event) :
  ok KFetch = false -> forallb (fun e => ok (kindOf e)) delta = true ->
  fetchCalls delta = [].
Proof.
  intros Hk. induction delta as [|e delta IH]; simpl; [reflexivity|].
  intros H. apply andb_true_iff in H as [He Hd].
  destruct e; simpl in *; try (now apply IH). congruence.
Qed.

Lemma within_record (ok : EventKind -> bool) (okKey : jsstring -> bool)
    (okLatch : bool) (e : Event) (w w' : World) :
  within ok okKey okLatch w w' -> ok (kindOf e) = true ->
  within ok okKey okLatch w (record e w').
Proof.
  intros H He. eapply within_trans; [exact H|].
  now apply (confined_emit ok okKey okLatch e He w').
Qed.

Lemma within_settle (ok : EventKind -> bool) (okKey : jsstring -> bool)
    (okLatch : bool) (w : World) (r : Outcome Response * World) :
  ok KConsole = true ->
  within ok okKey okLatch w (snd r) -> within ok okKey okLatch w (snd (settle r)).
Proof.
  intros Hc H. destruct r as [[resp|err] w1]; simpl in *; [exact H|].
  now apply within_record.
Qed.

(* ===================================================================== *)

Lemma within_fetches (ok : EventKind -> bool) (okKey : jsstring -> bool)
    (okLatch : bool) (w w' : World) :
  within ok okKey okLatch w w' -> ok KFetch = false ->
  fetchCalls (trace w') = fetchCalls (trace w).
Proof.
  intros ((delta & -> & Hok) & _) Hk.
  now rewrite fetchCalls_app, (fetchCalls_none ok delta Hk Hok), app_nil_r.
Qed.

Lemma confined_loadParamsIntoEnv (ok : EventKind -> bool) (okKey : jsstring -> bool)
    (P : Platform) :
  (forall k, k ∈ EXPECTED_KEYS -> okKey k = true) ->
  ok KSsm = true -> ok KConsole = true ->
  confined ok okKey true (loadParamsIntoEnv P).
Proof.
  intros Hk Hs Hc w. destruct (paramsLoaded w) eqn:Hl.
  - rewrite (loadParamsIntoEnv_warm P w Hl). apply within_refl.
  - rewrite (loadParamsIntoEnv_cold P w Hl).
    apply confined_bind; [now apply confined_hierarchicalPhase|intros _].
    apply confined_bind; [now apply confined_flatPhase|intros _].
    intros w0. repeat split; try discriminate.
    exists []. now rewrite app_nil_r.
Qed.

Lemma confined_resolve (ok : EventKind -> bool) (P : Platform) (event : LambdaEvent) :
  ok KSsm = true -> ok KConsole = true -> ok KFetch = true ->
  confined ok (fun _ => true) true (resolve P event).
Proof.
  intros Hs Hc Hf. unfold resolve.
  apply confined_bind; [now apply confined_loadParamsIntoEnv|intros _].
  now apply confined_configure.
Qed.


(** The ledger step sends no request. *)
Lemma writeLedger_calls (P : Platform) (s : Settings) (csvRows : list jsstring)
    (w : World) :
  fetchCalls (trace (snd (writeLedger P s csvRows w))) = fetchCalls (trace w).
Proof.
  apply (within_fetches (allBut KFetch) (fun _ => true) true); [|reflexivity].
  now apply confined_writeLedger.
Qed.

(* ===================================================================== *)
(** ** The requests of the deletion loop *)
(* ===================================================================== *)

Lemma deleteUser_calls (P : Platform) (domain tok : jsstring)
    (userId : JsValue) (label : jsstring) (w : World) :
  show userId = Fine label ->
  fetchCalls (trace (snd (deleteUser P domain tok userId w)))
  = fetchCalls (trace w)
    ++ match encodeURIComponent P label with
       | Returned encodedId => [deleteRequest domain tok encodedId]
       | Thrown _ => []
       end.
Proof.
  intros Hshow. unfold deleteUser. unfold bind at 1. rewrite Hshow, engine_fine. run.
  destruct (encodeURIComponent P label) as [enc|e]; simpl;
    [|now rewrite app_nil_r].
  destruct (fetch P (trace w) _) as [res|e]; simpl;
    [|now rewrite fetchCalls_app].
  destruct (res_ok res); simpl; [now rewrite fetchCalls_app|].
  destruct (res_text res); simpl; now rewrite fetchCalls_app.
Qed.

Lemma fetchCalls_console (level : LogLevel) (args : list LogArg) (w : World) :
  fetchCalls (trace (record (Console level args) w)) = fetchCalls (trace w).
Proof. simpl. now rewrite fetchCalls_app, app_nil_r. Qed.

Lemma deleteRequests_cons (P : Platform) (domain tok : jsstring) (u : Json)
    (rest : list Json) (userId : JsValue) (label : jsstring) :
  get u (lit "user_id") = Fine userId -> show userId = Fine label ->
  deleteRequests P domain tok (u :: rest)
  = match encodeURIComponent P label with
    | Returned encodedId => [deleteRequest domain tok encodedId]
    | Thrown _ => []
    end ++ deleteRequests P domain tok rest.
Proof.
  intros Hget Hshow. cbn [deleteRequests]. rewrite Hget. cbn [andThen].
  rewrite Hshow. now destruct (encodeURIComponent P label).
Qed.

Lemma deleteEach_calls (P : Platform) (s : Settings) (deletedBy : jsstring)
    (users : list Json) :
  forall results csvRows w,
    fetchCalls (trace (snd (deleteEach P s deletedBy users results csvRows w)))
    = fetchCalls (trace w)
      ++ deleteRequests P (AUTH0_DOMAIN s) (token s) users.
Proof.
  induction users as [|u rest IH]; intros results csvRows w.
  - simpl. now rewrite app_nil_r.
  - destruct (get u (lit "user_id")) as [userId|f] eqn:Hget.
    2:{ rewrite (deleteEach_null _ _ _ _ _ _ _ _ _ Hget). cbn [deleteRequests].
        rewrite Hget. simpl. now rewrite app_nil_r. }
    destruct (show userId) as [label|f] eqn:Hshow.
    2:{ rewrite (deleteEach_unprintable _ _ _ _ _ _ _ _ _ _ Hget Hshow).
        cbn [deleteRequests]. rewrite Hget. cbn [andThen]. rewrite Hshow.
        simpl. now rewrite app_nil_r. }
    rewrite (deleteRequests_cons _ _ _ _ _ _ _ Hget Hshow).
    pose proof (deleteUser_calls P (AUTH0_DOMAIN s) (token s) userId label w Hshow)
      as Hc.
    destruct (deleteUser P (AUTH0_DOMAIN s) (token s) userId w)
      as [[[]|err] w1] eqn:Hdel; simpl in Hc.
    + destruct (csvRow (Date_toISOString P
                  (trace (record (Console LOG
                     [LStr (lit "Deleted Auth0 user_id=" ++ label)]) w1)))
                  (SSOID s) u deletedBy) as [row|f] eqn:Hrow.
      * rewrite (deleteEach_deleted _ _ _ _ _ _ _ _ _ _ _ _ Hget Hshow Hdel Hrow), IH.
        rewrite fetchCalls_console, Hc. now rewrite <- app_assoc.
      * rewrite (deleteEach_unrecorded _ _ _ _ _ _ _ _ _ _ _ _ Hget Hshow Hdel Hrow), IH.
        rewrite !fetchCalls_console, Hc. now rewrite <- app_assoc.
    + rewrite (deleteEach_failed _ _ _ _ _ _ _ _ _ _ _ _ Hget Hshow Hdel), IH.
      rewrite fetchCalls_console, Hc. now rewrite <- app_assoc.
Qed.

(** Every request of the loop is a DELETE. *)
Lemma deleteRequests_method (P : Platform) (domain tok : jsstring) (users : list Json) :
  Forall (fun r => req_method r = DELETE) (deleteRequests P domain tok users).
Proof.
  induction users as [|u rest IH]; cbn [deleteRequests]; [constructor|].
  destruct (andThen _ _); [|constructor].
  destruct (encodeURIComponent P a); [constructor; [reflexivity|exact IH]|exact IH].
Qed.

(* ===================================================================== *)
(** ** The search fallback *)
(* ===================================================================== *)

(** The requests sent from the start of the deletion steps to the answer of
    the handler are the requests of the loop. *)
Lemma proceed_calls (P : Platform) (s : Settings) (context : LambdaContext)
    (users : list Json) (w : World) :
  fetchCalls (trace (snd (settle (proceed P s context users w))))
  = fetchCalls (trace w) ++ deleteRequests P (AUTH0_DOMAIN s) (token s) users.
Proof.
  pose proof (deleteEach_calls P s (actor context (env w)) users [] [] w) as Hc.
  rewrite <- deleteMatched_eq in Hc.
  destruct (deleteMatched P s context users w) as [[[results rows]|err] w1] eqn:Hdel;
    simpl in Hc.
  - rewrite (proceed_eq _ _ _ _ _ _ _ _ Hdel). simpl.
    now rewrite writeLedger_calls.
  - rewrite (proceed_thrown _ _ _ _ _ _ _ Hdel). simpl.
    now rewrite fetchCalls_app, app_nil_r.
Qed.

Lemma searches_of_loop (P : Platform) (domain tok : jsstring) (users : list Json) :
  List.filter (fun r => match req_method r with GET => true | _ => false end)
    (deleteRequests P domain tok users) = [].
Proof.
  pose proof (deleteRequests_method P domain tok users) as H.
  induction H as [|r l Hr _ IH]; [reflexivity|]. simpl. now rewrite Hr.
Qed.

Lemma searches_of_search (P : Platform) (domain tok q : jsstring) :
  List.filter (fun r => match req_method r with GET => true | _ => false end)
    (searchSent P domain tok q) = searchSent P domain tok q.
Proof. unfold searchSent. now destruct (URL_new P _). Qed.

(** C4: once the settings and the target id are resolved, the handler sends
    the search whose query is the text [identities.user_id:] followed by the
    id between double quotes.  When it finds accounts the handler goes on
    with them, and no other search is sent.  When it finds none the handler
    sends the search whose query is [app_metadata.ssoid:] followed by the id
    between double quotes, and goes on with what that one finds.  When both
    find nothing the handler answers 200 with the no-match body: the only
    requests sent since the resolution are the two searches, and nothing is
    written to the object store. *)
Theorem search_fallback_order (P : Platform) (event : LambdaEvent)
    (context : LambdaContext) (w0 w : World) (s : Settings) :
  resolve P event w0 = (Returned s, w) ->
  let q1 := lit "identities.user_id:" ++ [DQUOTE] ++ SSOID s ++ [DQUOTE] in
  let q2 := lit "app_metadata.ssoid:" ++ [DQUOTE] ++ SSOID s ++ [DQUOTE] in
  let search := searchUsersByQuery P (AUTH0_DOMAIN s) (token s) in
  let sent q :=
    match URL_new P (lit "https://" ++ stripProtocol (AUTH0_DOMAIN s)
                     ++ lit "/api/v2/users") with
    | Returned url =>
        [ {| req_method := GET;
             req_url := url_location url;
             req_searchParams :=
               setParam (lit "per_page") (lit "50")
                 (setParam (lit "search_engine") (lit "v3")
                    (setParam (lit "q") q (url_searchParams url)));
             req_headers := [(lit "authorization", lit "Bearer " ++ token s)];
             req_body := None |} ]
    | Thrown _ => []
    end in
  let searches t :=
    List.filter (fun r => match req_method r with GET => true | _ => false end)
      (fetchCalls t) in
  let answer := fst (handler P event context w0) in
  let final := snd (handler P event context w0) in
  exists users1 w1,
    search q1 w = (Returned users1, w1)
    /\ fetchCalls (trace w1) = fetchCalls (trace w) ++ sent q1
    /\ (users1 <> [] ->
        handler P event context w0 = settle (proceed P s context users1 w1)
        /\ searches (trace final) = searches (trace w) ++ sent q1)
    /\ (users1 = [] ->
        exists users2 w2,
          search q2 w1 = (Returned users2, w2)
          /\ fetchCalls (trace w2) = fetchCalls (trace w) ++ sent q1 ++ sent q2
          /\ (users2 <> [] ->
              handler P event context w0 = settle (proceed P s context users2 w2)
              /\ searches (trace final) = searches (trace w) ++ sent q1 ++ sent q2)
          /\ (users2 = [] ->
              statusCode answer = 200
              /\ body answer
                 = JSON_stringify
                     (JObject [ (lit "message", JString (lit "Cannot find user"));
                                (lit "ssoid", JString (SSOID s));
                                (lit "results", JArray []) ])
              /\ fetchCalls (trace final) = fetchCalls (trace w) ++ sent q1 ++ sent q2
              /\ s3Writes (trace final) = s3Writes (trace w))).
Proof.
  intros Hres q1 q2 search sent searches answer final.
  assert (Hsent : forall q, sent q = searchSent P (AUTH0_DOMAIN s) (token s) q)
    by reflexivity.
  assert (Hfilter : forall q, List.filter
            (fun r => match req_method r with GET => true | _ => false end) (sent q)
            = sent q).
  { intros q. rewrite Hsent. apply searches_of_search. }
  destruct (searchUsersByQuery_calls P (AUTH0_DOMAIN s) (token s) q1 w)
    as (users1 & w1 & H1 & _ & _ & Hf1 & Hs1).
  exists users1, w1. split; [exact H1|]. split; [now rewrite Hsent|].
  assert (Hhandler : handler P event context w0 = settle (process P s context w))
    by (unfold handler; now rewrite (attempt_resolved _ _ _ _ _ _ Hres)).
  split.
  - intros Hne.
    assert (Hfind : findUsers P s w = (Returned users1, w1)).
    { unfold findUsers, bind. fold q1. change (identityQuery (SSOID s)) with q1.
      rewrite H1. now destruct users1. }
    assert (Hgo : handler P event context w0 = settle (proceed P s context users1 w1)).
    { rewrite Hhandler, (process_eq _ _ _ _ _ _ Hfind). now destruct users1. }
    split; [exact Hgo|].
    subst final searches. cbv beta. rewrite Hgo, proceed_calls, Hf1, <- Hsent.
    rewrite !List.filter_app, searches_of_loop, Hfilter. now rewrite app_nil_r.
  - intros ->.
    destruct (searchUsersByQuery_calls P (AUTH0_DOMAIN s) (token s) q2 w1)
      as (users2 & w2 & H2 & _ & _ & Hf2 & Hs2).
    exists users2, w2. split; [exact H2|].
    assert (Hf : fetchCalls (trace w2) = fetchCalls (trace w) ++ sent q1 ++ sent q2).
    { rewrite Hf2, Hf1. now rewrite <- app_assoc. }
    split; [exact Hf|].
    assert (Hfind : findUsers P s w = (Returned users2, w2)).
    { unfold findUsers, bind. change (identityQuery (SSOID s)) with q1.
      rewrite H1. exact H2. }
    split.
    + intros Hne.
      assert (Hgo : handler P event context w0 = settle (proceed P s context users2 w2)).
      { rewrite Hhandler, (process_eq _ _ _ _ _ _ Hfind). now destruct users2. }
      split; [exact Hgo|].
      subst final searches. cbv beta. rewrite Hgo, proceed_calls, Hf.
      rewrite !List.filter_app, searches_of_loop, !Hfilter.
      now rewrite !app_nil_r.
    + intros ->. subst answer final.
      rewrite Hhandler, (process_eq _ _ _ _ _ _ Hfind). simpl.
      split; [reflexivity|]. split; [reflexivity|].
      rewrite fetchCalls_app, s3Writes_app, Hf, Hs2, Hs1. simpl.
      now rewrite !app_nil_r.
Qed.

(* ===================================================================== *)
(** ** The deletions and the ledger *)
(* ===================================================================== *)



Lemma rows_have_entries (P : Platform) (s : Settings) (context : LambdaContext)
    (users : list Json) (w w' : World) (results : list ResultEntry)
    (csvRows : list jsstring) :
  deleteMatched P s context users w = (Returned (results, csvRows), w') ->
  (length csvRows <= deletedCount results)%nat.
Proof.
  intros H. rewrite deleteMatched_eq in H.
  pose proof (deleteEach_outcome P s (actor context (env w)) users [] [] w) as Ho.
  rewrite H in Ho. destruct Ho as (new & newRows & -> & -> & _ & _ & Hle & _).
  exact Hle.
Qed.


(* ===================================================================== *)
(** ** The response envelope *)
(* ===================================================================== *)


(* ===================================================================== *)
(** ** The configuration resolver *)
(* ===================================================================== *)

Lemma keeps_ret {A} (a : A) : keeps (ret a).
Proof. intros w k v H _. exact H. Qed.

Lemma keeps_throw {A} (e : JsError) : keeps (@throw A e).
Proof. intros w k v H _. exact H. Qed.

Lemma keeps_lift {A} (o : Outcome A) : keeps (lift o).
Proof. intros w k v H _. exact H. Qed.

Lemma keeps_emit (e : Event) : keeps (emit e).
Proof. intros w k v H _. exact H. Qed.

Lemma keeps_getenv (key : jsstring) : keeps (getenv key).
Proof. intros w k v H _. exact H. Qed.

Lemma keeps_history : keeps history.
Proof. intros w k v H _. exact H. Qed.

Lemma keeps_bind {A B} (m : M A) (f : A -> M B) :
  keeps m -> (forall a, keeps (f a)) -> keeps (bind m f).
Proof.
  intros Hm Hf w k v H Hv. unfold bind.
  specialize (Hm w k v H Hv).
  destruct (m w) as [[a|e] w1]; simpl in *.
  - now apply Hf.
  - exact Hm.
Qed.

Create HintDb keeps.
#[local] Hint Resolve keeps_ret keeps_throw keeps_lift keeps_emit keeps_getenv
  keeps_history : keeps.

(** The guarded assignment leaves a key alone when it has a non-empty value. *)
Lemma keeps_fillIfUnset (key value : jsstring) : keeps (fillIfUnset key value).
Proof.
  intros w k v H Hv. unfold fillIfUnset, bind, getenv. simpl.
  destruct (bool_decide (key ∈ EXPECTED_KEYS) && negb (present (env w !! key))) eqn:E;
    simpl; [|exact H].
  apply andb_true_iff in E as [_ E]. apply negb_true_iff in E.
  destruct (decide (key = k)) as [->|Hne].
  - rewrite H in E. simpl in E. destruct v; [congruence|discriminate].
  - now rewrite lookup_insert_ne.
Qed.

Lemma keeps_forEach {A} (l : list A) (f : A -> M unit) :
  (forall a, keeps (f a)) -> keeps (forEach l f).
Proof.
  intros Hf. induction l as [|x l IH]; simpl.
  - apply keeps_ret.
  - apply keeps_bind; auto.
Qed.

Lemma keeps_loadPages (path : jsstring) (listing : PathListing) :
  forall nextToken, keeps (loadPages path nextToken listing).
Proof.
  induction listing as [ps|ps tok following IH|e]; intros nextToken; simpl;
    apply keeps_bind; auto with keeps; intros _.
  - apply keeps_forEach. intros p. apply keeps_fillIfUnset.
  - apply keeps_bind.
    + apply keeps_forEach. intros p. apply keeps_fillIfUnset.
    + intros _. destruct (truthy tok); auto with keeps.
Qed.

Lemma keeps_hierarchicalPhase (P : Platform) : keeps (hierarchicalPhase P).
Proof.
  unfold hierarchicalPhase. apply keeps_bind; auto with keeps. intros pp.
  destruct (startsWith _ _); auto with keeps.
  apply keeps_bind; auto with keeps. intros h. apply keeps_loadPages.
Qed.

Lemma keeps_flatPhase (P : Platform) : keeps (flatPhase P).
Proof.
  intros w k v H Hv. unfold flatPhase.
  destruct (List.filter _ EXPECTED_KEYS) as [|m missing]; [exact H|].
  match goal with
  | |- env (snd (?m w)) !! k = Some v => assert (Hk : keeps m)
  end; [|now apply Hk].
  apply keeps_bind; auto with keeps. intros _.
  apply keeps_bind; auto with keeps. intros resp.
  apply keeps_bind.
  - apply keeps_forEach. intros p. apply keeps_fillIfUnset.
  - intros _. destruct (gp_InvalidParameters resp) as [[|i invalid]|];
      auto with keeps.
Qed.

Lemma keeps_setParamsLoaded : keeps setParamsLoaded.
Proof. intros w k v H _. exact H. Qed.

Lemma keeps_loadParamsIntoEnv (P : Platform) : keeps (loadParamsIntoEnv P).
Proof.
  intros w k v H Hv. unfold loadParamsIntoEnv.
  destruct (paramsLoaded w); [exact H|].
  match goal with
  | |- env (snd (?m w)) !! k = Some v => assert (Hk : keeps m)
  end; [|now apply Hk].
  apply keeps_bind; [apply keeps_hierarchicalPhase|]. intros _.
  apply keeps_bind; [apply keeps_flatPhase|]. intros _.
  apply keeps_setParamsLoaded.
Qed.

(** C9, as the code has it: a key that has a non-empty value before the
    resolution has the same value after the hierarchical phase, after the
    flat-name phase and after the whole resolution, whatever the store
    answers and whether or not the resolution fails. *)
Theorem resolution_keeps_set_values (P : Platform) (w : World) (k v : jsstring) :
  env w !! k = Some v -> v <> [] ->
  env (snd (hierarchicalPhase P w)) !! k = Some v
  /\ env (snd (flatPhase P w)) !! k = Some v
  /\ env (snd (loadParamsIntoEnv P w)) !! k = Some v.
Proof.
  intros H Hv. split; [|split].
  - now apply keeps_hierarchicalPhase.
  - now apply keeps_flatPhase.
  - now apply keeps_loadParamsIntoEnv.
Qed.

Lemma resolution_keeps_set_values_witness :
  env (snd (loadParamsIntoEnv
              (Scenario.platform Scenario.storeParameters [] [] []
                 (Thrown Scenario.noSuchKey) (Returned tt))
              {| env := {[ lit "S3_BUCKET" := lit "from-the-environment" ]};
                 paramsLoaded := false; trace := [] |}))
    !! lit "S3_BUCKET"
  = Some (lit "from-the-environment").
Proof.
  apply (resolution_keeps_set_values
           (Scenario.platform Scenario.storeParameters [] [] []
              (Thrown Scenario.noSuchKey) (Returned tt))
           {| env := {[ lit "S3_BUCKET" := lit "from-the-environment" ]};
              paramsLoaded := false; trace := [] |}
           (lit "S3_BUCKET") (lit "from-the-environment")).
  - vm_compute; reflexivity.
  - vm_compute; discriminate.
Defined.

(** A recognized key whose value is the empty string before the resolution
    has the value of the store after it. *)
Lemma empty_value_is_overwritten :
  In (lit "S3_BUCKET") EXPECTED_KEYS
  /\ env Scenario.blankBucket !! lit "S3_BUCKET" = Some []
  /\ env (snd (loadParamsIntoEnv
                 (Scenario.platform Scenario.storeParameters [] [] []
                    (Thrown Scenario.noSuchKey) (Returned tt))
                 Scenario.blankBucket))
       !! lit "S3_BUCKET"
     = Some (lit "auth0-deleted-users")
  /\ Some (lit "auth0-deleted-users") <> Some ([] : jsstring).
Proof.
  split; [vm_compute; left; reflexivity|].
  split; [vm_compute; reflexivity|]. split; [vm_compute; reflexivity|].
  intros H. vm_compute in H. discriminate.
Qed.

(* ===================================================================== *)
(** ** Required settings *)
(* ===================================================================== *)

Lemma missing_message_truthy (k : jsstring) : truthy (lit "Missing " ++ k) = true.
Proof.
  assert (H : exists c tl, lit "Missing " = c :: tl)
    by (eexists _, _; vm_compute; reflexivity).
  destruct H as (c & tl & ->). reflexivity.
Qed.

Lemma errorText_missing (k : jsstring) :
  errorText (Error (lit "Missing " ++ k)) = lit "Missing " ++ k.
Proof. unfold errorText, or_else. simpl. now rewrite missing_message_truthy. Qed.

Lemma logArg_missing (k : jsstring) :
  logArg (Error (lit "Missing " ++ k)) = LStr (lit "Missing " ++ k).
Proof. unfold logArg. simpl. now rewrite missing_message_truthy. Qed.

Lemma mustEnv_absent (k : jsstring) (w : World) :
  present (env w !! k) = false ->
  mustEnv k w = (Thrown (Error (lit "Missing " ++ k)), w).
Proof.
  intros H. unfold mustEnv, bind, getenv. simpl.
  destruct (env w !! k) as [[|c v]|]; simpl in *; try discriminate; reflexivity.
Qed.

Lemma mustEnv_present (k : jsstring) (w : World) :
  present (env w !! k) = true ->
  mustEnv k w = (Returned (default [] (env w !! k)), w).
Proof.
  intros H. unfold mustEnv, bind, getenv. simpl.
  destruct (env w !! k) as [[|c v]|]; simpl in *; try discriminate; reflexivity.
Qed.

Lemma present_false (o : option jsstring) :
  present o = false <-> o = None \/ o = Some [].
Proof.
  destruct o as [[|c v]|]; simpl; split; intros H; auto; try discriminate.
  - destruct H; discriminate.
Qed.

(** The resolution stops at the first required setting that is absent or
    empty. *)
Lemma resolve_missing (P : Platform) (event : LambdaEvent) (w w1 : World)
    (k : jsstring) :
  loadParamsIntoEnv P w = (Returned tt, w1) ->
  firstMissing (env w1) = Some k ->
  resolve P event w = (Thrown (Error (lit "Missing " ++ k)), w1).
Proof.
  intros Hload Hk. unfold resolve. unfold bind at 1. rewrite Hload.
  unfold configure.
  unfold firstMissing, REQUIRED_KEYS in Hk. simpl in Hk.
  destruct (present (env w1 !! lit "AUTH0_DOMAIN")) eqn:E1; simpl in Hk.
  2:{ injection Hk as <-. unfold bind at 1.
      now rewrite (mustEnv_absent _ _ E1). }
  unfold bind at 1. rewrite (mustEnv_present _ _ E1).
  unfold bind at 1. unfold getenv at 1. unfold bind at 1. unfold getenv at 1.
  unfold bind at 1. unfold getenv at 1.
  destruct (present (env w1 !! lit "AUTH0_CLIENT_ID")) eqn:E2; simpl in Hk.
  2:{ injection Hk as <-. unfold bind at 1.
      now rewrite (mustEnv_absent _ _ E2). }
  unfold bind at 1. rewrite (mustEnv_present _ _ E2).
  destruct (present (env w1 !! lit "AUTH0_CLIENT_SECRET")) eqn:E3; simpl in Hk.
  2:{ injection Hk as <-. unfold bind at 1.
      now rewrite (mustEnv_absent _ _ E3). }
  discriminate.
Qed.

(** ** An empty setting and an absent one *)

Lemma alike_present (k key : jsstring) (w w' : World) :
  alike k w w' -> present (env w !! key) = present (env w' !! key).
Proof.
  intros (_ & _ & Ho & Hk). destruct (decide (key = k)) as [->|Hne].
  - destruct Hk as [->|[-> ->]]; reflexivity.
  - now rewrite (Ho _ Hne).
Qed.

Lemma sim_ret k {A} (a : A) : sim k (ret a).
Proof. intros w w' H. now split. Qed.

Lemma sim_throw k {A} (e : JsError) : sim k (@throw A e).
Proof. intros w w' H. now split. Qed.

Lemma sim_lift k {A} (o : Outcome A) : sim k (lift o).
Proof. intros w w' H. now split. Qed.

Lemma sim_emit k (e : Event) : sim k (emit e).
Proof.
  intros w w' (Ht & Hp & Ho & Hk). split; [reflexivity|].
  unfold alike; simpl. now rewrite Ht.
Qed.

Lemma sim_history k : sim k history.
Proof.
  intros w w' H. split; [|exact H]. destruct H as (Ht & _).
  unfold history. simpl. now rewrite Ht.
Qed.

Lemma sim_getenv k (key : jsstring) : key <> k -> sim k (getenv key).
Proof.
  intros Hne w w' H. split; [|exact H]. destruct H as (_ & _ & Ho & _).
  simpl. now rewrite (Ho _ Hne).
Qed.

Lemma sim_bind k {A B} (m : M A) (f : A -> M B) :
  sim k m -> (forall a, sim k (f a)) -> sim k (bind m f).
Proof.
  intros Hm Hf w w' H. unfold bind. destruct (Hm w w' H) as [Ho Ha].
  destruct (m w) as [[a|e] w1], (m w') as [[a'|e'] w1']; simpl in *;
    try discriminate.
  - injection Ho as <-. now apply Hf.
  - injection Ho as <-. now split.
Qed.

Create HintDb sim.
#[local] Hint Resolve sim_ret sim_throw sim_lift sim_emit sim_history : sim.

Lemma sim_fillIfUnset k (key value : jsstring) : sim k (fillIfUnset key value).
Proof.
  intros w w' H. unfold fillIfUnset, bind, getenv. simpl.
  rewrite (alike_present k key w w' H).
  destruct (bool_decide (key ∈ EXPECTED_KEYS) && negb (present (env w' !! key)));
    simpl; [|now split].
  split; [reflexivity|]. destruct H as (Ht & Hp & Ho & Hk).
  unfold alike; simpl. repeat split; try assumption.
  - intros key0 Hne. destruct (decide (key = key0)) as [->|Hk0].
    + now rewrite !lookup_insert_eq.
    + rewrite !lookup_insert_ne by assumption. now apply Ho.
  - destruct (decide (key = k)) as [->|Hne].
    + left. now rewrite !lookup_insert_eq.
    + now rewrite !lookup_insert_ne by assumption.
Qed.

Lemma sim_forEach k {A} (l : list A) (f : A -> M unit) :
  (forall a, sim k (f a)) -> sim k (forEach l f).
Proof.
  intros Hf. induction l as [|x l IH]; simpl; auto with sim.
  apply sim_bind; auto.
Qed.

Lemma sim_loadPages k (path : jsstring) (listing : PathListing) :
  forall nextToken, sim k (loadPages path nextToken listing).
Proof.
  induction listing as [ps|ps tok following IH|e]; intros nextToken; simpl;
    apply sim_bind; auto with sim; intros _.
  - apply sim_forEach. intros p. apply sim_fillIfUnset.
  - apply sim_bind.
    + apply sim_forEach. intros p. apply sim_fillIfUnset.
    + intros _. destruct (truthy tok); auto with sim.
Qed.

Lemma sim_hierarchicalPhase (P : Platform) k :
  lit "PARAM_PREFIX" <> k -> sim k (hierarchicalPhase P).
Proof.
  intros Hne. unfold hierarchicalPhase.
  apply sim_bind; [now apply sim_getenv|]. intros pp.
  destruct (startsWith _ _); auto with sim.
  apply sim_bind; auto with sim. intros h. apply sim_loadPages.
Qed.

Lemma sim_flatPhase (P : Platform) k : sim k (flatPhase P).
Proof.
  intros w w' H. unfold flatPhase.
  assert (Hmissing :
    List.filter (fun key => negb (present (env w !! key))) EXPECTED_KEYS
    = List.filter (fun key => negb (present (env w' !! key))) EXPECTED_KEYS).
  { apply List.filter_ext. intros key. now rewrite (alike_present k key w w' H). }
  rewrite Hmissing. clear Hmissing.
  destruct (List.filter _ EXPECTED_KEYS) as [|m missing];
    [split; [reflexivity|exact H]|].
  pose proof H as (Ht & _). rewrite Ht.
  match goal with
  | |- fst (?m w) = _ /\ _ => assert (Hs : sim k m)
  end; [|now apply Hs].
  apply sim_bind; auto with sim. intros _.
  apply sim_bind; auto with sim. intros resp.
  apply sim_bind.
  - apply sim_forEach. intros p. apply sim_fillIfUnset.
  - intros _. destruct (gp_InvalidParameters resp) as [[|i invalid]|];
      auto with sim. apply sim_emit.
Qed.

Lemma sim_setParamsLoaded k : sim k setParamsLoaded.
Proof.
  intros w w' (Ht & Hp & Ho & Hk). split; [reflexivity|]. now unfold alike.
Qed.

Lemma sim_loadParamsIntoEnv (P : Platform) k :
  lit "PARAM_PREFIX" <> k -> sim k (loadParamsIntoEnv P).
Proof.
  intros Hne w w' H. unfold loadParamsIntoEnv.
  pose proof H as (_ & Hp & _). rewrite Hp.
  destruct (paramsLoaded w'); [split; [reflexivity|exact H]|].
  match goal with
  | |- fst (?m w) = _ /\ _ => assert (Hs : sim k m)
  end; [|now apply Hs].
  apply sim_bind; [now apply sim_hierarchicalPhase|]. intros _.
  apply sim_bind; [apply sim_flatPhase|]. intros _.
  apply sim_setParamsLoaded.
Qed.

Lemma alike_without (k : jsstring) (w : World) :
  env w !! k = Some [] -> alike k w (without k w).
Proof.
  intros H. unfold alike, without; simpl. repeat split.
  - intros key Hne. now rewrite lookup_delete_ne.
  - right. now rewrite H, lookup_delete_eq.
Qed.

Lemma alike_same_env (k : jsstring) (w w' : World) :
  alike k w w' -> env w !! k = env w' !! k -> w = w'.
Proof.
  intros (Ht & Hp & Ho & _) Hk. destruct w, w'; simpl in *. subst. f_equal.
  apply map_eq. intros key. destruct (decide (key = k)) as [->|Hne]; auto.
Qed.

Lemma firstMissing_alike (k : jsstring) (w w' : World) :
  alike k w w' -> firstMissing (env w) = firstMissing (env w').
Proof.
  intros H. unfold firstMissing, REQUIRED_KEYS. simpl.
  now rewrite !(alike_present k _ w w' H).
Qed.

Lemma firstMissing_found (e : gmap jsstring jsstring) (k : jsstring) :
  In k REQUIRED_KEYS -> present (e !! k) = false ->
  exists k', firstMissing e = Some k'.
Proof.
  intros Hin Hp. unfold firstMissing.
  destruct (List.find _ REQUIRED_KEYS) as [k'|] eqn:E; [eauto|].
  pose proof (List.find_none _ _ E k Hin) as H. simpl in H.
  rewrite Hp in H. discriminate.
Qed.

Lemma required_not_prefix (k : jsstring) :
  In k REQUIRED_KEYS -> lit "PARAM_PREFIX" <> k.
Proof.
  intros [<-|[<-|[<-|[]]]]; intros H; vm_compute in H; discriminate.
Qed.

(** The handler answers alike, and leaves the same trace, whether a
    required key holds the empty string or is not in the environment. *)
Lemma empty_like_absent (P : Platform) (event : LambdaEvent)
    (context : LambdaContext) (w : World) (k : jsstring) :
  In k REQUIRED_KEYS -> env w !! k = Some [] ->
  fst (handler P event context w) = fst (handler P event context (without k w))
  /\ trace (snd (handler P event context w))
     = trace (snd (handler P event context (without k w))).
Proof.
  intros Hin Hk.
  destruct (sim_loadParamsIntoEnv P k (required_not_prefix k Hin) w (without k w)
              (alike_without k w Hk)) as [Ho Ha].
  destruct (loadParamsIntoEnv P w) as [[[]|e] w1] eqn:E1,
           (loadParamsIntoEnv P (without k w)) as [[[]|e'] w1'] eqn:E2;
    simpl in Ho, Ha; try discriminate.
  - destruct Ha as (Ht & Hp & Hother & [Hsame|[Hf Hf']]).
    + assert (Heq : w1 = w1')
        by (apply (alike_same_env k); [now repeat split; auto|assumption]).
      subst w1'. unfold handler.
      now rewrite (attempt_loaded _ _ _ _ _ E1), (attempt_loaded _ _ _ _ _ E2).
    + destruct (firstMissing_found (env w1) k Hin Hf) as [k' Hk'].
      assert (Hk'' : firstMissing (env w1') = Some k').
      { rewrite <- Hk'. symmetry. apply (firstMissing_alike k).
        repeat split; auto. }
      unfold handler.
      rewrite (attempt_unresolved _ _ _ _ _ _ (resolve_missing P event _ _ _ E1 Hk')).
      rewrite (attempt_unresolved _ _ _ _ _ _ (resolve_missing P event _ _ _ E2 Hk'')).
      simpl. now rewrite Ht.
  - injection Ho as <-. destruct Ha as (Ht & _).
    assert (H1 : resolve P event w = (Thrown e, w1))
      by (unfold resolve; unfold bind at 1; now rewrite E1).
    assert (H2 : resolve P event (without k w) = (Thrown e, w1'))
      by (unfold resolve; unfold bind at 1; now rewrite E2).
    unfold handler.
    rewrite (attempt_unresolved _ _ _ _ _ _ H1), (attempt_unresolved _ _ _ _ _ _ H2).
    simpl. now rewrite Ht.
Qed.

(** C10: after a resolution that did not fail, when a required setting is
    absent or empty, the first such setting [k], in the order AUTH0_DOMAIN,
    AUTH0_CLIENT_ID, AUTH0_CLIENT_SECRET, makes the handler answer 500 with
    the error text made of the word Missing and [k].  An empty value and an
    absent one are not told apart: from a world in which a required key holds
    the empty string and from the same world without that key, the handler
    gives the same answer and leaves the same trace. *)
Theorem missing_required_setting (P : Platform) (event : LambdaEvent)
    (context : LambdaContext) (w w1 : World) (k : jsstring) :
  loadParamsIntoEnv P w = (Returned tt, w1) ->
  firstMissing (env w1) = Some k ->
  In k REQUIRED_KEYS
  /\ (env w1 !! k = None \/ env w1 !! k = Some [])
  /\ handler P event context w =
     (response 500 (JObject [ (lit "error", JString (lit "Missing " ++ k)) ]),
      record (Console ERROR [LStr (lit "Unhandled error:"); LStr (lit "Missing " ++ k)])
        w1)
  /\ (forall (w0 : World) (key : jsstring),
        In key REQUIRED_KEYS -> env w0 !! key = Some [] ->
        fst (handler P event context w0)
        = fst (handler P event context (without key w0))
        /\ trace (snd (handler P event context w0))
           = trace (snd (handler P event context (without key w0)))).
Proof.
  intros Hload Hk. split; [|split; [|split]].
  - unfold firstMissing in Hk. now apply List.find_some in Hk as [Hin _].
  - unfold firstMissing in Hk. apply List.find_some in Hk as [_ Hp].
    apply negb_true_iff in Hp. now apply present_false.
  - unfold handler.
    rewrite (attempt_unresolved _ _ _ _ _ _ (resolve_missing P event _ _ _ Hload Hk)).
    unfold settle, errorBody. now rewrite errorText_missing, logArg_missing.
  - intros w0 key. apply empty_like_absent.
Qed.

(* ===================================================================== *)
(** ** The properties on the concrete deployment *)
(* ===================================================================== *)

Import Scenario.

Lemma missing_required_setting_witness :
  loadParamsIntoEnv noClientId blankClientId
  = (Returned tt, snd (loadParamsIntoEnv noClientId blankClientId))
  /\ firstMissing (env (snd (loadParamsIntoEnv noClientId blankClientId)))
     = Some (lit "AUTH0_CLIENT_ID")
  /\ fst (handler noClientId (request "abc123") invoker blankClientId)
     = response 500 (JObject [ (lit "error", JString (lit "Missing AUTH0_CLIENT_ID")) ]).
Proof.
  assert (H1 : loadParamsIntoEnv noClientId blankClientId
               = (Returned tt, snd (loadParamsIntoEnv noClientId blankClientId)))
    by (vm_compute; reflexivity).
  assert (H2 : firstMissing (env (snd (loadParamsIntoEnv noClientId blankClientId)))
               = Some (lit "AUTH0_CLIENT_ID"))
    by (vm_compute; reflexivity).
  split; [exact H1|]. split; [exact H2|].
  destruct (missing_required_setting noClientId (request "abc123") invoker
              blankClientId _ _ H1 H2) as (_ & _ & H & _).
  rewrite H. vm_compute; reflexivity.
Defined.



Lemma search_fallback_order_witness :
  resolve foundByMetadata (request "abc123") cold
  = (Returned settings, snd (resolve foundByMetadata (request "abc123") cold))
  /\ List.map req_searchParams
       (fetchCalls (trace (snd (findUsers foundByMetadata settings
          (snd (resolve foundByMetadata (request "abc123") cold))))))
     = [ [];
         [ (lit "q", lit "identities.user_id:" ++ [DQUOTE] ++ lit "abc123" ++ [DQUOTE]);
           (lit "search_engine", lit "v3"); (lit "per_page", lit "50") ];
         [ (lit "q", lit "app_metadata.ssoid:" ++ [DQUOTE] ++ lit "abc123" ++ [DQUOTE]);
           (lit "search_engine", lit "v3"); (lit "per_page", lit "50") ] ].
Proof.
  assert (H : resolve foundByMetadata (request "abc123") cold
              = (Returned settings, snd (resolve foundByMetadata (request "abc123") cold)))
    by (vm_compute; reflexivity).
  split; [exact H|].
  destruct (search_fallback_order foundByMetadata (request "abc123") invoker cold _ _ H)
    as (users1 & w1 & H1 & Hf1 & _ & Hempty).
  vm_compute; reflexivity.
Defined.

(** The end-to-end scenario of the specification in which no account
    matches: status 200, the no-match body, no write to the object store. *)
Example nobody_matches :
  statusCode (fst (handler nobody (request "abc123") invoker cold)) = 200
  /\ body (fst (handler nobody (request "abc123") invoker cold))
     = lit "{" ++ [DQUOTE] ++ lit "message" ++ [DQUOTE] ++ lit ":"
       ++ [DQUOTE] ++ lit "Cannot find user" ++ [DQUOTE] ++ lit ","
       ++ [DQUOTE] ++ lit "ssoid" ++ [DQUOTE] ++ lit ":"
       ++ [DQUOTE] ++ lit "abc123" ++ [DQUOTE] ++ lit ","
       ++ [DQUOTE] ++ lit "results" ++ [DQUOTE] ++ lit ":[]}"
  /\ s3Writes (trace (snd (handler nobody (request "abc123") invoker cold))) = []
  /\ List.map req_method
       (fetchCalls (trace (snd (handler nobody (request "abc123") invoker cold))))
     = [POST; GET; GET].
Proof. repeat split; vm_compute; reflexivity. Qed.

(** The end-to-end scenario in which the one matched account is deleted and
    no bucket is configured: status 200, one success entry, no write, and a
    warning as the last message. *)
Example deleted_without_bucket :
  fst (handler noBucket (request "abc123") invoker cold)
  = response 200
      (completeBody (lit "abc123")
         [ {| entry_user_id := Some (JString (lit "auth0|b2")); entry_deleted := true;
              entry_error := None |} ])
  /\ s3Writes (trace (snd (handler noBucket (request "abc123") invoker cold))) = []
  /\ last (trace (snd (handler noBucket (request "abc123") invoker cold)))
     = Some (Console WARN [LStr (lit "S3_BUCKET not set; skipping CSV write.")]).
Proof. repeat split; vm_compute; reflexivity. Qed.

(** A search answer whose second element is [null]: the first account is
    deleted, then the read of the id of [null] ends the loop, and the
    handler answers 500 without an entry for the deletion. *)
Example null_element_ends_the_loop :
  let P := platform storeParameters [bob; JNull] [] [] (Thrown noSuchKey) (Returned tt) in
  statusCode (fst (handler P (request "abc123") invoker cold)) = 500
  /\ body (fst (handler P (request "abc123") invoker cold))
     = lit "{" ++ [DQUOTE] ++ lit "error" ++ [DQUOTE] ++ lit ":" ++ [DQUOTE]
       ++ lit "Cannot read properties of null (reading 'user_id')" ++ [DQUOTE]
       ++ lit "}"
  /\ List.map req_method
       (fetchCalls (trace (snd (handler P (request "abc123") invoker cold))))
     = [POST; GET; DELETE]
  /\ s3Writes (trace (snd (handler P (request "abc123") invoker cold))) = [].
Proof. repeat split; vm_compute; reflexivity. Qed.

(** A ledger that has a byte-order mark and no header gets the header, and
    loses the mark. *)
Example header_added_mark_dropped :
  nextContent ([BOM] ++ lit "old line" ++ [LF]) [bobRow]
  = CSV_HEADER ++ lit "old line" ++ [LF] ++ bobRow.
Proof. vm_compute; reflexivity. Qed.

(** Numbers print as the language prints them. *)
Example number_texts :
  List.map numberText
    [ Finite false 1 22; Finite false 15 1; Finite false 1 (-6); Finite false 1 (-5);
      Finite true 12345 3; Finite false 12345678901234568 21; ofNat 1200; ofNat 0 ]
  = [ lit "1e+21"; lit "1.5"; lit "1e-7"; lit "0.000001"; lit "-123.45";
      lit "123456789012345680000"; lit "1200"; lit "0" ].
Proof. vm_compute; reflexivity. Qed.

(** X1: the latch of the resolver.  A resolution that returns leaves the
    latch set, and a resolution started from the world it leaves returns at
    once and changes nothing: no store is asked a second time.  A resolution
    that throws started with the latch unset and leaves it unset, so the next
    invocation resolves again. *)
Theorem resolution_latch (P : Platform) (w : World) :
  match loadParamsIntoEnv P w with
  | (Returned _, w1) =>
      paramsLoaded w1 = true /\ loadParamsIntoEnv P w1 = (Returned tt, w1)
  | (Thrown _, w1) =>
      paramsLoaded w = false /\ paramsLoaded w1 = false
  end.
Proof.
  destruct (paramsLoaded w) eqn:Hl.
  - rewrite (loadParamsIntoEnv_warm P w Hl). split; [exact Hl|].
    now apply loadParamsIntoEnv_warm.
  - rewrite (loadParamsIntoEnv_cold P w Hl). unfold bind.
    destruct (phases_keep_latch P w) as [Hh _].
    destruct (hierarchicalPhase P w) as [[[]|e] wa]; simpl in Hh.
    + destruct (phases_keep_latch P wa) as [_ Hf].
      destruct (flatPhase P wa) as [[[]|e] wb]; simpl in Hf.
      * simpl. split; [reflexivity|]. now apply loadParamsIntoEnv_warm.
      * split; [reflexivity|]. congruence.
    + split; [reflexivity|]. congruence.
Qed.

(** X2: the resolver assigns recognized keys only, and it talks to the
    parameter store and the console only: every other key of the environment
    has the value it had, and the trace grows by store requests and console
    messages. *)
Theorem resolution_touches_recognized_keys_only (P : Platform) (w : World) :
  (forall k, k ∉ EXPECTED_KEYS ->
     env (snd (loadParamsIntoEnv P w)) !! k = env w !! k)
  /\ exists delta,
       trace (snd (loadParamsIntoEnv P w)) = trace w ++ delta
       /\ Forall (fun e => kindOf e = KSsm \/ kindOf e = KConsole) delta.
Proof.
  assert (H : within (fun k => match k with KSsm | KConsole => true | _ => false end)
                recognized true w (snd (loadParamsIntoEnv P w))).
  { destruct (paramsLoaded w) eqn:Hl.
    - rewrite (loadParamsIntoEnv_warm P w Hl). apply within_refl.
    - rewrite (loadParamsIntoEnv_cold P w Hl).
      assert (Hk : forall k, k ∈ EXPECTED_KEYS -> recognized k = true)
        by (intros k Hk; now apply bool_decide_eq_true).
      apply confined_bind;
        [now apply confined_hierarchicalPhase|intros _].
      apply confined_bind; [now apply confined_flatPhase|intros _].
      intros w0. repeat split; try discriminate.
      exists []. now rewrite app_nil_r. }
  destruct H as ((delta & Ht & Hok) & Hkeys & _). split.
  - intros k Hk. apply Hkeys. now apply bool_decide_eq_false.
  - exists delta. split; [exact Ht|]. apply Forall_forall. intros e He.
    rewrite forallb_forall in Hok. specialize (Hok e (proj1 (list_elem_of_In _ _) He)).
    destruct (kindOf e); auto; discriminate.
Qed.

(* ===================================================================== *)
(** ** More on the ledger content *)
(* ===================================================================== *)

Lemma trimStart_app (a b : jsstring) :
  trimStart a <> [] -> trimStart (a ++ b) = trimStart a ++ b.
Proof.
  induction a as [|c a IH]; simpl; [congruence|].
  destruct (isWhiteSpace c); auto.
Qed.

Lemma startsWith_app_l (p s t : jsstring) :
  startsWith s p = true -> startsWith (s ++ t) p = true.
Proof.
  revert s; induction p as [|c p IH]; intros s H; simpl in *; [reflexivity|].
  destruct s as [|d s]; [discriminate|]. simpl.
  apply andb_true_iff in H as [-> Hp]. simpl. now apply IH.
Qed.

Lemma header_break : CSV_HEADER = CSV_HEADER_LINE ++ [LF].
Proof. vm_compute. reflexivity. Qed.

Lemma header_line_lower : toLowerCase CSV_HEADER_LINE = CSV_HEADER_LINE.
Proof. vm_compute. reflexivity. Qed.

Lemma hasHeader_app (a b : jsstring) :
  hasHeader a = true -> hasHeader (a ++ b) = true.
Proof.
  unfold hasHeader. intros H.
  assert (Hne : trimStart a <> []).
  { intros E. rewrite E in H. destruct header_line_head as [tl Hh].
    rewrite Hh in H. discriminate. }
  rewrite (trimStart_app _ _ Hne), toLowerCase_app. now apply startsWith_app_l.
Qed.

Lemma hasHeader_header (rest : jsstring) : hasHeader (CSV_HEADER ++ rest) = true.
Proof.
  unfold hasHeader. rewrite header_break, <- app_assoc.
  destruct header_line_head as [tl Hh].
  assert (Ht : trimStart (CSV_HEADER_LINE ++ [LF] ++ rest)
               = CSV_HEADER_LINE ++ [LF] ++ rest)
    by (rewrite Hh; reflexivity).
  rewrite Ht, toLowerCase_app, header_line_lower. apply startsWith_app.
Qed.

Lemma nextContent_hasHeader (existing : jsstring) (rows : list jsstring) :
  hasHeader (nextContent existing rows) = true.
Proof.
  destruct (hasHeader existing) eqn:E.
  - rewrite (nextContent_header_present _ _ E). now apply hasHeader_app.
  - rewrite (nextContent_header_missing _ _ E). apply hasHeader_header.
Qed.

(** X3: the header is written at most once.  Whatever the object held, the
    content written back is one that the header test accepts, so that a
    second append adds its rows only: two appends in a row write what one
    append of both batches writes. *)
Theorem header_written_once (existing : jsstring) (rows more : list jsstring) :
  hasHeader (nextContent existing rows) = true
  /\ nextContent (nextContent existing rows) more
     = nextContent existing (rows ++ more).
Proof.
  pose proof (nextContent_hasHeader existing rows) as H1.
  split; [exact H1|].
  rewrite (nextContent_header_present _ _ H1).
  destruct (hasHeader existing) eqn:E.
  - rewrite !(nextContent_header_present _ _ E), concat_app.
    now rewrite <- app_assoc.
  - rewrite !(nextContent_header_missing _ _ E), concat_app.
    now rewrite <- !app_assoc.
Qed.

(* ===================================================================== *)
(** ** More on the fields of a row *)
(* ===================================================================== *)

Lemma doubleQuotes_injective (a b : jsstring) :
  doubleQuotes a = doubleQuotes b -> a = b.
Proof.
  revert b; induction a as [|c a IH]; intros [|d b] H; simpl in H.
  - reflexivity.
  - destruct (d =? DQUOTE); discriminate.
  - destruct (c =? DQUOTE); discriminate.
  - destruct (c =? DQUOTE) eqn:Ec, (d =? DQUOTE) eqn:Ed; simpl in H.
    + apply N.eqb_eq in Ec, Ed. subst. injection H as H. f_equal. now apply IH.
    + injection H as Hd _. subst d. discriminate.
    + injection H as Hc _. subst c. discriminate.
    + injection H as -> H. f_equal. now apply IH.
Qed.

Lemma plain_has_no_quote (s : jsstring) :
  needsQuoting s = false -> ~ In DQUOTE s.
Proof.
  intros H Hin. apply needsQuoting_false in H. apply H.
  exists DQUOTE. auto.
Qed.

(** X4: [csvEscape] tells the texts apart: two texts that are written the
    same in a row are the same text. *)
Theorem csvEscape_injective (a b : jsstring) :
  csvEscape (Text a) = csvEscape (Text b) -> a = b.
Proof.
  unfold csvEscape, fieldText, Text. simpl.
  destruct (needsQuoting a) eqn:Ea, (needsQuoting b) eqn:Eb; intros [= H].
  - apply app_inv_tail in H. now apply doubleQuotes_injective.
  - exfalso. apply (plain_has_no_quote _ Eb). rewrite <- H. now left.
  - exfalso. apply (plain_has_no_quote _ Ea). rewrite H. now left.
  - exact H.
Qed.

Lemma csvEscape_injective_witness :
  lit "Alice, A." = lit "Alice, A.".
Proof.
  apply (csvEscape_injective (lit "Alice, A.") (lit "Alice, A.")). reflexivity.
Defined.

Lemma join_comma_line_feed (l : list jsstring) :
  In LF (join [COMMA] l) -> exists x, In x l /\ In LF x.
Proof.
  induction l as [|x l IH]; simpl; [tauto|].
  destruct l as [|y l].
  - intros H. exists x. auto.
  - intros H. apply in_app_or in H as [H|H]; [exists x; auto|].
    destruct H as [H|H]; [discriminate|].
    destruct (IH H) as (z & Hz & Hlf). exists z. auto.
Qed.

Lemma doubleQuotes_line_feed (s : jsstring) :
  In LF (doubleQuotes s) -> In LF s.
Proof.
  induction s as [|c s IH]; simpl; [tauto|].
  destruct (c =? DQUOTE); simpl.
  - intros [H|[H|H]]; try discriminate. auto.
  - intros [H|H]; auto.
Qed.

Lemma csvEscape_line_feed (v : JsValue) (x : jsstring) :
  csvEscape v = Fine x -> In LF x ->
  exists t, fieldText v = Fine t /\ In LF t.
Proof.
  unfold csvEscape. intros H Hlf.
  apply andThen_fine in H as (t & Ht & [= <-]). exists t. split; [exact Ht|].
  destruct (needsQuoting t); [|exact Hlf].
  simpl in Hlf. destruct Hlf as [H|H]; [discriminate|].
  apply in_app_or in H as [H|H].
  - now apply doubleQuotes_line_feed.
  - destruct H as [H|[]]. discriminate.
Qed.

(** X5: a row is one line of the ledger unless a field has a line feed in
    it: when no field text has one, a row that is built is a text without
    line feed followed by the one line feed that ends it. *)
Theorem row_is_one_line (now ssoid : jsstring) (user : Json)
    (deletedBy : jsstring) (fields : list JsValue) (row : jsstring) :
  rowFields now ssoid user deletedBy = Fine fields ->
  csvRow now ssoid user deletedBy = Fine row ->
  (forall v t, In v fields -> fieldText v = Fine t -> ~ In LF t) ->
  exists line, row = line ++ [LF] /\ ~ In LF line.
Proof.
  intros Hfields Hrow H. unfold csvRow in Hrow. rewrite Hfields in Hrow.
  cbn [andThen] in Hrow. apply andThen_fine in Hrow as (texts & Ht & [= <-]).
  eexists. split; [reflexivity|].
  intros Hin. apply join_comma_line_feed in Hin as (x & Hx & Hlf).
  apply mapChecked_fine in Ht.
  assert (Hv : In (Fine x) (List.map csvEscape fields))
    by (rewrite Ht; now apply in_map).
  apply in_map_iff in Hv as (v & Hesc & Hv).
  destruct (csvEscape_line_feed v x Hesc Hlf) as (t & Htext & Ht').
  exact (H v t Hv Htext Ht').
Qed.

Lemma row_is_one_line_witness :
  exists line,
    lit "abc123,Y,2026-01-01T00:00:00.000Z,auth0|b2,,bob,,,,,,cleanup" ++ [LF]
    = line ++ [LF]
    /\ ~ In LF line.
Proof.
  pose (fields := match rowFields (lit "2026-01-01T00:00:00.000Z") (lit "abc123")
                          Scenario.bob (lit "cleanup") with
                  | Fine l => l
                  | Faulty _ => []
                  end).
  apply (row_is_one_line (lit "2026-01-01T00:00:00.000Z") (lit "abc123")
           Scenario.bob (lit "cleanup") fields).
  - vm_compute. reflexivity.
  - vm_compute. reflexivity.
  - intros v t Hv Ht Hlf.
    assert (H : forallb (fun v => match fieldText v with
                                  | Fine t => negb (existsb (N.eqb LF) t)
                                  | Faulty _ => true
                                  end) fields = true)
      by (vm_compute; reflexivity).
    rewrite forallb_forall in H. specialize (H v Hv). rewrite Ht in H.
    apply negb_true_iff in H.
    assert (E : existsb (N.eqb LF) t = true)
      by (apply existsb_exists; exists LF; split; [exact Hlf|apply N.eqb_refl]).
    rewrite E in H. discriminate.
Defined.

(* ===================================================================== *)
(** ** The domain without its scheme *)
(* ===================================================================== *)

Lemma dropLeadingSlashes_head (s : jsstring) :
  startsWith (dropLeadingSlashes s) [SLASH] = false.
Proof.
  induction s as [|c s IH]; [reflexivity|]. cbn [dropLeadingSlashes].
  destruct (c =? SLASH) eqn:E; [exact IH|].
  change (startsWith (c :: s) [SLASH]) with ((SLASH =? c) && true).
  rewrite N.eqb_sym, E. reflexivity.
Qed.

Lemma dropTrailingSlashes_end (s : jsstring) :
  endsWith (dropTrailingSlashes s) [SLASH] = false.
Proof.
  unfold endsWith, dropTrailingSlashes. rewrite rev_involutive.
  apply dropLeadingSlashes_head.
Qed.

Lemma dropLeadingSlashes_slashes (n : nat) (s : jsstring) :
  dropLeadingSlashes (repeat SLASH n ++ s) = dropLeadingSlashes s.
Proof. induction n as [|n IH]; simpl; auto. Qed.

Lemma dropLeadingSlashes_none (s : jsstring) :
  startsWith s [SLASH] = false -> dropLeadingSlashes s = s.
Proof.
  destruct s as [|c s]; [reflexivity|]. cbn [dropLeadingSlashes].
  change (startsWith (c :: s) [SLASH]) with ((SLASH =? c) && true).
  rewrite N.eqb_sym. destruct (c =? SLASH); [discriminate|reflexivity].
Qed.

Lemma rev_repeat (n : nat) (c : N) : rev (repeat c n) = repeat c n.
Proof.
  induction n as [|n IH]; simpl; [reflexivity|].
  rewrite IH. clear IH. induction n as [|n IH]; simpl; [reflexivity|].
  now rewrite IH.
Qed.

Lemma no_slash_rev_head (h : jsstring) :
  ~ In SLASH h -> startsWith (rev h) [SLASH] = false.
Proof.
  intros H. destruct (rev h) as [|c r] eqn:E; [reflexivity|].
  change (startsWith (c :: r) [SLASH]) with ((SLASH =? c) && true).
  destruct (SLASH =? c) eqn:Ec; [|reflexivity].
  apply N.eqb_eq in Ec. subst c. exfalso. apply H.
  apply in_rev. rewrite E. now left.
Qed.

Lemma dropTrailingSlashes_host (h : jsstring) (n : nat) :
  ~ In SLASH h -> dropTrailingSlashes (h ++ repeat SLASH n) = h.
Proof.
  intros H. unfold dropTrailingSlashes.
  rewrite rev_app_distr, rev_repeat, dropLeadingSlashes_slashes.
  rewrite (dropLeadingSlashes_none _ (no_slash_rev_head h H)).
  apply rev_involutive.
Qed.

Lemma https_units : lit "https://" = [104; 116; 116; 112; 115; 58; 47; 47].
Proof. vm_compute. reflexivity. Qed.

Lemma http_units : lit "http://" = [104; 116; 116; 112; 58; 47; 47].
Proof. vm_compute. reflexivity. Qed.

Lemma asciiLower_slash (s : jsstring) : In SLASH (asciiLower s) -> In SLASH s.
Proof.
  unfold asciiLower. intros H. apply in_map_iff in H as (c & Hc & Hin).
  destruct ((65 <=? c) && (c <=? 90)) eqn:E.
  - apply andb_true_iff in E as [E1 E2].
    apply N.leb_le in E1, E2. unfold SLASH in Hc. lia.
  - now subst c.
Qed.

Lemma startsWith_prefix (s p : jsstring) :
  startsWith s p = true -> exists rest, s = p ++ rest.
Proof.
  revert s; induction p as [|c p IH]; intros s H; simpl in H.
  - now exists s.
  - destruct s as [|d s]; [discriminate|].
    apply andb_true_iff in H as [Hc Hp].
    apply N.eqb_eq in Hc; subst d.
    destruct (IH _ Hp) as [rest ->].
    now exists rest.
Qed.

Lemma scheme_needs_slash (h scheme : jsstring) (n : nat) :
  In SLASH scheme ->
  startsWith (asciiLower (firstn n h)) scheme = true -> In SLASH h.
Proof.
  intros Hs H. apply startsWith_prefix in H as [rest H].
  assert (Hin : In SLASH (firstn n h)).
  { apply asciiLower_slash. rewrite H. apply in_or_app. now left. }
  rewrite <- (firstn_skipn n h). apply in_or_app. now left.
Qed.

Lemma startsWith_refl (s : jsstring) : startsWith s s = true.
Proof. rewrite <- (app_nil_r s) at 1. apply startsWith_app. Qed.

Lemma asciiLower_length (s : jsstring) : length (asciiLower s) = length s.
Proof. unfold asciiLower. apply length_map. Qed.

Lemma asciiLower_app (a b : jsstring) :
  asciiLower (a ++ b) = asciiLower a ++ asciiLower b.
Proof. unfold asciiLower. apply map_app. Qed.

Lemma stripProtocol_https (scheme rest : jsstring) :
  asciiLower scheme = lit "https://" ->
  stripProtocol (scheme ++ rest) = dropTrailingSlashes rest.
Proof.
  intros Hs.
  assert (Hlen : length scheme = 8%nat)
    by (rewrite <- asciiLower_length, Hs, https_units; reflexivity).
  unfold stripProtocol.
  assert (H8 : firstn 8 (scheme ++ rest) = scheme).
  { rewrite firstn_app, Hlen, firstn_all2 by lia. simpl. apply app_nil_r. }
  assert (S8 : skipn 8 (scheme ++ rest) = rest).
  { rewrite skipn_app, Hlen, skipn_all2 by lia. reflexivity. }
  now rewrite H8, Hs, startsWith_refl, S8.
Qed.

Lemma stripProtocol_http (scheme rest : jsstring) :
  asciiLower scheme = lit "http://" ->
  stripProtocol (scheme ++ rest) = dropTrailingSlashes rest.
Proof.
  intros Hs.
  assert (Hlen : length scheme = 7%nat)
    by (rewrite <- asciiLower_length, Hs, http_units; reflexivity).
  unfold stripProtocol.
  assert (H8 : startsWith (asciiLower (firstn 8 (scheme ++ rest)))
                 (lit "https://") = false).
  { rewrite firstn_app, Hlen, firstn_all2 by lia.
    rewrite asciiLower_app, Hs, http_units, https_units. reflexivity. }
  assert (H7 : firstn 7 (scheme ++ rest) = scheme).
  { rewrite firstn_app, Hlen, firstn_all2 by lia. simpl. apply app_nil_r. }
  assert (S7 : skipn 7 (scheme ++ rest) = rest).
  { rewrite skipn_app, Hlen, skipn_all2 by lia. reflexivity. }
  now rewrite H8, H7, Hs, startsWith_refl, S7.
Qed.

Lemma https_has_slash : In SLASH (lit "https://").
Proof. rewrite https_units. simpl. tauto. Qed.

Lemma http_has_slash : In SLASH (lit "http://").
Proof. rewrite http_units. simpl. tauto. Qed.

(** X6: [stripProtocol] never leaves a slash at the end; it turns a host
    written with [http://] or [https://] in any letter case, and with any
    number of slashes after it, into the host; and it leaves a bare host as
    it is. *)
Theorem stripProtocol_host :
  (forall d, endsWith (stripProtocol d) [SLASH] = false)
  /\ (forall scheme host n,
        asciiLower scheme = lit "https://" \/ asciiLower scheme = lit "http://" ->
        ~ In SLASH host ->
        stripProtocol (scheme ++ host ++ repeat SLASH n) = host)
  /\ (forall host, ~ In SLASH host -> stripProtocol host = host).
Proof.
  split; [|split].
  - intros d. unfold stripProtocol. apply dropTrailingSlashes_end.
  - intros scheme host n [Hs|Hs] Hhost.
    + rewrite (stripProtocol_https _ _ Hs). now apply dropTrailingSlashes_host.
    + rewrite (stripProtocol_http _ _ Hs). now apply dropTrailingSlashes_host.
  - intros host Hhost. unfold stripProtocol.
    destruct (startsWith (asciiLower (firstn 8 host)) (lit "https://")) eqn:E8.
    { exfalso. apply Hhost. apply (scheme_needs_slash _ _ _ https_has_slash E8). }
    destruct (startsWith (asciiLower (firstn 7 host)) (lit "http://")) eqn:E7.
    { exfalso. apply Hhost. apply (scheme_needs_slash _ _ _ http_has_slash E7). }
    rewrite <- (app_nil_r host) at 1.
    now apply (dropTrailingSlashes_host host 0).
Qed.

(* ===================================================================== *)
(** ** A warm process *)
(* ===================================================================== *)

(** X7: in a process whose settings are loaded, an invocation asks the
    parameter store nothing and leaves the environment and the latch as they
    are. *)
Theorem warm_invocation (P : Platform) (event : LambdaEvent)
    (context : LambdaContext) (w : World) :
  paramsLoaded w = true ->
  env (snd (handler P event context w)) = env w
  /\ paramsLoaded (snd (handler P event context w)) = true
  /\ eventsOf KSsm (trace (snd (handler P event context w)))
     = eventsOf KSsm (trace w).
Proof.
  intros Hl.
  assert (H : within (allBut KSsm) noKey false w (snd (handler P event context w))).
  { unfold handler. apply within_settle; [reflexivity|].
    rewrite (attempt_loaded P event context w w (loadParamsIntoEnv_warm P w Hl)).
    apply confined_bind.
    - now apply confined_configure.
    - intros s. now apply confined_process. }
  split; [now apply (within_env _ _ _ _ H)|]. split.
  - destruct H as (_ & _ & H). now rewrite H.
  - now apply (within_events _ _ _ KSsm _ _ H).
Qed.

Lemma warm_invocation_witness :
  eventsOf KSsm
    (trace (snd (handler Scenario.nobody (Scenario.request "abc123") Scenario.invoker
                   (snd (handler Scenario.nobody (Scenario.request "abc123")
                           Scenario.invoker Scenario.cold)))))
  = eventsOf KSsm
      (trace (snd (handler Scenario.nobody (Scenario.request "abc123")
                     Scenario.invoker Scenario.cold))).
Proof.
  apply (warm_invocation Scenario.nobody (Scenario.request "abc123") Scenario.invoker
           (snd (handler Scenario.nobody (Scenario.request "abc123")
                   Scenario.invoker Scenario.cold))).
  vm_compute. reflexivity.
Defined.

(* ===================================================================== *)
(** ** More on the deletion loop *)
(* ===================================================================== *)

Lemma deleteRequests_stop (P : Platform) (domain tok : jsstring)
    (before after : list Json) (u : Json) :
  processable u = false ->
  deleteRequests P domain tok (before ++ u :: after)
  = deleteRequests P domain tok before.
Proof.
  intros Hu. induction before as [|x before IH]; cbn [deleteRequests app].
  - unfold processable in Hu. now destruct (andThen _ _).
  - destruct (andThen (get x (lit "user_id")) show); [|reflexivity].
    destruct (encodeURIComponent P a); now rewrite IH.
Qed.

Lemma deleteRequests_length (P : Platform) (domain tok : jsstring) (users : list Json) :
  (length (deleteRequests P domain tok users) <= length users)%nat.
Proof.
  induction users as [|u rest IH]; cbn [deleteRequests]; [auto|].
  destruct (andThen _ _); [|simpl; lia].
  destruct (encodeURIComponent P a); simpl; lia.
Qed.

(** X8: the loop sends DELETE requests and nothing else, at most one per
    matched account and in the order of the search result: no request is
    repeated after a failure.  When every account has an id that has a text
    and that [encodeURIComponent] accepts, there is exactly one request per
    account, to the address of that id.  An element that is [null], or whose
    id has no text, ends the loop: only the elements before it are asked
    for. *)
Theorem one_delete_request_per_account (P : Platform) (s : Settings)
    (context : LambdaContext) (users : list Json) (w : World) :
  exists sent,
    fetchCalls (trace (snd (deleteMatched P s context users w)))
    = fetchCalls (trace w) ++ sent
    /\ Forall (fun r => req_method r = DELETE) sent
    /\ (length sent <= length users)%nat
    /\ (forall encoded,
          Forall2 (fun u encodedId =>
                     exists label,
                       andThen (get u (lit "user_id")) show = Fine label
                       /\ encodeURIComponent P label = Returned encodedId)
            users encoded ->
          sent = List.map
                   (fun encodedId =>
                      {| req_method := DELETE;
                         req_url := lit "https://" ++ stripProtocol (AUTH0_DOMAIN s)
                                    ++ lit "/api/v2/users/" ++ encodedId;
                         req_searchParams := [];
                         req_headers :=
                           [(lit "authorization", lit "Bearer " ++ token s)];
                         req_body := None |})
                   encoded)
    /\ (forall before u after,
          users = before ++ u :: after ->
          (forall label, andThen (get u (lit "user_id")) show <> Fine label) ->
          exists sent',
            fetchCalls (trace (snd (deleteMatched P s context before w)))
            = fetchCalls (trace w) ++ sent'
            /\ sent = sent').
Proof.
  exists (deleteRequests P (AUTH0_DOMAIN s) (token s) users).
  split; [rewrite deleteMatched_eq; apply deleteEach_calls|].
  split; [apply deleteRequests_method|].
  split; [apply deleteRequests_length|].
  split.
  - intros encoded H. induction H as [|u enc rest encs (label & Hl & He) _ IH];
      [reflexivity|].
    cbn [deleteRequests List.map]. now rewrite Hl, He, IH.
  - intros before u after -> Hu.
    exists (deleteRequests P (AUTH0_DOMAIN s) (token s) before).
    split.
    + rewrite deleteMatched_eq.
      pose proof (deleteEach_calls P s (actor context (env w)) before [] [] w) as H.
      exact H.
    + apply deleteRequests_stop. unfold processable.
      destruct (andThen (get u (lit "user_id")) show) as [label|f] eqn:E;
        [now destruct (Hu label)|reflexivity].
Qed.

Lemma wellFormed_spec (results : list ResultEntry) :
  forallb wellFormed results = true ->
  forall r, In r results -> (entry_deleted r = true <-> entry_error r = None).
Proof.
  intros H r Hr. rewrite forallb_forall in H. specialize (H r Hr).
  unfold wellFormed in H.
  destruct (entry_error r), (entry_deleted r); simpl in H;
    split; intros; congruence.
Qed.

Lemma processable_spec (users : list Json) :
  forallb processable users = true ->
  forall u, In u users ->
    exists label, andThen (get u (lit "user_id")) show = Fine label.
Proof.
  intros H u Hu. rewrite forallb_forall in H. specialize (H u Hu).
  unfold processable in H. destruct (andThen _ _) as [label|f]; [eauto|discriminate].
Qed.

(** X9: what the loop returns, and when it throws.  When it returns, every
    matched account has an id with a text; an entry carries an error text
    exactly when it is a failure entry; each account has given either a row,
    or a failure entry, or (when its deletion went through and its row could
    not be built) a success entry followed by a failure entry and no row, so
    that the rows and the failure entries together are as many as the
    accounts, and the rows are at most as many as the success entries; every
    entry carries the id of a matched account.  When the loop throws, what it
    throws is the type error of an element that is [null] or of an id that
    has no text.  The environment is left alone in both cases. *)
Theorem results_mirror_accounts (P : Platform) (s : Settings)
    (context : LambdaContext) (users : list Json) (w : World) :
  match deleteMatched P s context users w with
  | (Returned (results, csvRows), w') =>
      (forall u, In u users ->
         exists label, andThen (get u (lit "user_id")) show = Fine label)
      /\ (forall r, In r results ->
            (entry_deleted r = true <-> entry_error r = None))
      /\ (length csvRows
          + length (List.filter (fun r => negb (entry_deleted r)) results)
          = length users)%nat
      /\ (length csvRows <= length (List.filter entry_deleted results))%nat
      /\ (forall r, In r results ->
            exists u, In u users /\ get u (lit "user_id") = Fine (entry_user_id r))
      /\ env w' = env w
  | (Thrown err, w') =>
      (exists u f,
         In u users
         /\ andThen (get u (lit "user_id")) show = Faulty f
         /\ err = TypeError (TypeError_message P f))
      /\ env w' = env w
  end.
Proof.
  pose proof (confined_deleteMatched (fun _ => true) noKey false P eq_refl eq_refl
                s context users w) as Henv.
  apply within_env in Henv.
  pose proof (deleteEach_outcome P s (actor context (env w)) users [] [] w) as Ho.
  rewrite <- deleteMatched_eq in Ho.
  destruct (deleteMatched P s context users w) as [[[results rows]|err] w'];
    simpl in Henv.
  - destruct Ho as (new & newRows & -> & -> & Hwf & Hlen & Hle & Hp & Hin).
    simpl. split; [now apply processable_spec|].
    split; [now apply wellFormed_spec|].
    split; [exact Hlen|]. split; [exact Hle|]. split; [exact Hin|exact Henv].
  - split; [exact Ho|exact Henv].
Qed.

(** X10: [deleteUser] returns exactly when the id has a text that was
    encoded and the service answered the request with a successful status;
    an answer with another status is thrown as an error that names the status
    and carries the body of the answer; an id without text is a type error,
    thrown before anything is sent. *)
Theorem deleteUser_outcome (P : Platform) (domain tok : jsstring)
    (userId : JsValue) (w : World) :
  (fst (deleteUser P domain tok userId w) = Returned tt <->
   exists label encodedId res,
     show userId = Fine label
     /\ encodeURIComponent P label = Returned encodedId
     /\ fetch P (trace w) (deleteRequest domain tok encodedId) = Returned res
     /\ res_ok res = true)
  /\ (forall label encodedId res text,
        show userId = Fine label ->
        encodeURIComponent P label = Returned encodedId ->
        fetch P (trace w) (deleteRequest domain tok encodedId) = Returned res ->
        res_ok res = false -> res_text res = Returned text ->
        fst (deleteUser P domain tok userId w)
        = Thrown (Error (lit "Delete failed HTTP " ++ natural (res_status res)
                         ++ lit ": " ++ text)))
  /\ (forall f,
        show userId = Faulty f ->
        deleteUser P domain tok userId w
        = (Thrown (TypeError (TypeError_message P f)), w)).
Proof.
  split; [|split].
  - unfold deleteUser. unfold bind at 1.
    destruct (show userId) as [label|f] eqn:Hshow.
    2:{ simpl. split; [discriminate|]. intros (l & x & r & H & _). discriminate. }
    rewrite engine_fine. run.
    destruct (encodeURIComponent P label) as [enc|e] eqn:He; simpl.
    2:{ split; [discriminate|]. intros (l & x & r & [= <-] & H & _). congruence. }
    destruct (fetch P (trace w) (deleteRequest domain tok enc)) as [res|e] eqn:Hf;
      simpl.
    2:{ split; [discriminate|].
        intros (l & x & r & [= <-] & H1 & H2 & _). congruence. }
    destruct (res_ok res) eqn:Hok; simpl.
    + split; [|reflexivity]. intros _. now exists label, enc, res.
    + split.
      * destruct (res_text res); discriminate.
      * intros (l & x & r & [= <-] & H1 & H2 & Hr). congruence.
  - intros label enc res text Hs He Hf Hok Ht. unfold deleteUser. unfold bind at 1.
    rewrite Hs, engine_fine. run.
    now rewrite He; simpl; rewrite Hf; simpl; rewrite Hok; simpl; rewrite Ht.
  - intros f Hf. now apply deleteUser_unprintable.
Qed.

(* ===================================================================== *)
(** ** When the ledger is written *)
(* ===================================================================== *)

Lemma writeLedger_nothing (P : Platform) (s : Settings) (w : World) :
  writeLedger P s [] w =
  (Returned tt,
   if present (S3_BUCKET s) then w
   else record (Console WARN [LStr (lit "S3_BUCKET not set; skipping CSV write.")]) w).
Proof.
  unfold writeLedger. simpl. now destruct (present (S3_BUCKET s)).
Qed.

(** X11: when every deletion of an invocation fails, the ledger object is
    neither read nor written: after the loop the handler logs the warning if
    no bucket is configured, does nothing else, and answers 200 with the
    failure entries. *)
Theorem no_deletion_no_ledger (P : Platform) (event : LambdaEvent)
    (context : LambdaContext) (w0 w1 w2 w3 : World) (s : Settings)
    (u : Json) (users : list Json) (results : list ResultEntry)
    (csvRows : list jsstring) :
  resolve P event w0 = (Returned s, w1) ->
  findUsers P s w1 = (Returned (u :: users), w2) ->
  deleteMatched P s context (u :: users) w2 = (Returned (results, csvRows), w3) ->
  (forall r, In r results -> entry_deleted r = false) ->
  csvRows = []
  /\ handler P event context w0 =
     (response 200 (completeBody (SSOID s) results),
      if present (S3_BUCKET s) then w3
      else record (Console WARN [LStr (lit "S3_BUCKET not set; skipping CSV write.")])
             w3).
Proof.
  intros Hres Hfind Hloop Hnone.
  assert (Hrows : csvRows = []).
  { pose proof (rows_have_entries _ _ _ _ _ _ _ _ Hloop) as Hle.
    assert (Hz : deletedCount results = 0%nat).
    { unfold deletedCount. clear -Hnone.
      induction results as [|r results IH]; [reflexivity|]. simpl.
      rewrite (Hnone r (or_introl eq_refl)). apply IH.
      intros r' Hr'. apply Hnone. now right. }
    rewrite Hz in Hle. destruct csvRows; [reflexivity|simpl in Hle; lia]. }
  split; [exact Hrows|]. subst csvRows.
  unfold handler. rewrite (attempt_resolved _ _ _ _ _ _ Hres).
  rewrite (process_eq _ _ _ _ _ _ Hfind).
  rewrite (proceed_eq _ _ _ _ _ _ _ _ Hloop).
  now rewrite writeLedger_nothing.
Qed.

(** What the ledger step writes: nothing, or the next content made of the
    content it has just read and of the rows. *)
Lemma writeLedger_writes (P : Platform) (s : Settings) (csvRows : list jsstring)
    (w : World) :
  exists written,
    s3Writes (trace (snd (writeLedger P s csvRows w))) = s3Writes (trace w) ++ written
    /\ (written = []
        \/ exists bucket existing,
             csvRows <> [] /\ S3_BUCKET s = Some bucket /\ bucket <> []
             /\ (s3_GetObject P (trace w) bucket (S3_KEY s) = Returned existing
                 \/ existing = []
                    /\ exists e, s3_GetObject P (trace w) bucket (S3_KEY s) = Thrown e
                                 /\ isNotFound e = true)
             /\ written = [nextContent existing csvRows]).
Proof.
  unfold writeLedger.
  destruct ((0 <? length csvRows)%nat && present (S3_BUCKET s)) eqn:E.
  - apply andb_true_iff in E as [Hlen Hb].
    assert (Hne : csvRows <> []) by (destruct csvRows; [discriminate|congruence]).
    destruct (S3_BUCKET s) as [bucket|] eqn:Ebucket; [|discriminate].
    assert (Hbne : bucket <> []) by (destruct bucket; [discriminate|congruence]).
    simpl default. unfold tryCatch.
    destruct (s3_GetObject P (trace w) bucket (S3_KEY s)) as [existing|e] eqn:Hget.
    + rewrite (appendRows_after_read _ _ _ _ _ _ Hget), putObject_eq.
      exists [nextContent existing csvRows]. split.
      * destruct (s3_PutObject P _ _ _ _ _) as [[]|e]; simpl;
          rewrite ?s3Writes_app; simpl; now rewrite ?app_nil_r, <- ?app_assoc.
      * right. exists bucket, existing. repeat split; auto.
    + rewrite (appendRows_after_failed_read _ _ _ _ _ _ Hget).
      destruct (isNotFound e) eqn:Enf.
      * rewrite putObject_eq. exists [nextContent [] csvRows]. split.
        -- destruct (s3_PutObject P _ _ _ _ _) as [[]|e']; simpl;
             rewrite ?s3Writes_app; simpl; now rewrite ?app_nil_r, <- ?app_assoc.
        -- right. exists bucket, []. repeat split; auto. right. split; [reflexivity|].
           now exists e.
      * exists []. split; [|now left]. simpl.
        rewrite !s3Writes_app. simpl. now rewrite !app_nil_r.
  - exists []. split; [|now left].
    destruct (negb (present (S3_BUCKET s))); simpl;
      rewrite ?s3Writes_app; simpl; now rewrite ?app_nil_r.
Qed.

(** X12: an invocation writes the ledger object at most once.  What it
    writes is made of the content it has just read from the configured
    bucket and key (the empty content when the read failed with the
    not-found condition) and of the rows the loop has built, which are not
    none: that content with the canonical header put first unless the header
    test accepts it, followed by the rows; the header test accepts what is
    written. *)
Theorem at_most_one_write (P : Platform) (event : LambdaEvent)
    (context : LambdaContext) (w : World) :
  exists written,
    s3Writes (trace (snd (handler P event context w)))
    = s3Writes (trace w) ++ written
    /\ (written = []
        \/ exists s w1 users w2 results rows w3 bucket existing,
             resolve P event w = (Returned s, w1)
             /\ findUsers P s w1 = (Returned users, w2)
             /\ deleteMatched P s context users w2 = (Returned (results, rows), w3)
             /\ rows <> [] /\ S3_BUCKET s = Some bucket /\ bucket <> []
             /\ (s3_GetObject P (trace w3) bucket (S3_KEY s) = Returned existing
                 \/ existing = []
                    /\ exists e, s3_GetObject P (trace w3) bucket (S3_KEY s) = Thrown e
                                 /\ isNotFound e = true)
             /\ written
                = [ (if hasHeader existing then existing
                     else CSV_HEADER ++ stripBom existing) ++ concat rows ]
             /\ hasHeader ((if hasHeader existing then existing
                            else CSV_HEADER ++ stripBom existing) ++ concat rows)
                = true).
Proof.
  unfold handler.
  pose proof (confined_resolve (allBut KS3Put) P event eq_refl eq_refl eq_refl w)
    as Hres.
  destruct (resolve P event w) as [[s|err] w1] eqn:Eres;
    simpl in Hres; (apply within_writes in Hres; [|reflexivity]).
  2:{ rewrite (attempt_unresolved _ _ _ _ _ _ Eres). exists []. split; [|now left].
      simpl. rewrite s3Writes_app. simpl. now rewrite !app_nil_r. }
  rewrite (attempt_resolved _ _ _ _ _ _ Eres).
  destruct (process_outcome P s context w1) as (users & w2 & Efind & ->).
  pose proof (confined_findUsers (allBut KS3Put) (fun _ => true) true P
                eq_refl eq_refl s w1) as Hfind.
  rewrite Efind in Hfind. simpl in Hfind.
  apply within_writes in Hfind; [|reflexivity].
  destruct users as [|u users].
  { exists []. split; [|now left]. simpl.
    rewrite s3Writes_app. simpl. now rewrite !app_nil_r, Hfind, Hres. }
  pose proof (confined_deleteMatched (allBut KS3Put) (fun _ => true) true P
                eq_refl eq_refl s context (u :: users) w2) as Hdel.
  apply within_writes in Hdel; [|reflexivity].
  destruct (deleteMatched P s context (u :: users) w2) as [[[results rows]|err] w3]
    eqn:Eloop; simpl in Hdel.
  2:{ exists []. split; [|now left]. simpl.
      rewrite s3Writes_app. simpl. now rewrite !app_nil_r, Hdel, Hfind, Hres. }
  destruct (writeLedger_writes P s rows w3) as (written & Hw & Hshape).
  exists written. simpl. split; [now rewrite Hw, Hdel, Hfind, Hres|].
  destruct Hshape as [->|(bucket & existing & Hne & Hb & Hbne & Hread & ->)];
    [now left|].
  right. exists s, w1, (u :: users), w2, results, rows, w3, bucket, existing.
  split; [reflexivity|]. split; [exact Efind|]. split; [exact Eloop|].
  split; [exact Hne|]. split; [exact Hb|]. split; [exact Hbne|].
  split; [exact Hread|].
  assert (Hcontent : nextContent existing rows
                     = (if hasHeader existing then existing
                        else CSV_HEADER ++ stripBom existing) ++ concat rows).
  { destruct (hasHeader existing) eqn:Eh.
    - now apply nextContent_header_present.
    - rewrite (nextContent_header_missing _ _ Eh). now rewrite <- app_assoc. }
  rewrite <- Hcontent. split; [reflexivity|]. apply nextContent_hasHeader.
Qed.

(* ===================================================================== *)
(** ** The token, the target id and the settings *)
(* ===================================================================== *)

Lemma getMgmtToken_eq (P : Platform) (domain clientId clientSecret audience : jsstring) :
  truthy domain = true -> truthy clientId = true -> truthy clientSecret = true ->
  truthy audience = true ->
  getMgmtToken P domain clientId clientSecret audience =
  bind (callFetch P (tokenRequest domain clientId clientSecret audience)) (readToken P).
Proof.
  intros Hd Hc Hs Ha. unfold getMgmtToken. now rewrite Hd, Hc, Hs, Ha.
Qed.

Lemma getMgmtToken_empty (P : Platform) (domain clientId clientSecret audience : jsstring)
    (w : World) :
  truthy domain && truthy clientId && truthy clientSecret && truthy audience = false ->
  exists e, getMgmtToken P domain clientId clientSecret audience w = (Thrown e, w).
Proof.
  intros H. unfold getMgmtToken.
  destruct (truthy domain); simpl in *; [|eexists; reflexivity].
  destruct (truthy clientId); simpl in *; [|eexists; reflexivity].
  destruct (truthy clientSecret); simpl in *; [|eexists; reflexivity].
  destruct (truthy audience); simpl in *; [discriminate|eexists; reflexivity].
Qed.

Lemma present_default (o : option jsstring) :
  present o = true -> o = Some (default [] o) /\ default [] o <> [].
Proof. destruct o as [[|c s]|]; simpl; intros H; try discriminate. now split. Qed.

Lemma getMgmtToken_returns (P : Platform)
    (domain clientId clientSecret audience : jsstring) (w : World) :
  let req := tokenRequest domain clientId clientSecret audience in
  forall tok w',
    getMgmtToken P domain clientId clientSecret audience w = (Returned tok, w') ->
    tok <> []
    /\ w' = record (FetchCall req) w
    /\ exists res text,
         fetch P (trace w) req = Returned res /\ res_ok res = true
         /\ res_text res = Returned text
         /\ JSON_parse_access_token P text = Returned (Some tok).
Proof.
  intros req tok w' H.
  destruct (truthy domain && truthy clientId && truthy clientSecret && truthy audience)
    eqn:E.
  2:{ destruct (getMgmtToken_empty P _ _ _ _ w E) as [e He]. congruence. }
  apply andb_true_iff in E as [E Ha]. apply andb_true_iff in E as [E Hs].
  apply andb_true_iff in E as [Hd Hc].
  rewrite (getMgmtToken_eq P _ _ _ _ Hd Hc Hs Ha) in H. fold req in H.
  unfold bind at 1 in H. unfold callFetch, bind, history, emit, lift in H.
  simpl in H.
  destruct (fetch P (trace w) req) as [res|e] eqn:Hf; [|discriminate].
  unfold readToken, bind, lift in H.
  destruct (res_text res) as [text|e] eqn:Ht; [|discriminate].
  destruct (res_ok res) eqn:Hok; simpl in H.
  2:{ destruct (includes text _ && includes text _); discriminate. }
  destruct (JSON_parse_access_token P text) as [o|e] eqn:Ep; [|discriminate].
  destruct (present o) eqn:Eo; [|discriminate].
  injection H as <- <-. destruct (present_default o Eo) as [Ho Hne].
  split; [exact Hne|]. split; [reflexivity|].
  exists res, text. split; [reflexivity|]. split; [exact Hok|].
  split; [exact Ht|]. rewrite Ep. f_equal. exact Ho.
Qed.

(** X13: [getMgmtToken] returns a token only when its request was answered
    with a successful status and a body in which [access_token] is a non-empty
    text, which is the token returned; it has then sent that one request.  An
    answer with another status is thrown as an error whose message ends with
    the body of the answer. *)
Theorem getMgmtToken_outcome (P : Platform)
    (domain clientId clientSecret audience : jsstring) (w : World) :
  let req := tokenRequest domain clientId clientSecret audience in
  (forall tok w',
     getMgmtToken P domain clientId clientSecret audience w = (Returned tok, w') ->
     tok <> []
     /\ w' = record (FetchCall req) w
     /\ exists res text,
          fetch P (trace w) req = Returned res /\ res_ok res = true
          /\ res_text res = Returned text
          /\ JSON_parse_access_token P text = Returned (Some tok))
  /\ (forall res text,
        truthy domain = true -> truthy clientId = true ->
        truthy clientSecret = true -> truthy audience = true ->
        fetch P (trace w) req = Returned res -> res_ok res = false ->
        res_text res = Returned text ->
        exists prefix,
          fst (getMgmtToken P domain clientId clientSecret audience w)
          = Thrown (Error (prefix ++ text))).
Proof.
  intros req. split.
  - apply getMgmtToken_returns.
  - intros res text Hd Hc Hs Ha Hf Hok Ht.
    rewrite (getMgmtToken_eq P _ _ _ _ Hd Hc Hs Ha). fold req.
    unfold bind at 1. unfold callFetch, bind, history, emit, lift. simpl.
    rewrite Hf. unfold readToken, bind, lift. rewrite Ht, Hok. simpl.
    destruct (includes text _ && includes text _); simpl.
    + eexists. reflexivity.
    + eexists. unfold Error. do 2 f_equal.
      rewrite !app_assoc. reflexivity.
Qed.

Lemma truthy_opt_or (o : option jsstring) (d : jsstring) :
  truthy d = true -> truthy (opt_or o d) = true.
Proof.
  intros H. destruct o as [[|c s]|]; simpl; auto.
Qed.

Lemma truthy_lit_app (c : N) (tl rest : jsstring) (l : jsstring) :
  l = c :: tl -> truthy (l ++ rest) = true.
Proof. intros ->. reflexivity. Qed.

Lemma truthy_default_audience (host : jsstring) :
  truthy (lit "https://" ++ host ++ lit "/api/v2/") = true.
Proof. now apply (truthy_lit_app _ _ _ _ https_units). Qed.

Lemma truthy_placeholder : truthy (lit "REPLACE_WITH_SSOID") = true.
Proof. vm_compute. reflexivity. Qed.

Lemma truthy_local : truthy (lit "local") = true.
Proof. vm_compute. reflexivity. Qed.

Lemma truthy_default_key : truthy (lit "output/deleted_users.csv") = true.
Proof. vm_compute. reflexivity. Qed.

(** X14: the target id and the actor are never empty, and an empty
    candidate counts as an absent one: [getSsoid] takes the path parameter,
    else the query parameter, else the SSOID of the environment, else the
    placeholder; [getDeletedBy] takes the function name of the context, else
    AWS_LAMBDA_FUNCTION_NAME, else DELETED_BY, else the word local. *)
Theorem target_and_actor (event : LambdaEvent) (context : LambdaContext) (w : World) :
  let e := env w in
  getSsoid event w = (Returned (target event e), w)
  /\ getDeletedBy context w = (Returned (actor context e), w)
  /\ target event e <> [] /\ actor context e <> []
  /\ (forall v, v <> [] -> pathParameters_ssoid event = Some v -> target event e = v)
  /\ (forall v, v <> [] -> present (pathParameters_ssoid event) = false ->
        queryStringParameters_ssoid event = Some v -> target event e = v)
  /\ (forall v, v <> [] -> present (pathParameters_ssoid event) = false ->
        present (queryStringParameters_ssoid event) = false ->
        e !! lit "SSOID" = Some v -> target event e = v)
  /\ (forall v, v <> [] -> functionName context = Some v -> actor context e = v)
  /\ (forall v, v <> [] -> present (functionName context) = false ->
        e !! lit "AWS_LAMBDA_FUNCTION_NAME" = Some v -> actor context e = v)
  /\ (forall v, v <> [] -> present (functionName context) = false ->
        present (e !! lit "AWS_LAMBDA_FUNCTION_NAME") = false ->
        e !! lit "DELETED_BY" = Some v -> actor context e = v).
Proof.
  intros e. subst e.
  assert (Hne : forall s, truthy s = true -> s <> []) by (intros [|c s]; easy).
  assert (Hv : forall v d, v <> [] -> opt_or (Some v) d = v)
    by (intros [|c v] d H; [congruence|reflexivity]).
  assert (Hf : forall o d, present o = false -> opt_or o d = d)
    by (intros [[|c v]|] d H; simpl in *; try discriminate; reflexivity).
  split; [reflexivity|]. split; [reflexivity|].
  split; [apply Hne; unfold target; repeat apply truthy_opt_or; apply truthy_placeholder|].
  split; [apply Hne; unfold actor; repeat apply truthy_opt_or; apply truthy_local|].
  unfold target, actor. repeat split.
  - intros v Hv' ->. now apply Hv.
  - intros v Hv' Hp ->. rewrite (Hf _ _ Hp). now apply Hv.
  - intros v Hv' Hp Hq ->. rewrite (Hf _ _ Hp), (Hf _ _ Hq). now apply Hv.
  - intros v Hv' ->. now apply Hv.
  - intros v Hv' Hp ->. rewrite (Hf _ _ Hp). now apply Hv.
  - intros v Hv' Hp Hq ->. rewrite (Hf _ _ Hp), (Hf _ _ Hq). now apply Hv.
Qed.

Lemma getMgmtToken_trace (P : Platform)
    (domain clientId clientSecret audience : jsstring) (w : World) :
  truthy domain = true -> truthy clientId = true -> truthy clientSecret = true ->
  truthy audience = true ->
  trace (snd (getMgmtToken P domain clientId clientSecret audience w))
  = trace w ++ [FetchCall (tokenRequest domain clientId clientSecret audience)].
Proof.
  intros Hd Hc Hs Ha. rewrite (getMgmtToken_eq P _ _ _ _ Hd Hc Hs Ha).
  unfold bind at 1. unfold callFetch, bind, history, emit, lift. simpl.
  destruct (fetch P (trace w) _) as [res|e]; [|reflexivity].
  unfold readToken, bind, lift.
  destruct (res_text res) as [text|e]; [|reflexivity].
  destruct (res_ok res); simpl.
  2:{ now destruct (includes text _ && includes text _). }
  destruct (JSON_parse_access_token P text) as [o|e]; [|reflexivity].
  now destruct (present o).
Qed.

Lemma firstMissing_none (e : gmap jsstring jsstring) :
  firstMissing e = None ->
  present (e !! lit "AUTH0_DOMAIN") = true
  /\ present (e !! lit "AUTH0_CLIENT_ID") = true
  /\ present (e !! lit "AUTH0_CLIENT_SECRET") = true.
Proof.
  unfold firstMissing, REQUIRED_KEYS. simpl.
  destruct (present (e !! lit "AUTH0_DOMAIN")); simpl; [|discriminate].
  destruct (present (e !! lit "AUTH0_CLIENT_ID")); simpl; [|discriminate].
  destruct (present (e !! lit "AUTH0_CLIENT_SECRET")); simpl; [|discriminate].
  auto.
Qed.

Lemma truthy_present_default (o : option jsstring) :
  present o = true -> truthy (default [] o) = true.
Proof. now destruct o as [[|c s]|]. Qed.

(** What [configure] does once the required settings are there. *)
Lemma configure_eq (P : Platform) (event : LambdaEvent) (w : World) :
  firstMissing (env w) = None ->
  let domain := default [] (env w !! lit "AUTH0_DOMAIN") in
  let audience :=
    opt_or (env w !! lit "AUTH0_AUDIENCE")
      (lit "https://" ++ stripProtocol domain ++ lit "/api/v2/") in
  configure P event w =
  match getMgmtToken P domain (default [] (env w !! lit "AUTH0_CLIENT_ID"))
          (default [] (env w !! lit "AUTH0_CLIENT_SECRET")) audience w with
  | (Returned tok, w') =>
      (Returned {| AUTH0_DOMAIN := domain; AUTH0_AUDIENCE := audience;
                   S3_BUCKET := env w !! lit "S3_BUCKET";
                   S3_KEY := opt_or (env w !! lit "S3_KEY")
                               (lit "output/deleted_users.csv");
                   token := tok; SSOID := target event (env w') |}, w')
  | (Thrown e, w') => (Thrown e, w')
  end.
Proof.
  intros H domain audience. apply firstMissing_none in H as (Hd & Hc & Hs).
  unfold configure. unfold bind at 1. rewrite (mustEnv_present _ _ Hd).
  unfold bind at 1. unfold getenv at 1. unfold bind at 1. unfold getenv at 1.
  unfold bind at 1. unfold getenv at 1.
  unfold bind at 1. rewrite (mustEnv_present _ _ Hc).
  unfold bind at 1. rewrite (mustEnv_present _ _ Hs).
  unfold bind at 1. fold domain. fold audience.
  destruct (getMgmtToken P domain _ _ audience w) as [[tok|e] w']; reflexivity.
Qed.

(** X15: once the three required settings are present, the resolution of
    the settings sends one request and no other: the token request, whose
    audience is AUTH0_AUDIENCE or, when that is absent or empty, the
    Management API of the domain.  It leaves the environment alone, and the
    settings it returns have the defaults applied: of all their fields only
    the bucket can be empty or absent. *)
Theorem settings_resolved (P : Platform) (event : LambdaEvent) (w : World) :
  firstMissing (env w) = None ->
  let domain := default [] (env w !! lit "AUTH0_DOMAIN") in
  let audience :=
    opt_or (env w !! lit "AUTH0_AUDIENCE")
      (lit "https://" ++ stripProtocol domain ++ lit "/api/v2/") in
  fetchCalls (trace (snd (configure P event w)))
  = fetchCalls (trace w)
    ++ [tokenRequest domain (default [] (env w !! lit "AUTH0_CLIENT_ID"))
          (default [] (env w !! lit "AUTH0_CLIENT_SECRET")) audience]
  /\ env (snd (configure P event w)) = env w
  /\ (forall s w',
        configure P event w = (Returned s, w') ->
        AUTH0_DOMAIN s = domain /\ AUTH0_AUDIENCE s = audience
        /\ S3_BUCKET s = env w !! lit "S3_BUCKET"
        /\ S3_KEY s = opt_or (env w !! lit "S3_KEY") (lit "output/deleted_users.csv")
        /\ SSOID s = target event (env w)
        /\ AUTH0_DOMAIN s <> [] /\ AUTH0_AUDIENCE s <> [] /\ S3_KEY s <> []
        /\ token s <> [] /\ SSOID s <> []).
Proof.
  intros H domain audience.
  pose proof (firstMissing_none _ H) as (Hd & Hc & Hs).
  assert (Td : truthy domain = true) by now apply truthy_present_default.
  assert (Tc : truthy (default [] (env w !! lit "AUTH0_CLIENT_ID")) = true)
    by now apply truthy_present_default.
  assert (Ts : truthy (default [] (env w !! lit "AUTH0_CLIENT_SECRET")) = true)
    by now apply truthy_present_default.
  assert (Ta : truthy audience = true)
    by (apply truthy_opt_or, truthy_default_audience).
  assert (Hne : forall x, truthy x = true -> x <> []) by (intros [|c x]; easy).
  assert (Henv : env (snd (configure P event w)) = env w).
  { apply (within_env (fun _ => true) false).
    now apply (confined_configure (fun _ => true) noKey false P). }
  pose proof (getMgmtToken_trace P _ _ _ _ w Td Tc Ts Ta) as Htrace.
  rewrite (configure_eq P event w H) in *. fold domain audience in Henv, Htrace |- *.
  pose proof (getMgmtToken_returns P domain
                (default [] (env w !! lit "AUTH0_CLIENT_ID"))
                (default [] (env w !! lit "AUTH0_CLIENT_SECRET")) audience w) as Hout.
  destruct (getMgmtToken P domain _ _ audience w) as [[tok|e] w1]; simpl in *.
  - split; [now rewrite Htrace, fetchCalls_app|]. split; [exact Henv|].
    intros s w' [= <- <-]. simpl. rewrite Henv.
    repeat split; auto.
    + apply Hne, truthy_opt_or, truthy_default_key.
    + now apply (Hout tok w1).
    + apply Hne. unfold target. repeat apply truthy_opt_or. apply truthy_placeholder.
  - split; [now rewrite Htrace, fetchCalls_app|]. split; [exact Henv|].
    intros s w' [=].
Qed.

(* ===================================================================== *)
(** ** More on the configuration resolver *)
(* ===================================================================== *)

Lemma fillIfUnset_returns (key value : jsstring) (w : World) :
  fst (fillIfUnset key value w) = Returned tt.
Proof.
  unfold fillIfUnset, bind, getenv. simpl.
  now destruct (bool_decide (key ∈ EXPECTED_KEYS) && negb (present (env w !! key))).
Qed.

Lemma fillIfUnset_other (key value k : jsstring) (w : World) :
  key <> k -> env (snd (fillIfUnset key value w)) !! k = env w !! k.
Proof.
  intros Hne. unfold fillIfUnset, bind, getenv. simpl.
  destruct (bool_decide (key ∈ EXPECTED_KEYS) && negb (present (env w !! key)));
    simpl; [|reflexivity].
  now apply lookup_insert_ne.
Qed.

Lemma fillIfUnset_sets (k value : jsstring) (w : World) :
  k ∈ EXPECTED_KEYS -> present (env w !! k) = false ->
  env (snd (fillIfUnset k value w)) !! k = Some value.
Proof.
  intros Hin Hp. unfold fillIfUnset, bind, getenv. simpl.
  rewrite (bool_decide_eq_true_2 _ Hin), Hp. simpl. apply lookup_insert_eq.
Qed.

Lemma fillIfUnset_trace (key value : jsstring) (w : World) :
  trace (snd (fillIfUnset key value w)) = trace w.
Proof.
  unfold fillIfUnset, bind, getenv. simpl.
  now destruct (bool_decide (key ∈ EXPECTED_KEYS) && negb (present (env w !! key))).
Qed.

Lemma forEach_cons_fill {A} (key value : A -> jsstring) (x : A) (l : list A)
    (w : World) :
  forEach (x :: l) (fun p => fillIfUnset (key p) (value p)) w
  = forEach l (fun p => fillIfUnset (key p) (value p))
      (snd (fillIfUnset (key x) (value x) w)).
Proof.
  simpl. unfold bind at 1.
  pose proof (fillIfUnset_returns (key x) (value x) w) as H.
  destruct (fillIfUnset (key x) (value x) w) as [[[]|e] w1]; simpl in *;
    [reflexivity|discriminate].
Qed.

Lemma fills_return {A} (key value : A -> jsstring) (l : list A) :
  forall w, fst (forEach l (fun p => fillIfUnset (key p) (value p)) w) = Returned tt.
Proof.
  induction l as [|x l IH]; intros w; [reflexivity|].
  rewrite forEach_cons_fill. apply IH.
Qed.

Lemma replaceFirst_prefix (p k : jsstring) : replaceFirst p [] (p ++ k) = k.
Proof.
  destruct p as [|c p]; [now destruct k|].
  cbn [replaceFirst app]. change (c :: p ++ k) with ((c :: p) ++ k).
  rewrite startsWith_app. simpl. now rewrite skipn_app, skipn_all, Nat.sub_diag.
Qed.

(** The flat parameters of a list of distinct unset keys fill those keys. *)
Lemma flat_parameters_fill (value : jsstring -> jsstring) (l : list jsstring) :
  forall w,
    NoDup l ->
    (forall k, In k l -> k ∈ EXPECTED_KEYS /\ present (env w !! k) = false) ->
    forall k, In k l ->
      env (snd (forEach (List.map (flatParameter value) l)
                  (fun p => fillIfUnset (replaceFirst FLAT_PREFIX [] (Name p)) (Value p))
                  w)) !! k
      = Some (value k).
Proof.
  induction l as [|k0 l IH]; intros w Hnd Hl k Hk; [destruct Hk|].
  apply NoDup_cons in Hnd as [Hnot Hnd].
  cbn [List.map]. rewrite forEach_cons_fill.
  cbn [flatParameter Name Value]. rewrite replaceFirst_prefix.
  destruct Hk as [<-|Hk].
  - destruct (Hl k0 (or_introl eq_refl)) as [Hin Hp].
    pose proof (fillIfUnset_sets k0 (value k0) w Hin Hp) as Hset.
    revert Hset. generalize (snd (fillIfUnset k0 (value k0) w)). intros w1 Hset.
    clear -Hnot Hset. revert w1 Hset.
    induction l as [|k1 l IHl]; intros w1 Hset; [exact Hset|].
    cbn [List.map]. rewrite forEach_cons_fill.
    cbn [flatParameter Name Value]. rewrite replaceFirst_prefix.
    apply IHl.
    + intros Hin. apply Hnot. now right.
    + rewrite fillIfUnset_other; [exact Hset|].
      intros ->. apply Hnot. now left.
  - apply IH; auto. intros k' Hk'.
    destruct (Hl k' (or_intror Hk')) as [Hin Hp]. split; [exact Hin|].
    rewrite fillIfUnset_other; [exact Hp|].
    intros ->. apply Hnot. apply list_elem_of_In. exact Hk'.
Qed.

Lemma expected_keys_distinct : NoDup EXPECTED_KEYS.
Proof.
  apply (bool_decide_unpack _). vm_compute. reflexivity.
Qed.

(** X16: the flat-name phase alone fills every recognized key that is unset:
    when the store answers the batched request with the parameter of each name
    asked for, each recognized key that was absent or empty gets the value of
    its flat-named parameter. *)
Theorem flat_phase_fills (P : Platform) (w : World) (value : jsstring -> jsstring)
    (resp : GetParametersResult) :
  let missing := List.filter (fun k => negb (present (env w !! k))) EXPECTED_KEYS in
  ssm_GetParameters P (trace w) (List.map (fun k => FLAT_PREFIX ++ k) missing)
  = Returned resp ->
  gp_Parameters resp = Some (List.map (flatParameter value) missing) ->
  forall k, In k EXPECTED_KEYS -> present (env w !! k) = false ->
    env (snd (flatPhase P w)) !! k = Some (value k).
Proof.
  intros missing Hresp Hparams k Hin Hp.
  assert (Hk : In k missing)
    by (apply List.filter_In; split; [exact Hin|now rewrite Hp]).
  assert (Hnd : NoDup missing)
    by (unfold missing; apply NoDup_ListNoDup, List.NoDup_filter, NoDup_ListNoDup,
          expected_keys_distinct).
  assert (Hall : forall k', In k' missing ->
                   k' ∈ EXPECTED_KEYS /\ present (env w !! k') = false).
  { intros k' Hk'. apply List.filter_In in Hk' as [Hin' Hp'].
    split; [now apply list_elem_of_In|]. now apply negb_true_iff. }
  unfold flatPhase. fold missing.
  destruct missing as [|m rest] eqn:Em; [destruct Hk|].
  unfold bind at 1. unfold emit at 1. unfold bind at 1. unfold lift at 1.
  rewrite Hresp. unfold bind at 1. rewrite Hparams.
  change (default [] (Some (List.map (flatParameter value) (m :: rest))))
    with (List.map (flatParameter value) (m :: rest)).
  pose proof (fills_return (fun p => replaceFirst FLAT_PREFIX [] (Name p)) Value
                (List.map (flatParameter value) (m :: rest))
                (record (SsmGetParameters
                   (List.map (fun k => FLAT_PREFIX ++ k) (m :: rest))) w)) as Hret.
  pose proof (flat_parameters_fill value (m :: rest)
                (record (SsmGetParameters
                   (List.map (fun k => FLAT_PREFIX ++ k) (m :: rest))) w)
                Hnd Hall k Hk) as Hfill.
  destruct (forEach (List.map (flatParameter value) (m :: rest)) _ _)
    as [[[]|e] w1]; simpl in Hret, Hfill; [|discriminate].
  destruct (gp_InvalidParameters resp) as [[|i invalid]|]; exact Hfill.
Qed.

Lemma hierarchicalPhase_eq (P : Platform) (w : World) :
  hierarchicalPhase P w =
  match listingPath (env w) with
  | Some path => loadPages path None (ssm_GetParametersByPath P (trace w) path) w
  | None => (Returned tt, w)
  end.
Proof.
  unfold hierarchicalPhase, listingPath. unfold bind at 1. unfold getenv.
  cbv zeta. destruct (startsWith _ [SLASH]); reflexivity.
Qed.



Lemma fillIfUnset_still_unset (key value k : jsstring) (w : World) :
  present (env w !! k) = false -> (key = k -> value = []) ->
  present (env (snd (fillIfUnset key value w)) !! k) = false.
Proof.
  intros Hp Hv. destruct (decide (key = k)) as [->|Hne].
  - rewrite (Hv eq_refl). unfold fillIfUnset, bind, getenv. simpl.
    destruct (bool_decide (k ∈ EXPECTED_KEYS) && negb (present (env w !! k)));
      simpl; [|exact Hp].
    now rewrite lookup_insert_eq.
  - now rewrite fillIfUnset_other.
Qed.

Lemma fills_first_wins (before after : list SsmParameter) (p : SsmParameter)
    (k : jsstring) :
  k ∈ EXPECTED_KEYS -> afterLastSlash (Name p) = k -> Value p <> [] ->
  (forall q, In q before -> afterLastSlash (Name q) = k -> Value q = []) ->
  forall w, present (env w !! k) = false ->
    env (snd (forEach (before ++ p :: after)
                (fun p => fillIfUnset (afterLastSlash (Name p)) (Value p)) w)) !! k
    = Some (Value p).
Proof.
  intros Hin Hkey Hv. induction before as [|q before IH]; intros Hq w Hp.
  - cbn [app]. rewrite forEach_cons_fill.
    apply (keeps_forEach after
             (fun p => fillIfUnset (afterLastSlash (Name p)) (Value p))).
    + intros a. apply keeps_fillIfUnset.
    + rewrite Hkey. now apply fillIfUnset_sets.
    + exact Hv.
  - cbn [app]. rewrite forEach_cons_fill. apply IH.
    + intros q' Hq'. apply Hq. now right.
    + apply fillIfUnset_still_unset; [exact Hp|]. apply Hq. now left.
Qed.

(** X18: the short name of a listed parameter is what follows its last
    slash, so that parameters of different sub-paths can name the same key;
    of the parameters of the first page that name an unset recognized key, the
    first one listed whose value is not empty gives the key its value: a
    parameter listed before it with an empty value leaves the key unset. *)
Theorem first_listed_value_wins (P : Platform) (w : World) (path : jsstring)
    (before after : list SsmParameter) (p : SsmParameter) (k : jsstring) :
  listingPath (env w) = Some path ->
  firstPage (ssm_GetParametersByPath P (trace w) path) = before ++ p :: after ->
  In k EXPECTED_KEYS -> present (env w !! k) = false ->
  afterLastSlash (Name p) = k -> Value p <> [] ->
  (forall q, In q before -> afterLastSlash (Name q) = k -> Value q = []) ->
  env (snd (hierarchicalPhase P w)) !! k = Some (Value p).
Proof.
  intros Hpath Hpage Hin Hp Hkey Hv Hbefore.
  apply list_elem_of_In in Hin.
  rewrite hierarchicalPhase_eq, Hpath.
  destruct (ssm_GetParametersByPath P (trace w) path) as [ps|ps tok following|e];
    cbn [firstPage] in Hpage; cbn [loadPages]; unfold bind at 1; unfold emit at 1.
  - rewrite Hpage. now apply fills_first_wins.
  - rewrite Hpage. unfold bind at 1.
    pose proof (fills_return (fun p => afterLastSlash (Name p)) Value
                  (before ++ p :: after)
                  (record (SsmGetParametersByPath path None) w)) as Hret.
    pose proof (fills_first_wins before after p k Hin Hkey Hv Hbefore
                  (record (SsmGetParametersByPath path None) w) Hp) as Hset.
    destruct (forEach (before ++ p :: after) _ _) as [[[]|e] w1];
      simpl in Hret, Hset; [|discriminate].
    destruct (truthy tok).
    + now apply keeps_loadPages.
    + exact Hset.
  - exfalso. exact (app_cons_not_nil _ _ _ Hpage).
Qed.

(* ===================================================================== *)
(** ** The local harness *)
(* ===================================================================== *)

Lemma setDefault_eq (k d : jsstring) (w : World) :
  setDefault k d w =
  (Returned tt,
   {| env := <[k := opt_or (env w !! k) d]> (env w);
      paramsLoaded := paramsLoaded w; trace := trace w |}).
Proof. reflexivity. Qed.

Lemma localSetup_eq (w : World) :
  exists w',
    localSetup w = (Returned tt, w')
    /\ env w' !! lit "SSOID" = Some (opt_or (env w !! lit "SSOID") LOCAL_SSOID)
    /\ trace w' = trace w /\ paramsLoaded w' = paramsLoaded w.
Proof.
  unfold localSetup, bind. rewrite !setDefault_eq. simpl.
  eexists. split; [reflexivity|]. simpl. split; [|now split].
  rewrite lookup_insert_eq. f_equal. f_equal.
  rewrite !lookup_insert_ne; [reflexivity| |]; intros H; vm_compute in H; discriminate.
Qed.

Lemma truthy_local_ssoid : truthy LOCAL_SSOID = true.
Proof. vm_compute. reflexivity. Qed.

Lemma truthy_local_name : truthy (lit "local-auth0-cleanup") = true.
Proof. vm_compute. reflexivity. Qed.

Lemma resolve_inv (P : Platform) (event : LambdaEvent) (w w1 : World) (s : Settings) :
  resolve P event w = (Returned s, w1) ->
  exists wl,
    loadParamsIntoEnv P w = (Returned tt, wl)
    /\ configure P event wl = (Returned s, w1)
    /\ firstMissing (env wl) = None.
Proof.
  intros H. destruct (loadParamsIntoEnv P w) as [[[]|e] wl] eqn:El.
  - exists wl. split; [reflexivity|].
    assert (Hc : configure P event wl = (Returned s, w1))
      by (unfold resolve, bind in H; now rewrite El in H).
    split; [exact Hc|].
    destruct (firstMissing (env wl)) as [k|] eqn:Ek; [|reflexivity].
    rewrite (resolve_missing P event w wl k El Ek) in H. discriminate.
  - unfold resolve, bind in H. rewrite El in H. discriminate.
Qed.

(** The settings of a resolution that returns carry the target id of the
    environment the load left. *)
Lemma resolve_target (P : Platform) (event : LambdaEvent) (w w1 wl : World)
    (s : Settings) :
  loadParamsIntoEnv P w = (Returned tt, wl) ->
  configure P event wl = (Returned s, w1) ->
  firstMissing (env wl) = None ->
  SSOID s = target event (env wl).
Proof.
  intros Hl Hc Hm.
  pose proof (confined_configure (fun _ => true) noKey false P eq_refl event wl) as He.
  rewrite Hc in He. apply within_env in He. simpl in He.
  rewrite (configure_eq P event wl Hm) in Hc.
  destruct (getMgmtToken P _ _ _ _ wl) as [[tok|e] w']; [|discriminate].
  injection Hc as <- <-. simpl. now rewrite He.
Qed.

(** X19: a local run never sets the exit code, whatever the handler answers.
    Its target id is the SSOID of the environment or, when that is absent or
    empty, the id written in the script: the handler answers 500, or 200 with
    that id, and neither the placeholder nor an SSOID of the parameter store
    is ever used.  The actor of a local run is the name of the local
    function. *)
Theorem local_run (P : Platform) (pretty : jsstring -> Outcome jsstring) (w : World) :
  let id := opt_or (env w !! lit "SSOID") LOCAL_SSOID in
  let answer := fst (handler P localEvent localContext (snd (localSetup w))) in
  fst (localTest P pretty w) = None
  /\ id <> []
  /\ ((exists err, answer = response 500 (errorBody err))
      \/ answer = response 200 (notFoundBody id)
      \/ exists results, answer = response 200 (completeBody id results))
  /\ (forall e, actor localContext e = lit "local-auth0-cleanup").
Proof.
  intros id answer.
  destruct (localSetup_eq w) as (w3 & Hsetup & Hid & _).
  assert (Hne : id <> []).
  { unfold id. assert (H : truthy (opt_or (env w !! lit "SSOID") LOCAL_SSOID) = true)
      by apply truthy_opt_or, truthy_local_ssoid.
    intros E. rewrite E in H. discriminate. }
  split; [|split; [exact Hne|split]].
  - unfold localTest, localRun. unfold bind at 1. rewrite Hsetup.
    unfold bind at 1. cbv zeta. unfold bind at 1. unfold console at 1, emit at 1.
    unfold tryCatch, bind, lift, console, emit.
    destruct (pretty _); reflexivity.
  - subst answer. rewrite Hsetup. simpl snd. unfold handler.
    destruct (resolve P localEvent w3) as [[s|err] w1] eqn:Eres.
    + destruct (resolve_inv P localEvent w3 w1 s Eres) as (wl & Hl & Hc & Hm).
      assert (Hs : SSOID s = id).
      { rewrite (resolve_target P localEvent w3 w1 wl s Hl Hc Hm).
        pose proof (keeps_loadParamsIntoEnv P w3 (lit "SSOID") id Hid Hne) as Hk.
        rewrite Hl in Hk. simpl in Hk. unfold target. simpl. rewrite Hk.
        destruct id; [congruence|reflexivity]. }
      rewrite (attempt_resolved _ _ _ _ _ _ Eres).
      destruct (process_outcome P s localContext w1) as (users & w2 & _ & ->).
      destruct users as [|u users]; [rewrite Hs; right; now left|].
      destruct (deleteMatched P s localContext (u :: users) w2)
        as [[[results rows]|err0] w4]; simpl.
      * rewrite Hs. right. right. now exists results.
      * left. now exists err0.
    + rewrite (attempt_unresolved _ _ _ _ _ _ Eres). left. now exists err.
  - intros e. unfold actor, localContext. cbn [functionName].
    unfold opt_or at 1, or_else. now rewrite truthy_local_name.
Qed.

(* ===================================================================== *)
(** ** An invocation that fails *)
(* ===================================================================== *)

(** What a resolution that throws has asked of the tenant: nothing, or the
    token and nothing after it. *)
Lemma resolve_thrown_calls (P : Platform) (event : LambdaEvent) (w w1 : World)
    (err : JsError) :
  resolve P event w = (Thrown err, w1) ->
  exists asked,
    fetchCalls (trace w1) = fetchCalls (trace w) ++ asked
    /\ (asked = []
        \/ asked
           = [ tokenRequest (default [] (env w1 !! lit "AUTH0_DOMAIN"))
                 (default [] (env w1 !! lit "AUTH0_CLIENT_ID"))
                 (default [] (env w1 !! lit "AUTH0_CLIENT_SECRET"))
                 (opt_or (env w1 !! lit "AUTH0_AUDIENCE")
                    (lit "https://"
                     ++ stripProtocol (default [] (env w1 !! lit "AUTH0_DOMAIN"))
                     ++ lit "/api/v2/")) ]).
Proof.
  intros Hres.
  pose proof (confined_loadParamsIntoEnv (allBut KFetch) (fun _ => true) P
                (fun _ _ => eq_refl) eq_refl eq_refl w) as Hload.
  apply within_fetches in Hload; [|reflexivity].
  destruct (loadParamsIntoEnv P w) as [[[]|e] wl] eqn:El; simpl in Hload.
  2:{ unfold resolve, bind in Hres. rewrite El in Hres. injection Hres as _ <-.
      exists []. split; [now rewrite app_nil_r|now left]. }
  destruct (firstMissing (env wl)) as [k|] eqn:Ek.
  { rewrite (resolve_missing P event w wl k El Ek) in Hres. injection Hres as _ <-.
    exists []. split; [now rewrite app_nil_r|now left]. }
  assert (Hc : configure P event wl = (Thrown err, w1))
    by (unfold resolve, bind in Hres; now rewrite El in Hres).
  pose proof (firstMissing_none _ Ek) as (Hd & Hi & Hs).
  pose proof (getMgmtToken_trace P _ _ _
                (opt_or (env wl !! lit "AUTH0_AUDIENCE")
                   (lit "https://"
                    ++ stripProtocol (default [] (env wl !! lit "AUTH0_DOMAIN"))
                    ++ lit "/api/v2/")) wl
                (truthy_present_default _ Hd) (truthy_present_default _ Hi)
                (truthy_present_default _ Hs)
                (truthy_opt_or _ _ (truthy_default_audience _))) as Htrace.
  pose proof (confined_getMgmtToken (fun _ => true) noKey true P eq_refl
                (default [] (env wl !! lit "AUTH0_DOMAIN"))
                (default [] (env wl !! lit "AUTH0_CLIENT_ID"))
                (default [] (env wl !! lit "AUTH0_CLIENT_SECRET"))
                (opt_or (env wl !! lit "AUTH0_AUDIENCE")
                   (lit "https://"
                    ++ stripProtocol (default [] (env wl !! lit "AUTH0_DOMAIN"))
                    ++ lit "/api/v2/")) wl) as Henv.
  apply within_env in Henv.
  rewrite (configure_eq P event wl Ek) in Hc. cbv zeta in Hc.
  destruct (getMgmtToken P _ _ _ _ wl) as [[tok|e] w']; [discriminate|].
  injection Hc as _ <-. simpl in Htrace, Henv.
  eexists. split; [rewrite Htrace, fetchCalls_app, Hload; reflexivity|].
  right. now rewrite Henv.
Qed.

(** X20: an invocation answered with status 500 has neither read nor
    written the ledger object.  Either the resolution of the settings threw,
    and then nothing was asked of the tenant but, at most, the token; or the
    deletion loop met an element of the search answer that is [null] or whose
    id has no text, and then the body of the answer is the message of that
    type error, whatever was deleted before. *)
Theorem failed_invocation_skips_ledger (P : Platform) (event : LambdaEvent)
    (context : LambdaContext) (w : World) :
  statusCode (fst (handler P event context w)) = 500%N ->
  let answer := fst (handler P event context w) in
  let final := snd (handler P event context w) in
  eventsOf KS3Get (trace final) = eventsOf KS3Get (trace w)
  /\ eventsOf KS3Put (trace final) = eventsOf KS3Put (trace w)
  /\ ((exists err w1 asked,
         resolve P event w = (Thrown err, w1)
         /\ fetchCalls (trace final) = fetchCalls (trace w) ++ asked
         /\ Forall (fun r => req_method r = POST) asked
         /\ (asked = []
             \/ asked
                = [ tokenRequest (default [] (env w1 !! lit "AUTH0_DOMAIN"))
                      (default [] (env w1 !! lit "AUTH0_CLIENT_ID"))
                      (default [] (env w1 !! lit "AUTH0_CLIENT_SECRET"))
                      (opt_or (env w1 !! lit "AUTH0_AUDIENCE")
                         (lit "https://"
                          ++ stripProtocol (default [] (env w1 !! lit "AUTH0_DOMAIN"))
                          ++ lit "/api/v2/")) ]))
      \/ (exists s w1 users w2 u f,
            resolve P event w = (Returned s, w1)
            /\ findUsers P s w1 = (Returned users, w2)
            /\ In u users
            /\ andThen (get u (lit "user_id")) show = Faulty f
            /\ body answer
               = JSON_stringify
                   (JObject [ (lit "error",
                               JString (or_else (TypeError_message P f)
                                          (lit "TypeError"))) ]))).
Proof.
  intros Hstatus answer final. subst answer final. revert Hstatus. unfold handler.
  pose proof (confined_resolve (fun k => negb (sameKind k KS3Get || sameKind k KS3Put))
                P event eq_refl eq_refl eq_refl w) as Hs3.
  destruct (resolve P event w) as [[s|err] w1] eqn:Eres; simpl in Hs3.
  - rewrite (attempt_resolved _ _ _ _ _ _ Eres).
    destruct (process_outcome P s context w1) as (users & w2 & Efind & ->).
    pose proof (confined_findUsers
                  (fun k => negb (sameKind k KS3Get || sameKind k KS3Put))
                  (fun _ => true) true P eq_refl eq_refl s w1) as Hfind.
    rewrite Efind in Hfind. simpl in Hfind.
    destruct users as [|u users]; [simpl; discriminate|].
    pose proof (confined_deleteMatched
                  (fun k => negb (sameKind k KS3Get || sameKind k KS3Put))
                  (fun _ => true) true P eq_refl eq_refl s context (u :: users) w2)
      as Hdel.
    pose proof (deleteEach_outcome P s (actor context (env w2)) (u :: users) [] [] w2)
      as Ho.
    rewrite <- deleteMatched_eq in Ho.
    destruct (deleteMatched P s context (u :: users) w2) as [[[results rows]|err] w3];
      [simpl; discriminate|].
    simpl in Hdel. intros _. simpl.
    assert (Hall : within (fun k => negb (sameKind k KS3Get || sameKind k KS3Put))
                     (fun _ => true) true w w3)
      by (eapply within_trans; [exact Hs3|];
          eapply within_trans; [exact Hfind|exact Hdel]).
    split; [|split].
    + rewrite eventsOf_app. simpl. rewrite app_nil_r.
      now apply (within_events _ _ _ KS3Get _ _ Hall).
    + rewrite eventsOf_app. simpl. rewrite app_nil_r.
      now apply (within_events _ _ _ KS3Put _ _ Hall).
    + right. destruct Ho as (u0 & f & Hin & Hf & ->).
      exists s, w1, (u :: users), w2, u0, f. repeat split; auto.
  - rewrite (attempt_unresolved _ _ _ _ _ _ Eres). intros _. simpl.
    destruct (resolve_thrown_calls P event w w1 err Eres) as (asked & Hcalls & Hshape).
    split; [|split].
    + rewrite eventsOf_app. simpl. rewrite app_nil_r.
      now apply (within_events _ _ _ KS3Get _ _ Hs3).
    + rewrite eventsOf_app. simpl. rewrite app_nil_r.
      now apply (within_events _ _ _ KS3Put _ _ Hs3).
    + left. exists err, w1, asked. split; [reflexivity|].
      split; [rewrite fetchCalls_app; simpl; now rewrite app_nil_r|].
      split; [|exact Hshape].
      destruct Hshape as [->| ->]; repeat constructor.
Qed.

Lemma failed_invocation_skips_ledger_witness :
  statusCode (fst (handler Deployments.flatStore (Scenario.request "abc123")
                     Scenario.invoker Scenario.cold)) = 500%N
  /\ eventsOf KS3Put
       (trace (snd (handler Deployments.flatStore (Scenario.request "abc123")
                      Scenario.invoker Scenario.cold))) = [].
Proof.
  assert (H : statusCode (fst (handler Deployments.flatStore (Scenario.request "abc123")
                                 Scenario.invoker Scenario.cold)) = 500%N)
    by (vm_compute; reflexivity).
  split; [exact H|].
  destruct (failed_invocation_skips_ledger Deployments.flatStore
              (Scenario.request "abc123") Scenario.invoker Scenario.cold H)
    as (_ & Hput & _).
  exact Hput.
Defined.

(* ===================================================================== *)
(** ** The further properties on concrete deployments *)
(* ===================================================================== *)

Lemma settings_resolved_witness :
  firstMissing (env Deployments.warm) = None
  /\ List.map req_url
       (fetchCalls (trace (snd (configure Scenario.nobody (Scenario.request "abc123")
                                  Deployments.warm))))
     = List.map req_url (fetchCalls (trace Deployments.warm))
       ++ [lit "https://tenant.auth0.com/oauth/token"].
Proof.
  assert (H : firstMissing (env Deployments.warm) = None)
    by (vm_compute; reflexivity).
  split; [exact H|].
  destruct (settings_resolved Scenario.nobody (Scenario.request "abc123")
              Deployments.warm H) as [Hcalls _].
  rewrite Hcalls. vm_compute. reflexivity.
Defined.

Lemma flat_phase_fills_witness :
  env (snd (flatPhase Deployments.flatStore Scenario.cold)) !! lit "S3_BUCKET"
  = Some (lit "flat-S3_BUCKET").
Proof.
  rewrite (flat_phase_fills Deployments.flatStore Scenario.cold Deployments.flatValue
             {| gp_Parameters :=
                  Some (List.map (flatParameter Deployments.flatValue) EXPECTED_KEYS);
                gp_InvalidParameters := None |}).
  - vm_compute. reflexivity.
  - vm_compute. reflexivity.
  - vm_compute. reflexivity.
  - vm_compute. left. reflexivity.
  - vm_compute. reflexivity.
Defined.

Lemma first_listed_value_wins_witness :
  env (snd (hierarchicalPhase Deployments.nestedStore Scenario.cold)) !! lit "SSOID"
  = Some (lit "eu-id").
Proof.
  apply (first_listed_value_wins Deployments.nestedStore Scenario.cold
           (lit "/auth0-cleanup/")
           [ {| Name := lit "/auth0-cleanup/eu/AUTH0_DOMAIN";
                Value := lit "eu.auth0.com" |};
             {| Name := lit "/auth0-cleanup/draft/SSOID"; Value := [] |} ]
           [ {| Name := lit "/auth0-cleanup/us/SSOID"; Value := lit "us-id" |} ]
           {| Name := lit "/auth0-cleanup/eu/SSOID"; Value := lit "eu-id" |}
           (lit "SSOID")).
  - vm_compute. reflexivity.
  - vm_compute. reflexivity.
  - vm_compute. tauto.
  - vm_compute. reflexivity.
  - vm_compute. reflexivity.
  - vm_compute. discriminate.
  - intros q [<-|[<-|[]]] Hq; [vm_compute in Hq; discriminate|reflexivity].
Defined.

Lemma no_deletion_no_ledger_witness :
  statusCode (fst (handler Deployments.allRefused (Scenario.request "abc123")
                     Scenario.invoker Scenario.cold)) = 200
  /\ eventsOf KS3Get
       (trace (snd (handler Deployments.allRefused (Scenario.request "abc123")
                      Scenario.invoker Scenario.cold))) = [].
Proof.
  pose (w1 := snd (resolve Deployments.allRefused (Scenario.request "abc123")
                     Scenario.cold)).
  pose (w2 := snd (findUsers Deployments.allRefused Scenario.settings w1)).
  pose (w3 := snd (deleteMatched Deployments.allRefused Scenario.settings
                     Scenario.invoker [Scenario.alice] w2)).
  destruct (no_deletion_no_ledger Deployments.allRefused (Scenario.request "abc123")
              Scenario.invoker Scenario.cold w1 w2 w3 Scenario.settings
              Scenario.alice []
              [ {| entry_user_id := Some (JString (lit "auth0|a1"));
                   entry_deleted := false;
                   entry_error := Some (lit "Delete failed HTTP 500: try later") |} ]
              []) as [_ H].
  - vm_compute. reflexivity.
  - vm_compute. reflexivity.
  - vm_compute. reflexivity.
  - intros r [<-|[]]. reflexivity.
  - rewrite H. split; vm_compute; reflexivity.
Defined.

Lemma stripProtocol_host_witness :
  stripProtocol (lit "HTTPS://" ++ lit "tenant.auth0.com" ++ repeat SLASH 2)
  = lit "tenant.auth0.com".
Proof.
  destruct stripProtocol_host as (_ & H & _). apply H.
  - left. vm_compute. reflexivity.
  - vm_compute. intuition discriminate.
Defined.

Lemma deleteUser_outcome_witness :
  fst (deleteUser Deployments.allRefused (lit "tenant.auth0.com") (lit "token")
         (Some (JString (lit "auth0|a1"))) Scenario.cold)
  = Thrown (Error (lit "Delete failed HTTP 500: try later")).
Proof.
  destruct (deleteUser_outcome Deployments.allRefused (lit "tenant.auth0.com")
              (lit "token") (Some (JString (lit "auth0|a1"))) Scenario.cold)
    as (_ & H & _).
  rewrite (H (lit "auth0|a1") (lit "auth0|a1")
             {| res_status := 500; res_statusText := lit "Internal Server Error";
                res_text := Returned (lit "try later") |}
             (lit "try later")); vm_compute; reflexivity.
Defined.

Lemma getMgmtToken_outcome_witness :
  fst (getMgmtToken Scenario.nobody (lit "tenant.auth0.com") (lit "client")
         (lit "secret") (lit "https://tenant.auth0.com/api/v2/") Scenario.cold)
  = Returned (lit "token")
  /\ lit "token" <> [].
Proof.
  assert (E : getMgmtToken Scenario.nobody (lit "tenant.auth0.com") (lit "client")
                (lit "secret") (lit "https://tenant.auth0.com/api/v2/") Scenario.cold
              = (Returned (lit "token"),
                 record (FetchCall (tokenRequest (lit "tenant.auth0.com") (lit "client")
                                      (lit "secret")
                                      (lit "https://tenant.auth0.com/api/v2/")))
                   Scenario.cold))
    by (vm_compute; reflexivity).
  split; [now rewrite E|].
  pose proof (getMgmtToken_outcome Scenario.nobody (lit "tenant.auth0.com")
                (lit "client") (lit "secret")
                (lit "https://tenant.auth0.com/api/v2/") Scenario.cold) as H.
  cbv zeta in H. destruct H as [H _].
  exact (proj1 (H _ _ E)).
Defined.

Lemma target_and_actor_witness :
  target (Scenario.request "abc123") (env Scenario.cold) = lit "abc123".
Proof.
  pose proof (target_and_actor (Scenario.request "abc123") Scenario.invoker
                Scenario.cold) as H.
  cbv zeta in H. destruct H as (_ & _ & _ & _ & H & _).
  apply H; [vm_compute; discriminate|reflexivity].
Defined.

